(** * Complex.js v2.4.3: a shallow embedding and its verified properties

    The development follows [src/complex.js].  JavaScript numbers are the
    kernel's binary64 floats; strings are sequences of Latin-1 code units
    (one [ascii] per UTF-16 code unit below U+0100); objects live in a heap
    and are referred to by location, so that identity of the shared
    constants ([Complex.ZERO], [Complex.NAN], ...) and mutation of the
    parser's scratch record [P] are visible.  The functions of the host
    ([Math.cos], [Number::toString], ...) that ECMAScript leaves
    implementation-approximated are parameters, collected in [Platform]. *)

From Stdlib Require Import ZArith NArith List String Ascii Bool Floats Lia.
From Stdlib Require Import Reals Ratan Lra.
Import ListNotations.

Set Warnings "-inexact-float".

(* ================================================================= *)
(** ** Text: code units, StringToNumber and parseFloat (ECMA-262) *)

Module Text.

Local Open Scope string_scope.

Definition code (c : ascii) : N := N_of_ascii c.

(** [\d] of a JavaScript regular expression: the ten ASCII digits. *)
Definition is_digit (c : ascii) : bool :=
  ((48 <=? code c) && (code c <=? 57))%N.

(** StrWhiteSpaceChar (WhiteSpace and LineTerminator) below U+0100:
    TAB, LF, VT, FF, CR, SP and NBSP. *)
Definition is_whitespace (c : ascii) : bool :=
  let n := code c in
  (((9 <=? n) && (n <=? 13)) || (n =? 32) || (n =? 160))%N.

(** LineTerminator below U+0100: the characters [.] does not match. *)
Definition is_line_terminator (c : ascii) : bool :=
  let n := code c in ((n =? 10) || (n =? 13))%N.

Definition str1 (c : ascii) : string := String c EmptyString.

Definition is_empty (s : string) : bool :=
  match s with EmptyString => true | _ => false end.

(** Longest prefix of digits, and what follows it. *)
Fixpoint span_digits (s : string) : string * string :=
  match s with
  | String c r =>
      if is_digit c
      then let (d, r') := span_digits r in (String c d, r')
      else (EmptyString, s)
  | EmptyString => (EmptyString, EmptyString)
  end.

Fixpoint trim_left (s : string) : string :=
  match s with
  | String c r => if is_whitespace c then trim_left r else s
  | EmptyString => EmptyString
  end.

Fixpoint trim_right (s : string) : string :=
  match s with
  | String c r =>
      let r' := trim_right r in
      if is_empty r' && is_whitespace c then EmptyString else String c r'
  | EmptyString => EmptyString
  end.

Definition trim (s : string) : string := trim_right (trim_left s).

(** Value of a digit string in base [b] (digits 0-9, a-z, A-Z). *)
Definition digit_value (c : ascii) : N :=
  let n := code c in
  (if is_digit c then n - 48
   else if (97 <=? n) && (n <=? 122) then n - 87
   else if (65 <=? n) && (n <=? 90) then n - 55
   else 36)%N.

Fixpoint digits_value_from (b acc : N) (s : string) : N :=
  match s with
  | String c r => digits_value_from b (acc * b + digit_value c)%N r
  | EmptyString => acc
  end.

Definition digits_value (b : N) (s : string) : N := digits_value_from b 0 s.

Fixpoint all_digits_below (b : N) (s : string) : bool :=
  match s with
  | String c r => (digit_value c <? b)%N && all_digits_below b r
  | EmptyString => true
  end.

(** The Number value of [m * 10^e]: round to nearest, ties to even. *)
Definition dec2SF (m : N) (e : Z) : spec_float :=
  match m with
  | N0 => S754_zero false
  | Npos p =>
      if (0 <=? e)%Z
      then binary_normalize prec emax (Zpos p * 10 ^ e) 0 false
      else SFdiv prec emax (S754_finite false p 0)
                           (S754_finite false (Z.to_pos (10 ^ (- e))) 0)
  end.

Definition signed (neg : bool) (x : float) : float :=
  if neg then (- x)%float else x.

Definition dec2float (neg : bool) (m : N) (e : Z) : float :=
  signed neg (SF2Prim (dec2SF m e)).

(** Drops [p] when [s] starts with it. *)
Fixpoint strip_prefix (p s : string) : option string :=
  match p, s with
  | EmptyString, _ => Some s
  | String a p', String b s' =>
      if Ascii.eqb a b then strip_prefix p' s' else None
  | String _ _, EmptyString => None
  end.

(** An optional dot, and what follows it. *)
Definition opt_dot (s : string) : string * string :=
  match s with
  | String "." r => (".", r)
  | _ => ("", s)
  end.

(** An optional sign, and what follows it. *)
Definition opt_sign (s : string) : string * string :=
  match s with
  | String "+" r => ("+", r)
  | String "-" r => ("-", r)
  | _ => ("", s)
  end.

(** ExponentPart, when present: [[eE] [+-]? DecimalDigits]. *)
Definition lex_exponent (s : string) : option (Z * string) :=
  match s with
  | String c r =>
      if Ascii.eqb c "e" || Ascii.eqb c "E" then
        let (sg, r1) := opt_sign r in
        let (d, r2) := span_digits r1 in
        if is_empty d then None
        else let v := Z.of_N (digits_value 10 d) in
             Some (if String.eqb sg "-" then (- v)%Z else v, r2)
      else None
  | EmptyString => None
  end.

(** Longest prefix that is a StrUnsignedDecimalLiteral:
    [Infinity], [digits . digits? exp?], [. digits exp?] or [digits exp?].
    Returns its value (with the sign [neg] applied) and the rest. *)
Definition lex_unsigned_decimal (neg : bool) (s : string)
  : option (float * string) :=
  match strip_prefix "Infinity" s with
  | Some r => Some (signed neg infinity, r)
  | None =>
      let (d1, r1) := span_digits s in
      let (dot, r1') := opt_dot r1 in
      let (d2, r2) :=
        if is_empty dot then (EmptyString, r1) else span_digits r1' in
      if is_empty d1 && is_empty d2 then None
      else
        let '(e, r3) :=
          match lex_exponent r2 with
          | Some (e, r) => (e, r)
          | None => (0%Z, r2)
          end in
        Some (dec2float neg (digits_value 10 (d1 ++ d2))
                        (e - Z.of_nat (String.length d2)), r3)
  end.

(** Longest prefix that is a StrDecimalLiteral (optionally signed). *)
Definition lex_decimal (s : string) : option (float * string) :=
  let (sg, r) := opt_sign s in
  lex_unsigned_decimal (String.eqb sg "-") r.

(** The global [parseFloat]: leading white space is skipped, the longest
    decimal prefix is read, anything after it is ignored. *)
Definition parseFloat (s : string) : float :=
  match lex_decimal (trim_left s) with
  | Some (x, _) => x
  | None => nan
  end.

(** NonDecimalIntegerLiteral: [0x], [0o], [0b] and their capitals. *)
Definition lex_non_decimal (s : string) : option float :=
  match s with
  | String "0" (String c r) =>
      let base : N :=
        if Ascii.eqb c "x" || Ascii.eqb c "X" then 16%N
        else if Ascii.eqb c "o" || Ascii.eqb c "O" then 8%N
        else if Ascii.eqb c "b" || Ascii.eqb c "B" then 2%N
        else 0%N in
      if (base =? 0)%N || is_empty r || negb (all_digits_below base r)
      then None
      else Some (dec2float false (digits_value base r) 0)
  | _ => None
  end.

(** StringToNumber: the whole trimmed string must be a
    StringNumericLiteral; the empty string is [+0]; anything else is NaN. *)
Definition StringToNumber (s : string) : float :=
  let t := trim s in
  if is_empty t then zero
  else match lex_non_decimal t with
       | Some x => x
       | None =>
           match lex_decimal t with
           | Some (x, EmptyString) => x
           | _ => nan
           end
       end.

End Text.

(* ================================================================= *)
(** ** The tokenizer of [parse]

    [a.replace(/_/g, '').match(/\d+\.?\d*e[+-]?\d+|\d+\.?\d*|\.\d+|./g)]:
    every alternative is a sequence of greedy runs that no later item can
    take over, so a match at a position, when there is one, is found by
    the left-to-right scan below; alternatives are tried in order. *)

Module Lexer.

Import Text.
Local Open Scope string_scope.

(** [replace(/_/g, '')] *)
Fixpoint remove_underscores (s : string) : string :=
  match s with
  | String c r =>
      if Ascii.eqb c "_" then remove_underscores r
      else String c (remove_underscores r)
  | EmptyString => EmptyString
  end.

(** [\d+\.?\d*e[+-]?\d+] at the start of [s]: the match and the rest. *)
Definition re_exponential (s : string) : option (string * string) :=
  let (d1, r1) := span_digits s in
  if is_empty d1 then None else
  let (dot, r2) := opt_dot r1 in
  let (d2, r3) := span_digits r2 in
  match r3 with
  | String "e" r4 =>
      let (sg, r5) := opt_sign r4 in
      let (d3, r6) := span_digits r5 in
      if is_empty d3 then None
      else Some (d1 ++ dot ++ d2 ++ "e" ++ sg ++ d3, r6)
  | _ => None
  end.

(** [\d+\.?\d*] *)
Definition re_decimal (s : string) : option (string * string) :=
  let (d1, r1) := span_digits s in
  if is_empty d1 then None else
  let (dot, r2) := opt_dot r1 in
  let (d2, r3) := span_digits r2 in
  Some (d1 ++ dot ++ d2, r3).

(** [\.\d+] *)
Definition re_fraction (s : string) : option (string * string) :=
  match s with
  | String "." r =>
      let (d, r') := span_digits r in
      if is_empty d then None else Some ("." ++ d, r')
  | _ => None
  end.

(** [.]: any code unit but a line terminator. *)
Definition re_any (s : string) : option (string * string) :=
  match s with
  | String c r => if is_line_terminator c then None else Some (str1 c, r)
  | EmptyString => None
  end.

Definition or_else {A} (x : option A) (y : option A) : option A :=
  match x with Some _ => x | None => y end.

(** The whole pattern at the start of [s]. *)
Definition re_token (s : string) : option (string * string) :=
  or_else (re_exponential s)
    (or_else (re_decimal s) (or_else (re_fraction s) (re_any s))).

(** All matches, left to right; a position where nothing matches is
    skipped.  A match consumes at least one code unit, so [String.length s]
    steps exhaust [s] (lemma [match_all_fuel]). *)
Fixpoint match_all (fuel : nat) (s : string) : list string :=
  match fuel with
  | O => []
  | S fuel' =>
      match s with
      | EmptyString => []
      | String _ r =>
          match re_token s with
          | Some (tok, rest) => tok :: match_all fuel' rest
          | None => match_all fuel' r
          end
      end
  end.

(** [String.prototype.match] with a global pattern: [null] (here [None])
    when there is no match at all. *)
Definition tokenize (a : string) : option (list string) :=
  let s := remove_underscores a in
  match match_all (String.length s) s with
  | [] => None
  | l => Some l
  end.

End Lexer.

(* ================================================================= *)
(** ** Values, objects and the store *)

Definition loc := nat.

(** The JavaScript values: the seven primitive types and objects.
    [VFunction] stands for any callable value, [VSymbol id] for the
    symbol of identity [id]. *)
Inductive value : Type :=
| VUndefined
| VNull
| VBool (b : bool)
| VNum (x : float)
| VStr (s : string)
| VObj (l : loc)
| VFunction
| VBigInt (n : Z)
| VSymbol (id : nat).

Inductive js_type : Type :=
| TUndefined | TObject | TBoolean | TNumber | TString | TFunction
| TBigInt | TSymbol.

Definition typeof (v : value) : js_type :=
  match v with
  | VUndefined => TUndefined
  | VNull | VObj _ => TObject
  | VBool _ => TBoolean
  | VNum _ => TNumber
  | VStr _ => TString
  | VFunction => TFunction
  | VBigInt _ => TBigInt
  | VSymbol _ => TSymbol
  end.

(** [v === undefined], [v === null] and [v === x] for a Number [x]
    (strict equality never coerces; on Numbers it is IEEE equality). *)
Definition is_undefined (v : value) : bool :=
  match v with VUndefined => true | _ => false end.

Definition is_null (v : value) : bool :=
  match v with VNull => true | _ => false end.

Definition strict_eq_num (v : value) (x : float) : bool :=
  match v with VNum y => (y =? x)%float | _ => false end.

(** ToBoolean *)
Definition truthy (v : value) : bool :=
  match v with
  | VUndefined | VNull => false
  | VBool b => b
  | VNum x => negb (is_nan x || (x =? 0)%float)
  | VStr s => negb (Text.is_empty s)
  | VObj _ | VFunction | VSymbol _ => true
  | VBigInt n => negb (n =? 0)%Z
  end.

Inductive prototype : Type :=
| Object_prototype
| Complex_prototype.

(** An object: its prototype and its own data properties. *)
Record object : Type := mkObject {
  proto : prototype;
  own : list (string * value)
}.

Fixpoint assoc (k : string) (l : list (string * value)) : option value :=
  match l with
  | (k', v) :: r => if String.eqb k k' then Some v else assoc k r
  | [] => None
  end.

Fixpoint assoc_set (k : string) (v : value) (l : list (string * value))
  : list (string * value) :=
  match l with
  | (k', v') :: r =>
      if String.eqb k k' then (k, v) :: r else (k', v') :: assoc_set k v r
  | [] => [(k, v)]
  end.

Local Open Scope string_scope.

(** The function-valued members of [Object.prototype]. *)
Definition Object_prototype_methods : list string :=
  [ "constructor"; "hasOwnProperty"; "isPrototypeOf";
    "propertyIsEnumerable"; "toLocaleString"; "toString"; "valueOf" ].

(** The methods of [Complex.prototype] (src/complex.js, lines 272-1468). *)
Definition Complex_prototype_methods : list string :=
  [ "sign"; "add"; "sub"; "mul"; "div"; "pow"; "sqrt"; "exp"; "expm1";
    "log"; "abs"; "arg"; "sin"; "cos"; "tan"; "cot"; "sec"; "csc";
    "asin"; "acos"; "atan"; "acot"; "asec"; "acsc"; "sinh"; "cosh";
    "tanh"; "coth"; "csch"; "sech"; "asinh"; "acosh"; "atanh"; "acoth";
    "acsch"; "asech"; "inverse"; "conjugate"; "neg"; "ceil"; "floor";
    "round"; "equals"; "clone"; "toString"; "toVector"; "valueOf";
    "isNaN"; "isZero"; "isFinite"; "isInfinite" ].

Definition mem_string (k : string) (l : list string) : bool :=
  existsb (String.eqb k) l.

(** What a prototype chain provides for key [k]:
    [Complex.prototype = { 're': 0, 'im': 0, ... }] above
    [Object.prototype]. *)
Definition proto_get (p : prototype) (k : string) : option value :=
  match p with
  | Object_prototype =>
      if mem_string k Object_prototype_methods then Some VFunction else None
  | Complex_prototype =>
      if String.eqb k "re" || String.eqb k "im" then Some (VNum 0)
      else if mem_string k Complex_prototype_methods
              || mem_string k Object_prototype_methods
           then Some VFunction else None
  end.

(** [k in o] *)
Definition has_property (o : object) (k : string) : bool :=
  match assoc k (own o) with
  | Some _ => true
  | None => match proto_get (proto o) k with Some _ => true | None => false end
  end.

(** [o[k]] *)
Definition get_property (o : object) (k : string) : value :=
  match assoc k (own o) with
  | Some v => v
  | None => match proto_get (proto o) k with Some v => v | None => VUndefined end
  end.

(** [o[k] = v] (no setters, nothing frozen) *)
Definition set_property (o : object) (k : string) (v : value) : object :=
  mkObject (proto o) (assoc_set k v (own o)).

(** The store: the module-private scratch record [P = {'re': 0, 'im': 0}]
    of [parse], and the heap of all other objects. *)
Record store : Type := mkStore {
  P_re : value;
  P_im : value;
  heap : list object
}.

Fixpoint list_update {A} (l : list A) (n : nat) (x : A) : list A :=
  match l, n with
  | [], _ => []
  | _ :: r, O => x :: r
  | y :: r, S n' => y :: list_update r n' x
  end.

(** How a call ends.  [Unmodelled]: the call needs a coercion this
    development leaves out (ToNumber or ToPrimitive of a value that is not
    a Number where an arithmetic operator or numeric function is applied),
    or dereferences a location outside the heap. *)
Inductive completion (A : Type) : Type :=
| Normal (a : A)
| Throw (error : string) (message : string)
| Unmodelled.

Arguments Normal {A} a.
Arguments Throw {A} error message.
Arguments Unmodelled {A}.

Definition M (A : Type) : Type := store -> completion A * store.

Definition ret {A} (a : A) : M A := fun s => (Normal a, s).

Definition bind {A B} (m : M A) (k : A -> M B) : M B :=
  fun s =>
    match m s with
    | (Normal a, s') => k a s'
    | (Throw e msg, s') => (Throw e msg, s')
    | (Unmodelled, s') => (Unmodelled, s')
    end.

Definition throw {A} (e msg : string) : M A := fun s => (Throw e msg, s).

Definition unmodelled {A} : M A := fun s => (Unmodelled, s).

Declare Scope js_scope.
Delimit Scope js_scope with js.
Notation "x <- m ;; k" := (bind m (fun x => k))
  (at level 61, m at next level, right associativity) : js_scope.
Notation "m ;; k" := (bind m (fun _ => k))
  (at level 61, right associativity) : js_scope.
Local Open Scope js_scope.

(** A new object; its location is the next free one. *)
Definition alloc (o : object) : M loc :=
  fun s => (Normal (List.length (heap s)),
            mkStore (P_re s) (P_im s) (heap s ++ [o])%list).

Definition get_prop (l : loc) (k : string) : M value :=
  fun s =>
    match nth_error (heap s) l with
    | Some o => (Normal (get_property o k), s)
    | None => (Unmodelled, s)
    end.

Definition has_prop (l : loc) (k : string) : M bool :=
  fun s =>
    match nth_error (heap s) l with
    | Some o => (Normal (has_property o k), s)
    | None => (Unmodelled, s)
    end.

Definition set_prop (l : loc) (k : string) (v : value) : M unit :=
  fun s =>
    match nth_error (heap s) l with
    | Some o => (Normal tt,
                 mkStore (P_re s) (P_im s)
                         (list_update (heap s) l (set_property o k v)))
    | None => (Unmodelled, s)
    end.

(** A value used as a Number without coercion. *)
Definition num (v : value) : M float :=
  match v with
  | VNum x => ret x
  | _ => unmodelled
  end.

Definition get_num (l : loc) (k : string) : M float :=
  v <- get_prop l k ;; num v.

(** [z['re']] where [z] is what [parse] returned: the scratch record [P]
    or, from the polar branches, the object [Complex['INFINITY']]. *)
Inductive zref : Type :=
| ZP
| ZObj (l : loc).

Definition zget (z : zref) (k : string) : M value :=
  match z with
  | ZP => fun s => (Normal (if String.eqb k "re" then P_re s
                            else if String.eqb k "im" then P_im s
                            else VUndefined), s)
  | ZObj l => get_prop l k
  end.

Definition set_P_re (v : value) : M unit :=
  fun s => (Normal tt, mkStore v (P_im s) (heap s)).

Definition set_P_im (v : value) : M unit :=
  fun s => (Normal tt, mkStore (P_re s) v (heap s)).

(** Short-circuit [&&] and [||] on computations. *)
Definition andM (m1 m2 : M bool) : M bool :=
  b <- m1 ;; if b then m2 else ret false.

Definition orM (m1 m2 : M bool) : M bool :=
  b <- m1 ;; if b then ret true else m2.

(* ================================================================= *)
(** ** Built-in functions of the global object *)

Module Global.

(** ToNumber on [undefined], [null], booleans, Numbers and strings.
    On an object or function it would run ToPrimitive (user-definable
    [valueOf]/[toString]), and on a BigInt or a Symbol it throws a
    TypeError: these conversions are left out, and a call that needs one
    ends as [Unmodelled]. *)
Definition ToNumber (v : value) : M float :=
  match v with
  | VUndefined => ret nan
  | VNull => ret zero
  | VBool b => ret (if b then one else zero)
  | VNum x => ret x
  | VStr s => ret (Text.StringToNumber s)
  | VObj _ | VFunction | VBigInt _ | VSymbol _ => unmodelled
  end.

Definition isNaN (v : value) : M bool :=
  x <- ToNumber v ;; ret (is_nan x).

Definition isFinite (v : value) : M bool :=
  x <- ToNumber v ;; ret (is_finite x).

(** [isNaN(tokens[i])] for a token, and for [tokens[i]] past the end
    ([undefined], whose ToNumber is NaN). *)
Definition isNaN_string (s : string) : bool :=
  is_nan (Text.StringToNumber s).

End Global.

(* ================================================================= *)
(** ** The host: what ECMAScript leaves implementation-approximated *)

Class Platform : Type := {
  Math_cos : float -> float;
  Math_sin : float -> float;
  Math_atan2 : float -> float -> float;
  Math_log : float -> float;
  Math_exp : float -> float;
  Math_expm1 : float -> float;
  Math_pow : float -> float -> float;
  Math_acos : float -> float;
  Math_sqrt : float -> float;
  Math_floor : float -> float;
  Math_ceil : float -> float;
  Math_round : float -> float;
  (** [Math.cosh] and [Math.sinh] may be missing on an old host. *)
  Math_cosh : option (float -> float);
  Math_sinh : option (float -> float);
  (** the [%] operator on Numbers *)
  Number_remainder : float -> float -> float;
  (** Number::toString, radix 10 *)
  Number_toString : float -> string
}.

(** [Math.abs] is exact. *)
Definition Math_abs (x : float) : float := PrimFloat.abs x.

(** [Math.PI], [Math.E] and [Math.LN2]: the nearest doubles. *)
Definition Math_PI : float := 0x1.921fb54442d18p+1%float.
Definition Math_E : float := 0x1.5bf0a8b145769p+1%float.
Definition Math_LN2 : float := 0x1.62e42fefa39efp-1%float.

(** The shared constants, in the order lines 1470-1476 create them. *)
Definition Complex_ZERO : loc := 0.
Definition Complex_ONE : loc := 1.
Definition Complex_I : loc := 2.
Definition Complex_PI : loc := 3.
Definition Complex_E : loc := 4.
Definition Complex_INFINITY : loc := 5.
Definition Complex_NAN : loc := 6.

(** [Complex['EPSILON'] = 1e-15] (line 1477), the double nearest to it. *)
Definition Complex_EPSILON : float := 1e-15%float.

(* ================================================================= *)
(** ** File-level functions of src/complex.js (lines 38-270) *)

Module Lib.

Section WithPlatform.

Context {host : Platform}.

Local Open Scope float_scope.

(** [const cosh = Math.cosh || function (x) {...}] (lines 38-40) *)
Definition cosh (x : float) : float :=
  match Math_cosh with
  | Some f => f x
  | None =>
      if Math_abs x <? 1e-9 then 1 - x
      else (Math_exp x + Math_exp (- x)) * 0.5
  end.

(** lines 42-44 *)
Definition sinh (x : float) : float :=
  match Math_sinh with
  | Some f => f x
  | None =>
      if Math_abs x <? 1e-9 then x
      else (Math_exp x - Math_exp (- x)) * 0.5
  end.

(** lines 52-56 *)
Definition cosm1 (x : float) : float :=
  let s := Math_sin (0.5 * x) in
  -2 * s * s.

(** lines 58-72 *)
Definition hypot (x y : float) : float :=
  let x := Math_abs x in
  let y := Math_abs y in
  let '(x, y) := if x <? y then (y, x) else (x, y) in
  if x <? 1e8 then Math_sqrt (x * x + y * y)
  else
    let y := y / x in
    x * Math_sqrt (1 + y * y).

(** lines 74-76: [throw SyntaxError('Invalid Param')] *)
Definition parser_exit {A} : M A := throw "SyntaxError" "Invalid Param".

(** lines 85-138 *)
Definition logHypot (a b : float) : float :=
  let _a := Math_abs a in
  let _b := Math_abs b in
  if a =? 0 then Math_log _b
  else if b =? 0 then Math_log _a
  else if (_a <? 3000) && (_b <? 3000)
  then Math_log (a * a + b * b) * 0.5
  else
    let a := a * 0.5 in
    let b := b * 0.5 in
    0.5 * Math_log (a * a + b * b) + Math_LN2.

(** The sign prefix [(minus % 2 ? '-' : '')]. *)
Definition sign_prefix (minus : nat) : string :=
  if Nat.odd minus then "-"%string else ""%string.

Definition is_i (c : string) : bool :=
  String.eqb c "i" || String.eqb c "I".

Definition is_blank (c : string) : bool :=
  String.eqb c " " || String.eqb c (Text.str1 (ascii_of_nat 9))
  || String.eqb c (Text.str1 (ascii_of_nat 10)).

(** How the token loop of [parse] (lines 193-236) leaves: normally, or
    through [parser_exit]; either way with the sums accumulated so far
    in [z['re']] and [z['im']]. *)
Inductive scan_result : Type :=
| ScanDone (re im : float)
| ScanExit (re im : float).

(** The loop, from token [i] on; [tokens] is what is left at index [i],
    so [tokens[i + 1]] is the head of its tail, and [i++] in the body
    drops a second token. *)
Fixpoint scan (tokens : list string) (plus minus : nat) (re im : float)
  : scan_result :=
  match tokens with
  | [] =>
      (* line 234: still something on the stack *)
      if (0 <? plus + minus)%nat then ScanExit re im else ScanDone re im
  | c :: rest =>
      if is_blank c then scan rest plus minus re im
      else if String.eqb c "+" then scan rest (S plus) minus re im
      else if String.eqb c "-" then scan rest plus (S minus) re im
      else if is_i c then
        if (plus + minus =? 0)%nat then ScanExit re im
        else
          match rest with
          | next :: rest' =>
              if negb (String.eqb next " ")
                 && negb (Global.isNaN_string next)
              then scan rest' 0 0 re
                     (im + Text.parseFloat (sign_prefix minus ++ next))
              else scan rest 0 0 re
                     (im + Text.parseFloat (sign_prefix minus ++ "1"))
          | [] => scan rest 0 0 re
                     (im + Text.parseFloat (sign_prefix minus ++ "1"))
          end
      else
        if (plus + minus =? 0)%nat || Global.isNaN_string c
        then ScanExit re im
        else
          match rest with
          | next :: rest' =>
              if is_i next
              then scan rest' 0 0 re
                     (im + Text.parseFloat (sign_prefix minus ++ c))
              else scan rest 0 0
                     (re + Text.parseFloat (sign_prefix minus ++ c)) im
          | [] => scan rest 0 0
                     (re + Text.parseFloat (sign_prefix minus ++ c)) im
          end
  end.

(** lines 248-253: the NaN test that used to reject (its [parser_exit]
    is commented out), then [return z]. *)
Definition parse_return : M zref :=
  re <- zget ZP "re" ;;
  im <- zget ZP "im" ;;
  _ <- orM (Global.isNaN re) (Global.isNaN im) ;;
  ret ZP.

(** The polar branches (lines 159-170): [abs] and [arg] are the values
    of the radius and angle properties. *)
Definition parse_polar (abs arg : value) : M zref :=
  pole <- andM (fin <- Global.isFinite abs ;; ret (negb fin))
               (Global.isFinite arg) ;;
  if pole then ret (ZObj Complex_INFINITY)
  else
    r <- num abs ;;
    phi <- num arg ;;
    set_P_re (VNum (r * Math_cos phi)) ;;
    set_P_im (VNum (r * Math_sin phi)) ;;
    parse_return.

(** lines 154-177 *)
Definition parse_object (a : loc) : M zref :=
  has_im_re <- andM (has_prop a "im") (has_prop a "re") ;;
  if has_im_re then
    re <- get_prop a "re" ;; set_P_re re ;;
    im <- get_prop a "im" ;; set_P_im im ;;
    parse_return
  else
    has_abs_arg <- andM (has_prop a "abs") (has_prop a "arg") ;;
    if has_abs_arg then
      abs <- get_prop a "abs" ;; arg <- get_prop a "arg" ;;
      parse_polar abs arg
    else
      has_r_phi <- andM (has_prop a "r") (has_prop a "phi") ;;
      if has_r_phi then
        r <- get_prop a "r" ;; phi <- get_prop a "phi" ;;
        parse_polar r phi
      else
        len <- get_prop a "length" ;;
        if strict_eq_num len 2 then
          a0 <- get_prop a "0" ;; set_P_re a0 ;;
          a1 <- get_prop a "1" ;; set_P_im a1 ;;
          parse_return
        else parser_exit.

(** lines 179-237 *)
Definition parse_string (a : string) : M zref :=
  set_P_re (VNum 0) ;;
  set_P_im (VNum 0) ;;
  match Lexer.tokenize a with
  | None => parser_exit
  | Some tokens =>
      match scan tokens 1 0 0 0 with
      | ScanDone re im =>
          set_P_re (VNum re) ;; set_P_im (VNum im) ;; parse_return
      | ScanExit re im =>
          set_P_re (VNum re) ;; set_P_im (VNum im) ;; parser_exit
      end
  end.

(** lines 141-254 *)
Definition parse (a b : value) : M zref :=
  if is_undefined a || is_null a then
    set_P_im (VNum 0) ;; set_P_re (VNum 0) ;; parse_return
  else if negb (is_undefined b) then
    set_P_re a ;; set_P_im b ;; parse_return
  else
    match a with
    | VObj l => parse_object l
    | VStr s => parse_string s
    | VNum x => set_P_im (VNum 0) ;; set_P_re a ;; parse_return
    | _ => parser_exit
    end.

(** lines 260-270, called with [new] (or without: line 263 then calls
    it with [new]).  [new] creates [this], an object whose prototype is
    [Complex.prototype], before the body runs. *)
Definition Complex (a b : value) : M loc :=
  this <- alloc (mkObject Complex_prototype []) ;;
  z <- parse a b ;;
  re <- zget z "re" ;; set_prop this "re" re ;;
  im <- zget z "im" ;; set_prop this "im" im ;;
  ret this.

End WithPlatform.

End Lib.

(* ================================================================= *)
(** ** [Complex.prototype] (lines 272-1468)

    A method reads the fields it computes with as Numbers ([get_num],
    [num]); tests by [===], [isNaN] and [isFinite] are made on the values
    as they are.  Methods that answer a Complex return its location. *)

Module prototype.

Section WithPlatform.

Context {host : Platform}.

Local Open Scope float_scope.

Definition new_Complex (re im : float) : M loc :=
  Lib.Complex (VNum re) (VNum im).

(** lines 1435-1437 *)
Definition isNaN (this : loc) : M bool :=
  orM (re <- get_prop this "re" ;; Global.isNaN re)
      (im <- get_prop this "im" ;; Global.isNaN im).

(** lines 1445-1447 *)
Definition isZero (this : loc) : M bool :=
  im <- get_prop this "im" ;;
  re <- get_prop this "re" ;;
  ret (strict_eq_num im 0 && strict_eq_num re 0).

(** lines 1455-1457 *)
Definition isFinite (this : loc) : M bool :=
  andM (re <- get_prop this "re" ;; Global.isFinite re)
       (im <- get_prop this "im" ;; Global.isFinite im).

(** lines 1465-1467 *)
Definition isInfinite (this : loc) : M bool :=
  fin <- isFinite this ;; ret (negb fin).

(** [!(isFinite(z['re']) && isFinite(z['im']))] *)
Definition zInfinite (z : zref) : M bool :=
  fin <- andM (re <- zget z "re" ;; Global.isFinite re)
              (im <- zget z "im" ;; Global.isFinite im) ;;
  ret (negb fin).

(** [v['re'] === 0 && v['im'] === 0] on the receiver and on [z] *)
Definition tIsZero (this : loc) : M bool :=
  re <- get_prop this "re" ;;
  im <- get_prop this "im" ;;
  ret (strict_eq_num re 0 && strict_eq_num im 0).

Definition zIsZero (z : zref) : M bool :=
  re <- zget z "re" ;;
  im <- zget z "im" ;;
  ret (strict_eq_num re 0 && strict_eq_num im 0).

Definition znum (z : zref) (k : string) : M float :=
  v <- zget z k ;; num v.

(** lines 282-289 *)
Definition sign (this : loc) : M loc :=
  re <- get_num this "re" ;;
  im <- get_num this "im" ;;
  let abs := Lib.hypot re im in
  new_Complex (re / abs) (im / abs).

(** lines 296-316 *)
Definition add (this : loc) (a b : value) : M loc :=
  z <- Lib.parse a b ;;
  tInfin <- isInfinite this ;;
  zInfin <- zInfinite z ;;
  if tInfin || zInfin then
    if tInfin && zInfin then ret Complex_NAN
    else ret Complex_INFINITY
  else
    tre <- get_num this "re" ;; tim <- get_num this "im" ;;
    zre <- znum z "re" ;; zim <- znum z "im" ;;
    new_Complex (tre + zre) (tim + zim).

(** lines 323-343 *)
Definition sub (this : loc) (a b : value) : M loc :=
  z <- Lib.parse a b ;;
  tInfin <- isInfinite this ;;
  zInfin <- zInfinite z ;;
  if tInfin || zInfin then
    if tInfin && zInfin then ret Complex_NAN
    else ret Complex_INFINITY
  else
    tre <- get_num this "re" ;; tim <- get_num this "im" ;;
    zre <- znum z "re" ;; zim <- znum z "im" ;;
    new_Complex (tre - zre) (tim - zim).

(** lines 350-377 *)
Definition mul (this : loc) (a b : value) : M loc :=
  z <- Lib.parse a b ;;
  tInfin <- isInfinite this ;;
  zInfin <- zInfinite z ;;
  tZero <- tIsZero this ;;
  zZero <- zIsZero z ;;
  if tInfin && zZero || zInfin && tZero then ret Complex_NAN
  else if tInfin || zInfin then ret Complex_INFINITY
  else
    tre <- get_num this "re" ;; tim <- get_num this "im" ;;
    zre <- znum z "re" ;; zim <- znum z "im" ;;
    if (zim =? 0) && (tim =? 0) then new_Complex (tre * zre) 0
    else new_Complex (tre * zre - tim * zim) (tre * zim + tim * zre).

(** lines 384-431 *)
Definition div (this : loc) (a b : value) : M loc :=
  z <- Lib.parse a b ;;
  tInfin <- isInfinite this ;;
  zInfin <- zInfinite z ;;
  tZero <- tIsZero this ;;
  zZero <- zIsZero z ;;
  if tZero && zZero || tInfin && zInfin then ret Complex_NAN
  else if zZero || tInfin then ret Complex_INFINITY
  else if tZero || zInfin then ret Complex_ZERO
  else
    tre <- get_num this "re" ;; tim <- get_num this "im" ;;
    zre <- znum z "re" ;; zim <- znum z "im" ;;
    if 0 =? zim then new_Complex (tre / zre) (tim / zre)
    else if Math_abs zre <? Math_abs zim then
      let x := zre / zim in
      let t := zre * x + zim in
      new_Complex ((tre * x + tim) / t) ((tim * x - tre) / t)
    else
      let x := zim / zre in
      let t := zim * x + zre in
      new_Complex ((tre + tim * x) / t) ((tim - tre * x) / t).

(** lines 438-502 *)
Definition pow (this : loc) (a b : value) : M loc :=
  z <- Lib.parse a b ;;
  tZero <- tIsZero this ;;
  zZero <- zIsZero z ;;
  if zZero then ret Complex_ONE
  else
    tre <- get_num this "re" ;; tim <- get_num this "im" ;;
    zre <- znum z "re" ;; zim <- znum z "im" ;;
    let general : M loc :=
      if tZero && (0 <? zre) then ret Complex_ZERO
      else
        let arg := Math_atan2 tim tre in
        let loh := Lib.logHypot tre tim in
        let re := Math_exp (zre * loh - zim * arg) in
        let im := zim * loh + zre * arg in
        new_Complex (re * Math_cos im) (re * Math_sin im) in
    if zim =? 0 then
      if (tim =? 0) && (0 <? tre) then new_Complex (Math_pow tre zre) 0
      else if tre =? 0 then
        let k := Number_remainder (Number_remainder zre 4 + 4) 4 in
        if k =? 0 then new_Complex (Math_pow tim zre) 0
        else if k =? 1 then new_Complex 0 (Math_pow tim zre)
        else if k =? 2 then new_Complex (- Math_pow tim zre) 0
        else if k =? 3 then new_Complex 0 (- Math_pow tim zre)
        else general
      else general
    else general.

(** lines 509-533 *)
Definition sqrt (this : loc) : M loc :=
  a <- get_num this "re" ;;
  b <- get_num this "im" ;;
  if b =? 0 then
    if 0 <=? a then new_Complex (Math_sqrt a) 0
    else new_Complex 0 (Math_sqrt (- a))
  else
    let r := Lib.hypot a b in
    let re := Math_sqrt (0.5 * (r + Math_abs a)) in
    let im := Math_abs b / (2 * re) in
    if 0 <=? a then new_Complex re (if b <? 0 then - im else im)
    else new_Complex im (if b <? 0 then - re else re).

(** lines 540-550 *)
Definition exp (this : loc) : M loc :=
  re <- get_num this "re" ;;
  im <- get_num this "im" ;;
  let er := Math_exp re in
  if im =? 0 then new_Complex er 0
  else new_Complex (er * Math_cos im) (er * Math_sin im).

(** lines 560-574 *)
Definition expm1 (this : loc) : M loc :=
  a <- get_num this "re" ;;
  b <- get_num this "im" ;;
  new_Complex (Math_expm1 a * Math_cos b + Lib.cosm1 b)
              (Math_exp a * Math_sin b).

(** lines 581-593 *)
Definition log (this : loc) : M loc :=
  a <- get_num this "re" ;;
  b <- get_num this "im" ;;
  if (b =? 0) && (0 <? a) then new_Complex (Math_log a) 0
  else new_Complex (Lib.logHypot a b) (Math_atan2 b a).

(** lines 600-603 *)
Definition abs (this : loc) : M float :=
  re <- get_num this "re" ;;
  im <- get_num this "im" ;;
  ret (Lib.hypot re im).

(** lines 610-613 *)
Definition arg (this : loc) : M float :=
  re <- get_num this "re" ;;
  im <- get_num this "im" ;;
  ret (Math_atan2 im re).

(** lines 620-631 *)
Definition sin (this : loc) : M loc :=
  a <- get_num this "re" ;;
  b <- get_num this "im" ;;
  new_Complex (Math_sin a * Lib.cosh b) (Math_cos a * Lib.sinh b).

(** lines 638-649 *)
Definition cos (this : loc) : M loc :=
  a <- get_num this "re" ;;
  b <- get_num this "im" ;;
  new_Complex (Math_cos a * Lib.cosh b) (- Math_sin a * Lib.sinh b).

(** lines 656-670 *)
Definition tan (this : loc) : M loc :=
  re <- get_num this "re" ;;
  im <- get_num this "im" ;;
  let a := 2 * re in
  let b := 2 * im in
  let d := Math_cos a + Lib.cosh b in
  new_Complex (Math_sin a / d) (Lib.sinh b / d).

(** lines 677-688 *)
Definition cot (this : loc) : M loc :=
  re <- get_num this "re" ;;
  im <- get_num this "im" ;;
  let a := 2 * re in
  let b := 2 * im in
  let d := Math_cos a - Lib.cosh b in
  new_Complex (- Math_sin a / d) (Lib.sinh b / d).

(** lines 695-706 *)
Definition sec (this : loc) : M loc :=
  a <- get_num this "re" ;;
  b <- get_num this "im" ;;
  let d := 0.5 * Lib.cosh (2 * b) + 0.5 * Math_cos (2 * a) in
  new_Complex (Math_cos a * Lib.cosh b / d) (Math_sin a * Lib.sinh b / d).

(** lines 713-724 *)
Definition csc (this : loc) : M loc :=
  a <- get_num this "re" ;;
  b <- get_num this "im" ;;
  let d := 0.5 * Lib.cosh (2 * b) - 0.5 * Math_cos (2 * a) in
  new_Complex (Math_sin a * Lib.cosh b / d) (- Math_cos a * Lib.sinh b / d).

(** lines 731-747 *)
Definition asin (this : loc) : M loc :=
  a <- get_num this "re" ;;
  b <- get_num this "im" ;;
  c1 <- new_Complex (b * b - a * a + 1) (-2 * a * b) ;;
  t1 <- sqrt c1 ;;
  t1re <- get_num t1 "re" ;; t1im <- get_num t1 "im" ;;
  c2 <- new_Complex (t1re - b) (t1im + a) ;;
  t2 <- log c2 ;;
  t2im <- get_num t2 "im" ;; t2re <- get_num t2 "re" ;;
  new_Complex t2im (- t2re).

(** lines 754-770 *)
Definition acos (this : loc) : M loc :=
  a <- get_num this "re" ;;
  b <- get_num this "im" ;;
  c1 <- new_Complex (b * b - a * a + 1) (-2 * a * b) ;;
  t1 <- sqrt c1 ;;
  t1re <- get_num t1 "re" ;; t1im <- get_num t1 "im" ;;
  c2 <- new_Complex (t1re - b) (t1im + a) ;;
  t2 <- log c2 ;;
  t2im <- get_num t2 "im" ;; t2re <- get_num t2 "re" ;;
  new_Complex (Math_PI / 2 - t2im) t2re.

(** lines 777-802 *)
Definition atan (this : loc) : M loc :=
  a <- get_num this "re" ;;
  b <- get_num this "im" ;;
  if (a =? 0) && (b =? 1) then new_Complex 0 infinity
  else if (a =? 0) && (b =? -1) then new_Complex 0 neg_infinity
  else
    let d := a * a + (1.0 - b) * (1.0 - b) in
    c1 <- new_Complex ((1 - b * b - a * a) / d) (-2 * a / d) ;;
    t1 <- log c1 ;;
    t1im <- get_num t1 "im" ;; t1re <- get_num t1 "re" ;;
    new_Complex (-0.5 * t1im) (0.5 * t1re).

(** The reciprocal argument shared by [acot], [asec], [acsc], [acoth],
    [acsch] and [asech]:
    [(d !== 0) ? new Complex(a / d, -b / d)
               : new Complex((a !== 0) ? a / 0 : 0, (b !== 0) ? -b / 0 : 0)] *)
Definition reciprocal (a b : float) : M loc :=
  let d := a * a + b * b in
  if negb (d =? 0) then new_Complex (a / d) (- b / d)
  else new_Complex (if negb (a =? 0) then a / 0 else 0)
                   (if negb (b =? 0) then - b / 0 else 0).

(** lines 809-828 *)
Definition acot (this : loc) : M loc :=
  a <- get_num this "re" ;;
  b <- get_num this "im" ;;
  if b =? 0 then new_Complex (Math_atan2 1 a) 0
  else c <- reciprocal a b ;; atan c.

(** lines 835-854 *)
Definition asec (this : loc) : M loc :=
  a <- get_num this "re" ;;
  b <- get_num this "im" ;;
  if (a =? 0) && (b =? 0) then new_Complex 0 infinity
  else c <- reciprocal a b ;; acos c.

(** lines 861-880 *)
Definition acsc (this : loc) : M loc :=
  a <- get_num this "re" ;;
  b <- get_num this "im" ;;
  if (a =? 0) && (b =? 0) then new_Complex (Math_PI / 2) infinity
  else c <- reciprocal a b ;; asin c.

(** lines 887-897 *)
Definition sinh (this : loc) : M loc :=
  a <- get_num this "re" ;;
  b <- get_num this "im" ;;
  new_Complex (Lib.sinh a * Math_cos b) (Lib.cosh a * Math_sin b).

(** lines 904-914 *)
Definition cosh (this : loc) : M loc :=
  a <- get_num this "re" ;;
  b <- get_num this "im" ;;
  new_Complex (Lib.cosh a * Math_cos b) (Lib.sinh a * Math_sin b).

(** lines 921-932 *)
Definition tanh (this : loc) : M loc :=
  re <- get_num this "re" ;;
  im <- get_num this "im" ;;
  let a := 2 * re in
  let b := 2 * im in
  let d := Lib.cosh a + Math_cos b in
  new_Complex (Lib.sinh a / d) (Math_sin b / d).

(** lines 939-950 *)
Definition coth (this : loc) : M loc :=
  re <- get_num this "re" ;;
  im <- get_num this "im" ;;
  let a := 2 * re in
  let b := 2 * im in
  let d := Lib.cosh a - Math_cos b in
  new_Complex (Lib.sinh a / d) (- Math_sin b / d).

(** lines 957-968 *)
Definition csch (this : loc) : M loc :=
  a <- get_num this "re" ;;
  b <- get_num this "im" ;;
  let d := Math_cos (2 * b) - Lib.cosh (2 * a) in
  new_Complex (-2 * Lib.sinh a * Math_cos b / d)
              (2 * Lib.cosh a * Math_sin b / d).

(** lines 975-986 *)
Definition sech (this : loc) : M loc :=
  a <- get_num this "re" ;;
  b <- get_num this "im" ;;
  let d := Math_cos (2 * b) + Lib.cosh (2 * a) in
  new_Complex (2 * Lib.cosh a * Math_cos b / d)
              (-2 * Lib.sinh a * Math_sin b / d).

(** lines 993-1020 *)
Definition asinh (this : loc) : M loc :=
  a <- get_num this "re" ;;
  b <- get_num this "im" ;;
  if b =? 0 then
    if a =? 0 then new_Complex 0 0
    else
      let x := Math_abs a in
      let r := Math_log (x + Math_sqrt (x * x + 1)) in
      new_Complex (if a <? 0 then - r else r) 0
  else
    let re2 := a * a - b * b + 1 in
    let im2 := 2 * a * b in
    c <- new_Complex re2 im2 ;;
    t <- sqrt c ;;
    tre <- get_num t "re" ;; tim <- get_num t "im" ;;
    c' <- new_Complex (a + tre) (b + tim) ;;
    log c'.

(** lines 1027-1061 *)
Definition acosh (this : loc) : M loc :=
  a <- get_num this "re" ;;
  b <- get_num this "im" ;;
  if b =? 0 then
    if 1 <? a then
      new_Complex (Math_log (a + Math_sqrt (a - 1) * Math_sqrt (a + 1))) 0
    else if a <? -1 then
      let t := Math_sqrt (a * a - 1) in
      new_Complex (Math_log (- a + t)) Math_PI
    else new_Complex 0 (Math_acos a)
  else
    c1 <- new_Complex (a - 1) b ;; t1 <- sqrt c1 ;;
    c2 <- new_Complex (a + 1) b ;; t2 <- sqrt c2 ;;
    t1re <- get_num t1 "re" ;; t2re <- get_num t2 "re" ;;
    t1im <- get_num t1 "im" ;; t2im <- get_num t2 "im" ;;
    c <- new_Complex (a + t1re * t2re - t1im * t2im)
                     (b + t1re * t2im + t1im * t2re) ;;
    log c.

(** lines 1068-1139 *)
Definition atanh (this : loc) : M loc :=
  a <- get_num this "re" ;;
  b <- get_num this "im" ;;
  if b =? 0 then
    if a =? 0 then new_Complex 0 0
    else if a =? 1 then new_Complex infinity 0
    else if a =? -1 then new_Complex neg_infinity 0
    else if (-1 <? a) && (a <? 1) then
      new_Complex (0.5 * Math_log ((1 + a) / (1 - a))) 0
    else if 1 <? a then
      let t := (a + 1) / (a - 1) in
      new_Complex (0.5 * Math_log t) (- Math_PI / 2)
    else
      let t := (1 + a) / (1 - a) in
      new_Complex (0.5 * Math_log (- t)) (Math_PI / 2)
  else
    let oneMinus := 1 - a in
    let onePlus := 1 + a in
    let d := oneMinus * oneMinus + b * b in
    if d =? 0 then
      new_Complex (if negb (a =? -1) then a / 0 else 0)
                  (if negb (b =? 0) then b / 0 else 0)
    else
      let xr := (onePlus * oneMinus - b * b) / d in
      let xi := (b * oneMinus + onePlus * b) / d in
      new_Complex (Lib.logHypot xr xi / 2) (Math_atan2 xi xr / 2).

(** lines 1146-1170 *)
Definition acoth (this : loc) : M loc :=
  a <- get_num this "re" ;;
  b <- get_num this "im" ;;
  if (a =? 0) && (b =? 0) then new_Complex 0 (Math_PI / 2)
  else c <- reciprocal a b ;; atanh c.

(** lines 1177-1211 *)
Definition acsch (this : loc) : M loc :=
  a <- get_num this "re" ;;
  b <- get_num this "im" ;;
  if b =? 0 then
    if a =? 0 then new_Complex infinity 0
    else
      let inv := 1 / a in
      new_Complex (Math_log (inv + Math_sqrt (inv * inv + 1))) 0
  else c <- reciprocal a b ;; asinh c.

(** lines 1218-1241 *)
Definition asech (this : loc) : M loc :=
  zero <- isZero this ;;
  if zero then ret Complex_INFINITY
  else
    a <- get_num this "re" ;;
    b <- get_num this "im" ;;
    c <- reciprocal a b ;; acosh c.

(** lines 1248-1265 *)
Definition inverse (this : loc) : M loc :=
  zero <- isZero this ;;
  if zero then ret Complex_INFINITY
  else
    inf <- isInfinite this ;;
    if inf then ret Complex_ZERO
    else
      a <- get_num this "re" ;;
      b <- get_num this "im" ;;
      let d := a * a + b * b in
      new_Complex (a / d) (- b / d).

(** lines 1272-1275: [new Complex(this['re'], -this['im'])] *)
Definition conjugate (this : loc) : M loc :=
  re <- get_prop this "re" ;;
  im <- get_num this "im" ;;
  Lib.Complex re (VNum (- im)).

(** lines 1282-1285 *)
Definition neg (this : loc) : M loc :=
  re <- get_num this "re" ;;
  im <- get_num this "im" ;;
  new_Complex (- re) (- im).

(** [Math.pow(10, places || 0)] *)
Definition scale (places : value) : M float :=
  p <- (if truthy places then num places else ret 0) ;;
  ret (Math_pow 10 p).

(** lines 1292-1299 *)
Definition ceil (this : loc) (places : value) : M loc :=
  places <- scale places ;;
  re <- get_num this "re" ;;
  im <- get_num this "im" ;;
  new_Complex (Math_ceil (re * places) / places)
              (Math_ceil (im * places) / places).

(** lines 1306-1313 *)
Definition floor (this : loc) (places : value) : M loc :=
  places <- scale places ;;
  re <- get_num this "re" ;;
  im <- get_num this "im" ;;
  new_Complex (Math_floor (re * places) / places)
              (Math_floor (im * places) / places).

(** lines 1320-1327 *)
Definition round (this : loc) (places : value) : M loc :=
  places <- scale places ;;
  re <- get_num this "re" ;;
  im <- get_num this "im" ;;
  new_Complex (Math_round (re * places) / places)
              (Math_round (im * places) / places).

(** lines 1336-1342 *)
Definition equals (this : loc) (a b : value) : M bool :=
  z <- Lib.parse a b ;;
  zre <- znum z "re" ;; tre <- get_num this "re" ;;
  zim <- znum z "im" ;; tim <- get_num this "im" ;;
  ret ((Math_abs (zre - tre) <=? Complex_EPSILON)
       && (Math_abs (zim - tim) <=? Complex_EPSILON)).

(** lines 1349-1352: [new Complex(this['re'], this['im'])] *)
Definition clone (this : loc) : M loc :=
  re <- get_prop this "re" ;;
  im <- get_prop this "im" ;;
  Lib.Complex re im.

(** What [toString] writes for the two Numbers left after the NaN and
    Infinity tests (lines 1373-1404). *)
Definition format (a b : float) : string :=
  let a := if Math_abs a <? Complex_EPSILON then 0 else a in
  let b := if Math_abs b <? Complex_EPSILON then 0 else b in
  if b =? 0 then ("" ++ Number_toString a)%string
  else
    let '(ret, b) :=
      if negb (a =? 0) then
        if b <? 0
        then (("" ++ Number_toString a ++ " " ++ "-" ++ " ")%string, - b)
        else (("" ++ Number_toString a ++ " " ++ "+" ++ " ")%string, b)
      else if b <? 0 then (("" ++ "-")%string, - b)
      else (""%string, b) in
    let ret := if negb (1 =? b) then (ret ++ Number_toString b)%string
               else ret in
    (ret ++ "i")%string.

(** lines 1359-1405 *)
Definition toString (this : loc) : M string :=
  nan <- isNaN this ;;
  if nan then ret "NaN"%string
  else
    inf <- isInfinite this ;;
    if inf then ret "Infinity"%string
    else
      a <- get_num this "re" ;;
      b <- get_num this "im" ;;
      ret (format a b).

(** lines 1412-1415: a new array [[this['re'], this['im']]].  Arrays are
    objects with index keys and a [length]; the members of
    [Array.prototype], which the library never asks for, are left out. *)
Definition toVector (this : loc) : M loc :=
  re <- get_prop this "re" ;;
  im <- get_prop this "im" ;;
  alloc (mkObject Object_prototype
           [("0"%string, re); ("1"%string, im); ("length"%string, VNum 2)]).

(** lines 1422-1428 *)
Definition valueOf (this : loc) : M value :=
  im <- get_prop this "im" ;;
  if strict_eq_num im 0 then get_prop this "re"
  else ret VNull.

Definition arg0 (args : list value) : value := nth 0 args VUndefined.
Definition arg1 (args : list value) : value := nth 1 args VUndefined.

Definition as_obj (m : M loc) : M value := l <- m ;; ret (VObj l).
Definition as_bool (m : M bool) : M value := b <- m ;; ret (VBool b).
Definition as_num (m : M float) : M value := x <- m ;; ret (VNum x).
Definition as_str (m : M string) : M value := s <- m ;; ret (VStr s).

Local Open Scope string_scope.

(** [this[name](...args)] for a Complex [this]: the public operations.
    A name that is no method is [undefined], and calling it a TypeError. *)
Definition call (name : string) (this : loc) (args : list value) : M value :=
  let a := arg0 args in
  let b := arg1 args in
  if String.eqb name "sign" then as_obj (sign this)
  else if String.eqb name "add" then as_obj (add this a b)
  else if String.eqb name "sub" then as_obj (sub this a b)
  else if String.eqb name "mul" then as_obj (mul this a b)
  else if String.eqb name "div" then as_obj (div this a b)
  else if String.eqb name "pow" then as_obj (pow this a b)
  else if String.eqb name "sqrt" then as_obj (sqrt this)
  else if String.eqb name "exp" then as_obj (exp this)
  else if String.eqb name "expm1" then as_obj (expm1 this)
  else if String.eqb name "log" then as_obj (log this)
  else if String.eqb name "abs" then as_num (abs this)
  else if String.eqb name "arg" then as_num (arg this)
  else if String.eqb name "sin" then as_obj (sin this)
  else if String.eqb name "cos" then as_obj (cos this)
  else if String.eqb name "tan" then as_obj (tan this)
  else if String.eqb name "cot" then as_obj (cot this)
  else if String.eqb name "sec" then as_obj (sec this)
  else if String.eqb name "csc" then as_obj (csc this)
  else if String.eqb name "asin" then as_obj (asin this)
  else if String.eqb name "acos" then as_obj (acos this)
  else if String.eqb name "atan" then as_obj (atan this)
  else if String.eqb name "acot" then as_obj (acot this)
  else if String.eqb name "asec" then as_obj (asec this)
  else if String.eqb name "acsc" then as_obj (acsc this)
  else if String.eqb name "sinh" then as_obj (sinh this)
  else if String.eqb name "cosh" then as_obj (cosh this)
  else if String.eqb name "tanh" then as_obj (tanh this)
  else if String.eqb name "coth" then as_obj (coth this)
  else if String.eqb name "csch" then as_obj (csch this)
  else if String.eqb name "sech" then as_obj (sech this)
  else if String.eqb name "asinh" then as_obj (asinh this)
  else if String.eqb name "acosh" then as_obj (acosh this)
  else if String.eqb name "atanh" then as_obj (atanh this)
  else if String.eqb name "acoth" then as_obj (acoth this)
  else if String.eqb name "acsch" then as_obj (acsch this)
  else if String.eqb name "asech" then as_obj (asech this)
  else if String.eqb name "inverse" then as_obj (inverse this)
  else if String.eqb name "conjugate" then as_obj (conjugate this)
  else if String.eqb name "neg" then as_obj (neg this)
  else if String.eqb name "ceil" then as_obj (ceil this a)
  else if String.eqb name "floor" then as_obj (floor this a)
  else if String.eqb name "round" then as_obj (round this a)
  else if String.eqb name "equals" then as_bool (equals this a b)
  else if String.eqb name "clone" then as_obj (clone this)
  else if String.eqb name "toString" then as_str (toString this)
  else if String.eqb name "toVector" then as_obj (toVector this)
  else if String.eqb name "valueOf" then valueOf this
  else if String.eqb name "isNaN" then as_bool (isNaN this)
  else if String.eqb name "isZero" then as_bool (isZero this)
  else if String.eqb name "isFinite" then as_bool (isFinite this)
  else if String.eqb name "isInfinite" then as_bool (isInfinite this)
  else throw "TypeError" "not a function".

End WithPlatform.

End prototype.

(* ================================================================= *)
(** ** Module initialisation (lines 140 and 1470-1476) *)

Section Init.

Context {host : Platform}.

(** [const P = { 're': 0, 'im': 0 }] and an empty heap. *)
Definition empty_store : store := mkStore (VNum 0) (VNum 0) [].

Definition make_constants : M unit :=
  (_ <- Lib.Complex (VNum 0) (VNum 0) ;;
   _ <- Lib.Complex (VNum 1) (VNum 0) ;;
   _ <- Lib.Complex (VNum 0) (VNum 1) ;;
   _ <- Lib.Complex (VNum Math_PI) (VNum 0) ;;
   _ <- Lib.Complex (VNum Math_E) (VNum 0) ;;
   _ <- Lib.Complex (VNum infinity) (VNum infinity) ;;
   _ <- Lib.Complex (VNum nan) (VNum nan) ;;
   ret tt)%js.

(** The store once the module is loaded. *)
Definition init_store : store := snd (make_constants empty_store).

End Init.

(** A host with an exact square root whose other approximated functions
    answer nothing useful (NaN, the identity, the empty string).  The
    statements below hold for every host; this one instantiates them
    at concrete inputs. *)
Definition bare_host : Platform := {|
  Math_cos := fun _ => nan;
  Math_sin := fun _ => nan;
  Math_atan2 := fun _ _ => nan;
  Math_log := fun _ => nan;
  Math_exp := fun _ => nan;
  Math_expm1 := fun _ => nan;
  Math_pow := fun _ _ => nan;
  Math_acos := fun _ => nan;
  Math_sqrt := PrimFloat.sqrt;
  Math_floor := fun x => x;
  Math_ceil := fun x => x;
  Math_round := fun x => x;
  Math_cosh := None;
  Math_sinh := None;
  Number_remainder := fun _ _ => nan;
  Number_toString := fun _ => EmptyString
|}.

(** The one-character text U+000C (form feed). *)
Definition form_feed : string := String "012"%char EmptyString.

(** The store of the loaded module on that host. *)
Definition bare_store : store := @init_store bare_host.

(* ================================================================= *)
(** ** Reading the store *)

(** [l[k]] in store [s], when [l] is allocated. *)
Definition field (s : store) (l : loc) (k : string) : option value :=
  match nth_error (heap s) l with
  | Some o => Some (get_property o k)
  | None => None
  end.

(** The object at [l] reads [re] and [im]. *)
Definition holds (s : store) (l : loc) (re im : value) : Prop :=
  field s l "re" = Some re /\ field s l "im" = Some im.

(** Values whose ToNumber is modelled: [undefined], [null], booleans,
    Numbers and strings. *)
Definition primitive (v : value) : bool :=
  match v with
  | VObj _ | VFunction | VBigInt _ | VSymbol _ => false
  | _ => true
  end.

(** The object [new Complex(re, im)] creates. *)
Definition complex_object (re im : value) : object :=
  mkObject Complex_prototype [("re"%string, re); ("im"%string, im)].

(** The same for what [parse] returned. *)
Definition zholds (s : store) (z : zref) (re im : value) : Prop :=
  match z with
  | ZP => P_re s = re /\ P_im s = im
  | ZObj l => holds s l re im
  end.

(** What [isZero], [isFinite] and [isInfinite] compute on Numbers. *)
Definition zero_pair (re im : float) : bool :=
  ((re =? 0) && (im =? 0))%float.

Definition finite_pair (re im : float) : bool :=
  is_finite re && is_finite im.

Definition infinite_pair (re im : float) : bool :=
  negb (finite_pair re im).

Definition nan_pair (re im : float) : bool :=
  is_nan re || is_nan im.

(** [|x - y| <= EPSILON], in binary64 arithmetic. *)
Definition close (x y : float) : bool :=
  (Math_abs (x - y) <=? Complex_EPSILON)%float.

(** A component within [EPSILON] of zero is snapped to [0]
    (lines 1373-1379). *)
Definition snap (x : float) : float :=
  if (Math_abs x <? Complex_EPSILON)%float then 0%float else x.

(** The imaginary magnitude as [toString] writes it: nothing when it is
    exactly [1] (line 1401). *)
Definition magnitude {host : Platform} (m : float) : string :=
  if (1 =? m)%float then EmptyString else Number_toString m.

(** The function [Math.atan2] approximates (ECMA-262, 21.3.2.8): the
    angle of the point [(x, y)], in [(-PI, PI]]. *)
Definition atan2R (y x : R) : R :=
  if Rlt_dec 0 x then atan (y / x)
  else if Rlt_dec x 0 then
    if Rle_dec 0 y then atan (y / x) + PI else atan (y / x) - PI
  else if Rlt_dec 0 y then PI / 2
  else if Rlt_dec y 0 then - PI / 2
  else 0.

(** [s'] still has the first [n] objects of [s], as they were. *)
Definition keeps (n : nat) (s s' : store) : Prop :=
  (n <= List.length (heap s'))%nat
  /\ firstn n (heap s') = firstn n (heap s).

(** From a store with at least [n] objects, [m] leaves the first [n] as
    they are and, when it returns, returns something in [Q]. *)
Definition frame {A} (n : nat) (m : M A) (Q : A -> Prop) : Prop :=
  forall s, (n <= List.length (heap s))%nat ->
    keeps n s (snd (m s))
    /\ match fst (m s) with Normal a => Q a | _ => True end.

(** The constants the methods return as they are. *)
Definition shared_constant (l : loc) : Prop :=
  l = Complex_ZERO \/ l = Complex_ONE
  \/ l = Complex_INFINITY \/ l = Complex_NAN.

(** An object created after the first [n], or a shared constant. *)
Definition new_or_constant (n : nat) (l : loc) : Prop :=
  (n <= l)%nat \/ shared_constant l.

Definition new_or_constant_value (n : nat) (v : value) : Prop :=
  match v with
  | VObj l => new_or_constant n l
  | _ => True
  end.

(* ================================================================= *)
(** ** The inputs the specification recognises (section 4.1)

    Written from the specification's words, to be compared with [parse]. *)

Module Grammar.

Local Open Scope string_scope.

(** "numeric literals (integer, decimal, or exponential notation)" *)
Definition is_numeric_literal (tok : string) : bool :=
  let (d1, r1) := Text.span_digits tok in
  if Text.is_empty d1 then
    match r1 with
    | String "." r =>
        let (d, r') := Text.span_digits r in
        negb (Text.is_empty d) && Text.is_empty r'
    | _ => false
    end
  else
    let r2 := snd (Text.opt_dot r1) in
    let (_, r3) := Text.span_digits r2 in
    match r3 with
    | EmptyString => true
    | String "e" r4 =>
        let r5 := snd (Text.opt_sign r4) in
        let (d3, r6) := Text.span_digits r5 in
        negb (Text.is_empty d3) && Text.is_empty r6
    | _ => false
    end.

(** The tokens of the grammar: white space (ignored), a sign, the
    imaginary unit, a number, anything else. *)
Inductive kind : Type := KBlank | KSign | KUnit | KNumber | KOther.

Definition kind_of (tok : string) : kind :=
  if String.eqb tok " " || String.eqb tok (String "009" EmptyString)
     || String.eqb tok (String "010" EmptyString) then KBlank
  else if String.eqb tok "+" || String.eqb tok "-" then KSign
  else if String.eqb tok "i" || String.eqb tok "I" then KUnit
  else if is_numeric_literal tok then KNumber
  else KOther.

Definition is_number (tok : string) : bool :=
  match kind_of tok with KNumber => true | _ => false end.

Definition is_unit (tok : string) : bool :=
  match kind_of tok with KUnit => true | _ => false end.

(** Whether the tokens from here on are well formed; [signed] says that
    a sign is pending, which the first term has implicitly.  A term needs
    a pending sign; an [i] takes a number that follows it at once, and a
    number an [i]; a sign left pending at the end is an error, and so is
    any other token. *)
Fixpoint accepts (tokens : list string) (signed : bool) : bool :=
  match tokens with
  | [] => negb signed
  | t :: rest =>
      match kind_of t with
      | KBlank => accepts rest signed
      | KSign => accepts rest true
      | KUnit =>
          signed &&
          match rest with
          | next :: rest' =>
              if is_number next then accepts rest' false
              else accepts rest false
          | [] => accepts rest false
          end
      | KNumber =>
          signed &&
          match rest with
          | next :: rest' =>
              if is_unit next then accepts rest' false
              else accepts rest false
          | [] => accepts rest false
          end
      | KOther => false
      end
  end.

(** Underscores are stripped, the text is cut into tokens, and there
    must be at least one. *)
Definition well_formed_text (a : string) : bool :=
  match Lexer.tokenize a with
  | Some tokens => accepts tokens true
  | None => false
  end.

Definition has_pair (o : object) (k1 k2 : string) : bool :=
  has_property o k1 && has_property o k2.

(** A keyed record with one of the key pairs, or a sequence of two. *)
Definition recognized_object (o : object) : bool :=
  has_pair o "re" "im" || has_pair o "abs" "arg" || has_pair o "r" "phi"
  || strict_eq_num (get_property o "length") 2.

(** The accepted forms, in the order of section 4.1. *)
Definition recognized (s : store) (a b : value) : bool :=
  if negb (is_undefined b) then true
  else
    match a with
    | VUndefined | VNull => true
    | VNum _ => true
    | VObj l =>
        match nth_error (heap s) l with
        | Some o => recognized_object o
        | None => false
        end
    | VStr t => well_formed_text t
    | VBool _ | VFunction | VBigInt _ | VSymbol _ => false
    end.

End Grammar.

(** Every code unit of [s] satisfies [p]. *)
Fixpoint all_chars (p : ascii -> bool) (s : string) : bool :=
  match s with
  | String c r => p c && all_chars p r
  | EmptyString => true
  end.

(** [s] is empty or starts with something that is no digit. *)
Definition starts_nondigit (s : string) : Prop :=
  match s with
  | String c _ => Text.is_digit c = false
  | EmptyString => True
  end.

(** The code units of a number token. *)
Definition number_char (c : ascii) : bool :=
  Text.is_digit c || Ascii.eqb c "." || Ascii.eqb c "e"
  || Ascii.eqb c "+" || Ascii.eqb c "-".

(** White space that the token loop does not skip: VT, FF and NBSP. *)
Definition stray_space (c : ascii) : bool :=
  let n := Text.code c in ((n =? 11) || (n =? 12) || (n =? 160))%N.

Fixpoint no_stray_space (s : string) : bool :=
  match s with
  | String c r => negb (stray_space c) && no_stray_space r
  | EmptyString => true
  end.

(** An argument that is an object is allocated; one that is a text has
    no stray white space. *)
Definition plain_argument (s : store) (a : value) : Prop :=
  match a with
  | VObj l => (l < List.length (heap s))%nat
  | VStr t => no_stray_space t = true
  | _ => True
  end.

(** A token the grammar calls "other" is one [isNaN] rejects. *)
Definition good_token (tok : string) : Prop :=
  Grammar.kind_of tok = Grammar.KOther -> Global.isNaN_string tok = true.

(** A computation that does not throw. *)
Definition no_throw {A} (m : M A) : Prop :=
  forall s e msg, fst (m s) <> Throw e msg.

Definition scan_done (r : Lib.scan_result) : bool :=
  match r with
  | Lib.ScanDone _ _ => true
  | Lib.ScanExit _ _ => false
  end.

Definition raises {A} (c : completion A) : Prop :=
  c = Throw "SyntaxError" "Invalid Param".

(** A computation that leaves the heap as it is (it may write [P]). *)
Definition heap_const {A} (m : M A) : Prop :=
  forall s, heap (snd (m s)) = heap s.


(* ================================================================= *)
(** ** Vocabulary of the further properties *)

(** [m] returns a new Complex that reads the Numbers [(x, y)]. *)
Definition creates (m : M loc) (s : store) (x y : float) : Prop :=
  exists s',
    m s = (Normal (List.length (heap s)), s')
    /\ holds s' (List.length (heap s)) (VNum x) (VNum y).

(** The array [toVector] creates. *)
Definition vector_object (re im : value) : object :=
  mkObject Object_prototype [("0", re); ("1", im); ("length", VNum 2)].

(** A computation that throws nothing but what [parser_exit] throws. *)
Definition throws_only_invalid_param {A} (m : M A) : Prop :=
  forall s e msg, fst (m s) = Throw e msg -> raises (fst (m s)).

(** The methods that hand an argument to [parse], or the receiver's
    fields as they are to the constructor. *)
Definition parsing_methods : list string :=
  [ "add"; "sub"; "mul"; "div"; "pow"; "equals"; "clone" ].

(** [+] or [-]. *)
Definition is_sign (c : ascii) : bool := Ascii.eqb c "+" || Ascii.eqb c "-".

(** The number of [-] in a text. *)
Fixpoint minus_count (s : string) : nat :=
  match s with
  | String c r => (if Ascii.eqb c "-" then 1 else 0) + minus_count r
  | EmptyString => 0
  end.

(** The code units of a text, each as a one-character token. *)
Fixpoint units (s : string) : list string :=
  match s with
  | String c r => Text.str1 c :: units r
  | EmptyString => []
  end.

(** What may follow a number token: nothing, or a code unit that is no
    digit, dot or [e]. *)
Definition term_end (r : string) : Prop :=
  match r with
  | String c _ => Text.is_digit c = false /\ c <> "."%char /\ c <> "e"%char
  | EmptyString => True
  end.

Definition no_underscore (c : ascii) : bool := negb (Ascii.eqb c "_").

(** A text without its line terminators. *)
Fixpoint remove_line_terminators (s : string) : string :=
  match s with
  | String c r =>
      if Text.is_line_terminator c then remove_line_terminators r
      else String c (remove_line_terminators r)
  | EmptyString => EmptyString
  end.

(** A term of a text in Cartesian form: a run of signs and then a
    number [x], a number and the unit [x i], the unit alone [i], or the
    unit and a number [i x]. *)
Inductive term : Type :=
| TReal (signs x : string)
| TImag (signs x : string)
| TUnit (signs : string)
| TUnitTimes (signs x : string).

Definition term_signs (t : term) : string :=
  match t with
  | TReal sg _ | TImag sg _ | TUnit sg | TUnitTimes sg _ => sg
  end.

Definition term_body (t : term) : list string :=
  match t with
  | TReal _ x => [x]
  | TImag _ x => [x; "i"]
  | TUnit _ => ["i"]
  | TUnitTimes _ x => ["i"; x]
  end.

Definition term_text (t : term) : string :=
  term_signs t ++ String.concat "" (term_body t).

Fixpoint terms_text (ts : list term) : string :=
  match ts with
  | t :: r => term_text t ++ terms_text r
  | [] => ""
  end.

(** The signs are signs and the number is a numeric literal. *)
Definition term_ok (t : term) : bool :=
  all_chars is_sign (term_signs t)
  && match t with
     | TReal _ x | TImag _ x | TUnitTimes _ x => Grammar.is_numeric_literal x
     | TUnit _ => true
     end.

Definition later_term_ok (t : term) : bool :=
  term_ok t && negb (Text.is_empty (term_signs t)).

(** Every term but the first starts with a sign. *)
Definition terms_ok (ts : list term) : bool :=
  match ts with
  | t :: r =>
      term_ok t && forallb later_term_ok r
  | [] => false
  end.

(** What a term adds to [(re, im)] after [minus] signs [-]:
    [parseFloat] of the number, or of [1] for the unit alone, with a [-]
    in front when [minus] is odd. *)
Definition body_value (t : term) (minus : nat) (z : float * float)
  : float * float :=
  let pre := Lib.sign_prefix minus in
  match t with
  | TReal _ x => ((fst z + Text.parseFloat (pre ++ x))%float, snd z)
  | TImag _ x | TUnitTimes _ x =>
      (fst z, (snd z + Text.parseFloat (pre ++ x))%float)
  | TUnit _ => (fst z, (snd z + Text.parseFloat (pre ++ "1"))%float)
  end.

Definition term_value (t : term) (z : float * float) : float * float :=
  body_value t (minus_count (term_signs t)) z.

(** The tokens of a term. *)
Definition term_tokens (t : term) : list string :=
  (units (term_signs t) ++ term_body t)%list.

(** A text that is empty or starts with a sign. *)
Definition sign_or_end (r : string) : Prop :=
  match r with
  | String c _ => is_sign c = true
  | EmptyString => True
  end.

Definition terms_value (ts : list term) : float * float :=
  fold_left (fun z t => term_value t z) ts (0%float, 0%float).

(** What follows a term in the token list: nothing, or a sign. *)
Definition sign_next (rest : list string) : Prop :=
  match rest with
  | next :: _ => exists c, next = Text.str1 c /\ is_sign c = true
  | [] => True
  end.


(** One step of a client of the library: a method call on a Complex, or
    a construction. *)
Inductive action : Type :=
| Call (name : string) (this : loc) (args : list value)
| New (a b : value).

(** The store after a step, however it ended. *)
Definition perform {host : Platform} (act : action) (s : store) : store :=
  match act with
  | Call name this args => snd (prototype.call name this args s)
  | New a b => snd (Lib.Complex a b s)
  end.

(** The store after a sequence of steps. *)
Definition run_actions {host : Platform} (acts : list action) (s : store)
  : store :=
  fold_left (fun s act => perform act s) acts s.


(** What a pattern gives on [s] followed by a space. *)
Definition snoc_rest (x : option (string * string))
  : option (string * string) :=
  match x with
  | Some (tok, rest) => Some (tok, rest ++ " ")
  | None => None
  end.

(* ================================================================= *)
(** ** Running the monad *)

Section Run.

Context {host : Platform}.

Lemma bind_Normal {A B} (m : M A) (k : A -> M B) s a s' :
  m s = (Normal a, s') -> bind m k s = k a s'.
Proof. intros E. unfold bind. now rewrite E. Qed.

Lemma get_prop_field s l k v :
  field s l k = Some v -> get_prop l k s = (Normal v, s).
Proof.
  unfold field, get_prop. destruct (nth_error (heap s) l); [|discriminate].
  now intros [= ->].
Qed.

Lemma field_heap s s' l k : heap s' = heap s -> field s' l k = field s l k.
Proof. unfold field. now intros ->. Qed.

Lemma holds_heap s s' l re im :
  heap s' = heap s -> holds s l re im -> holds s' l re im.
Proof.
  unfold holds. intros E [H1 H2]. now rewrite !(field_heap _ _ _ _ E).
Qed.

Lemma zget_re s z re im :
  zholds s z re im -> zget z "re" s = (Normal re, s).
Proof.
  destruct z; simpl.
  - now intros [-> _].
  - intros [H _]. now apply get_prop_field.
Qed.

Lemma zget_im s z re im :
  zholds s z re im -> zget z "im" s = (Normal im, s).
Proof.
  destruct z; simpl.
  - now intros [_ ->].
  - intros [_ H]. now apply get_prop_field.
Qed.

Lemma get_num_field s l k x :
  field s l k = Some (VNum x) -> get_num l k s = (Normal x, s).
Proof.
  intros H. unfold get_num. now rewrite (bind_Normal _ _ _ _ _ (get_prop_field _ _ _ _ H)).
Qed.

Lemma znum_re s z re im :
  zholds s z (VNum re) im -> prototype.znum z "re" s = (Normal re, s).
Proof.
  intros H. unfold prototype.znum.
  now rewrite (bind_Normal _ _ _ _ _ (zget_re _ _ _ _ H)).
Qed.

Lemma znum_im s z re im :
  zholds s z re (VNum im) -> prototype.znum z "im" s = (Normal im, s).
Proof.
  intros H. unfold prototype.znum.
  now rewrite (bind_Normal _ _ _ _ _ (zget_im _ _ _ _ H)).
Qed.

(** The classification methods on a receiver whose fields are Numbers. *)
Lemma isFinite_num s t re im :
  holds s t (VNum re) (VNum im) ->
  prototype.isFinite t s = (Normal (finite_pair re im), s).
Proof.
  intros [H1 H2]. unfold prototype.isFinite, andM, finite_pair.
  rewrite (bind_Normal _ _ s (is_finite re) s).
  - destruct (is_finite re); [|reflexivity].
    now rewrite (bind_Normal _ _ _ _ _ (get_prop_field _ _ _ _ H2)).
  - now rewrite (bind_Normal _ _ _ _ _ (get_prop_field _ _ _ _ H1)).
Qed.

Lemma isInfinite_num s t re im :
  holds s t (VNum re) (VNum im) ->
  prototype.isInfinite t s = (Normal (infinite_pair re im), s).
Proof.
  intros H. unfold prototype.isInfinite.
  now rewrite (bind_Normal _ _ _ _ _ (isFinite_num _ _ _ _ H)).
Qed.

Lemma isNaN_num s t re im :
  holds s t (VNum re) (VNum im) ->
  prototype.isNaN t s = (Normal (nan_pair re im), s).
Proof.
  intros [H1 H2]. unfold prototype.isNaN, orM, nan_pair.
  rewrite (bind_Normal _ _ s (is_nan re) s).
  - destruct (is_nan re); [reflexivity|].
    now rewrite (bind_Normal _ _ _ _ _ (get_prop_field _ _ _ _ H2)).
  - now rewrite (bind_Normal _ _ _ _ _ (get_prop_field _ _ _ _ H1)).
Qed.

Lemma isZero_num s t re im :
  holds s t (VNum re) (VNum im) ->
  prototype.isZero t s = (Normal (zero_pair re im), s).
Proof.
  intros [H1 H2]. unfold prototype.isZero, zero_pair.
  rewrite (bind_Normal _ _ _ _ _ (get_prop_field _ _ _ _ H2)).
  rewrite (bind_Normal _ _ _ _ _ (get_prop_field _ _ _ _ H1)).
  simpl. now rewrite andb_comm.
Qed.

Lemma tIsZero_num s t re im :
  holds s t (VNum re) (VNum im) ->
  prototype.tIsZero t s = (Normal (zero_pair re im), s).
Proof.
  intros [H1 H2]. unfold prototype.tIsZero, zero_pair.
  rewrite (bind_Normal _ _ _ _ _ (get_prop_field _ _ _ _ H1)).
  now rewrite (bind_Normal _ _ _ _ _ (get_prop_field _ _ _ _ H2)).
Qed.

Lemma zInfinite_num s z re im :
  zholds s z (VNum re) (VNum im) ->
  prototype.zInfinite z s = (Normal (infinite_pair re im), s).
Proof.
  intros H. unfold prototype.zInfinite, andM, infinite_pair, finite_pair.
  rewrite (bind_Normal _ _ s (is_finite re && is_finite im) s); [reflexivity|].
  rewrite (bind_Normal _ _ s (is_finite re) s).
  - destruct (is_finite re); [|reflexivity].
    now rewrite (bind_Normal _ _ _ _ _ (zget_im _ _ _ _ H)).
  - now rewrite (bind_Normal _ _ _ _ _ (zget_re _ _ _ _ H)).
Qed.

Lemma zIsZero_num s z re im :
  zholds s z (VNum re) (VNum im) ->
  prototype.zIsZero z s = (Normal (zero_pair re im), s).
Proof.
  intros H. unfold prototype.zIsZero, zero_pair.
  rewrite (bind_Normal _ _ _ _ _ (zget_re _ _ _ _ H)).
  now rewrite (bind_Normal _ _ _ _ _ (zget_im _ _ _ _ H)).
Qed.

End Run.

(* ================================================================= *)
(** ** [parse] writes [P] only *)

Section HeapConst.

Context {host : Platform}.

Lemma hc_ret {A} (a : A) : heap_const (ret a).
Proof. now intros s. Qed.

Lemma hc_throw {A} e msg : heap_const (@throw A e msg).
Proof. now intros s. Qed.

Lemma hc_unmodelled {A} : heap_const (@unmodelled A).
Proof. now intros s. Qed.

Lemma hc_bind {A B} (m : M A) (k : A -> M B) :
  heap_const m -> (forall a, heap_const (k a)) -> heap_const (bind m k).
Proof.
  intros Hm Hk s. unfold bind. specialize (Hm s).
  destruct (m s) as [[a| |] s1]; simpl in *; try assumption.
  now rewrite Hk.
Qed.

Lemma hc_get_prop l k : heap_const (get_prop l k).
Proof. intros s. unfold get_prop. now destruct (nth_error (heap s) l). Qed.

Lemma hc_has_prop l k : heap_const (has_prop l k).
Proof. intros s. unfold has_prop. now destruct (nth_error (heap s) l). Qed.

Lemma hc_set_P_re v : heap_const (set_P_re v).
Proof. now intros s. Qed.

Lemma hc_set_P_im v : heap_const (set_P_im v).
Proof. now intros s. Qed.

Lemma hc_num v : heap_const (num v).
Proof. destruct v; first [apply hc_ret | apply hc_unmodelled]. Qed.

Lemma hc_zget z k : heap_const (zget z k).
Proof. destruct z; [now intros s | apply hc_get_prop]. Qed.

Lemma hc_ToNumber v : heap_const (Global.ToNumber v).
Proof. destruct v; first [apply hc_ret | apply hc_unmodelled]. Qed.

Lemma hc_isNaN v : heap_const (Global.isNaN v).
Proof. apply hc_bind; [apply hc_ToNumber | intros; apply hc_ret]. Qed.

Lemma hc_isFinite v : heap_const (Global.isFinite v).
Proof. apply hc_bind; [apply hc_ToNumber | intros; apply hc_ret]. Qed.

Lemma hc_andM m1 m2 : heap_const m1 -> heap_const m2 -> heap_const (andM m1 m2).
Proof.
  intros H1 H2. apply hc_bind; [assumption|]. intros []; [assumption | apply hc_ret].
Qed.

Lemma hc_orM m1 m2 : heap_const m1 -> heap_const m2 -> heap_const (orM m1 m2).
Proof.
  intros H1 H2. apply hc_bind; [assumption|]. intros []; [apply hc_ret | assumption].
Qed.

Lemma hc_parser_exit {A} : heap_const (@Lib.parser_exit A).
Proof. apply hc_throw. Qed.

Create HintDb hc.

#[local] Hint Resolve hc_ret hc_throw hc_unmodelled hc_get_prop hc_has_prop
  hc_set_P_re hc_set_P_im hc_num hc_zget hc_ToNumber hc_isNaN hc_isFinite
  hc_parser_exit : hc.

Ltac hc_step :=
  match goal with
  | |- heap_const (bind _ _) => apply hc_bind; [|intros]
  | |- heap_const (andM _ _) => apply hc_andM
  | |- heap_const (orM _ _) => apply hc_orM
  | |- heap_const (if ?b then _ else _) => destruct b
  | |- heap_const (match ?x with _ => _ end) => destruct x
  | |- heap_const _ => solve [auto with hc]
  end.

Lemma hc_parse_return : heap_const Lib.parse_return.
Proof. unfold Lib.parse_return. repeat hc_step. Qed.

#[local] Hint Resolve hc_parse_return : hc.

Lemma hc_parse_polar abs arg : heap_const (Lib.parse_polar abs arg).
Proof. unfold Lib.parse_polar. repeat hc_step. Qed.

#[local] Hint Resolve hc_parse_polar : hc.

Lemma hc_parse_object l : heap_const (Lib.parse_object l).
Proof. unfold Lib.parse_object. repeat hc_step. Qed.

Lemma hc_parse_string a : heap_const (Lib.parse_string a).
Proof. unfold Lib.parse_string. repeat hc_step. Qed.

#[local] Hint Resolve hc_parse_object hc_parse_string : hc.

Lemma hc_parse a b : heap_const (Lib.parse a b).
Proof. unfold Lib.parse. repeat hc_step. Qed.

Lemma parse_heap a b s r s' : Lib.parse a b s = (r, s') -> heap s' = heap s.
Proof. intros E. generalize (hc_parse a b s). now rewrite E. Qed.

End HeapConst.

(* ================================================================= *)
(** ** [new Complex(x, y)] on two Numbers *)

Section NewComplex.

Context {host : Platform}.

Lemma nth_error_last {A} (l : list A) (x : A) :
  nth_error (l ++ [x]) (List.length l) = Some x.
Proof. induction l; simpl; auto. Qed.

Lemma list_update_last {A} (l : list A) (x y : A) :
  list_update (l ++ [x]) (List.length l) y = (l ++ [y])%list.
Proof. induction l; simpl; [reflexivity | now rewrite IHl]. Qed.

(** [isNaN(re) || isNaN(im)] on primitive values: no effect. *)
Lemma parse_return_primitive s :
  primitive (P_re s) = true -> primitive (P_im s) = true ->
  Lib.parse_return s = (Normal ZP, s).
Proof.
  unfold Lib.parse_return, orM, Global.isNaN, bind; simpl.
  destruct (P_re s), (P_im s); simpl; try discriminate; intros _ _;
    repeat match goal with |- context [if ?b then _ else _] => destruct b end;
    reflexivity.
Qed.

(** Two arguments, the first neither [undefined] nor [null], the second
    not [undefined] (lines 148-150). *)
Lemma parse_two_arguments a b s :
  is_undefined a || is_null a = false -> is_undefined b = false ->
  primitive a = true -> primitive b = true ->
  Lib.parse a b s = (Normal ZP, mkStore a b (heap s)).
Proof.
  intros Ha Hb Pa Pb. unfold Lib.parse. rewrite Ha, Hb. simpl.
  unfold bind at 1. simpl. unfold bind at 1. simpl.
  now rewrite parse_return_primitive.
Qed.

Lemma Complex_two_arguments a b s :
  is_undefined a || is_null a = false -> is_undefined b = false ->
  primitive a = true -> primitive b = true ->
  Lib.Complex a b s =
  (Normal (List.length (heap s)),
   mkStore a b (heap s ++ [complex_object a b])).
Proof.
  intros Ha Hb Pa Pb. unfold Lib.Complex, bind at 1, alloc.
  rewrite (bind_Normal _ _ _ _ _ (parse_two_arguments a b _ Ha Hb Pa Pb)).
  unfold bind, zget, set_prop; simpl. rewrite nth_error_last.
  simpl. rewrite list_update_last. simpl.
  rewrite nth_error_last. simpl. now rewrite list_update_last.
Qed.

Lemma new_Complex_run (x y : float) s :
  prototype.new_Complex x y s =
  (Normal (List.length (heap s)),
   mkStore (VNum x) (VNum y)
           (heap s ++ [complex_object (VNum x) (VNum y)])).
Proof. now apply Complex_two_arguments. Qed.

Lemma holds_new s (x y : value) :
  holds (mkStore x y (heap s ++ [complex_object x y]))
        (List.length (heap s)) x y.
Proof.
  unfold holds, field; simpl. now rewrite nth_error_last.
Qed.

End NewComplex.

(* ================================================================= *)
(** ** Pole arithmetic: [div], [add], [sub], [pow] *)

Section Poles.

Context {host : Platform}.

Ltac run H := rewrite (bind_Normal _ _ _ _ _ H).

(** The receiver's fields once [parse] has run. *)
Lemma holds_after_parse a b s r s1 t re im :
  Lib.parse a b s = (r, s1) -> holds s t re im -> holds s1 t re im.
Proof. intros E. apply holds_heap. exact (parse_heap _ _ _ _ _ E). Qed.

(** C1.  [t.div(a, b)], for a receiver [t] that reads the Numbers
    [(tre, tim)] and an operand that [parse] turns into the Numbers
    [(zre, zim)].  "Zero" is [re === 0 && im === 0] and "infinite" is what
    [isInfinite] answers (lemmas [isZero_num], [isInfinite_num],
    [zInfinite_num]).  If both are zero or both infinite the result is the
    object [Complex.NAN]; otherwise, if the operand is zero or the receiver
    infinite, it is [Complex.INFINITY]; otherwise, if the receiver is zero
    or the operand infinite, it is [Complex.ZERO]; otherwise, if
    [zim === 0], it is a new Complex reading [(tre / zre, tim / zre)]. *)
Theorem div_poles s t a b z s1 tre tim zre zim :
  holds s t (VNum tre) (VNum tim) ->
  Lib.parse a b s = (Normal z, s1) ->
  zholds s1 z (VNum zre) (VNum zim) ->
  let tZero := zero_pair tre tim in
  let zZero := zero_pair zre zim in
  let tInfin := infinite_pair tre tim in
  let zInfin := infinite_pair zre zim in
  (tZero && zZero || tInfin && zInfin = true ->
   prototype.div t a b s = (Normal Complex_NAN, s1))
  /\ (tZero && zZero || tInfin && zInfin = false ->
      zZero || tInfin = true ->
      prototype.div t a b s = (Normal Complex_INFINITY, s1))
  /\ (tZero && zZero || tInfin && zInfin = false ->
      zZero || tInfin = false ->
      tZero || zInfin = true ->
      prototype.div t a b s = (Normal Complex_ZERO, s1))
  /\ (tZero && zZero || tInfin && zInfin = false ->
      zZero || tInfin = false ->
      tZero || zInfin = false ->
      (0 =? zim)%float = true ->
      exists l s2,
        prototype.div t a b s = (Normal l, s2)
        /\ l = List.length (heap s)
        /\ holds s2 l (VNum (tre / zre)%float) (VNum (tim / zre)%float)).
Proof.
  intros Ht Hp Hz tZero zZero tInfin zInfin.
  pose proof (holds_after_parse _ _ _ _ _ _ _ _ Hp Ht) as Ht1.
  assert (E : prototype.div t a b s =
    (if tZero && zZero || tInfin && zInfin then ret Complex_NAN
     else if zZero || tInfin then ret Complex_INFINITY
     else if tZero || zInfin then ret Complex_ZERO
     else if (0 =? zim)%float
          then prototype.new_Complex (tre / zre) (tim / zre)
          else if (Math_abs zre <? Math_abs zim)%float then
            let x := (zre / zim)%float in
            let t' := (zre * x + zim)%float in
            prototype.new_Complex ((tre * x + tim) / t') ((tim * x - tre) / t')
          else
            let x := (zim / zre)%float in
            let t' := (zim * x + zre)%float in
            prototype.new_Complex ((tre + tim * x) / t') ((tim - tre * x) / t'))
    s1).
  { unfold prototype.div. run Hp.
    run (isInfinite_num _ _ _ _ Ht1). run (zInfinite_num _ _ _ _ Hz).
    run (tIsZero_num _ _ _ _ Ht1). run (zIsZero_num _ _ _ _ Hz).
    fold tZero zZero tInfin zInfin.
    destruct (tZero && zZero || tInfin && zInfin); [reflexivity|].
    destruct (zZero || tInfin); [reflexivity|].
    destruct (tZero || zInfin); [reflexivity|].
    destruct Ht1 as [Hr Hi].
    run (get_num_field _ _ _ _ Hr). run (get_num_field _ _ _ _ Hi).
    run (znum_re _ _ _ _ Hz). run (znum_im _ _ _ _ Hz).
    reflexivity. }
  rewrite E. repeat split.
  - now intros ->.
  - now intros -> ->.
  - now intros -> -> ->.
  - intros -> -> -> ->. rewrite new_Complex_run.
    eexists _, _. split; [reflexivity|]. split.
    + now rewrite (parse_heap _ _ _ _ _ Hp).
    + apply holds_new.
Qed.

(** C10.  A finite receiver plus (or minus) an operand with a NaN
    component is the object [Complex.INFINITY], which is not
    [Complex.NAN]: the operand's test
    [!(isFinite(z['re']) && isFinite(z['im']))] holds of NaN too. *)
Theorem add_sub_nan_operand s t a b z s1 tre tim zre zim :
  holds s t (VNum tre) (VNum tim) ->
  finite_pair tre tim = true ->
  Lib.parse a b s = (Normal z, s1) ->
  zholds s1 z (VNum zre) (VNum zim) ->
  nan_pair zre zim = true ->
  prototype.add t a b s = (Normal Complex_INFINITY, s1)
  /\ prototype.sub t a b s = (Normal Complex_INFINITY, s1)
  /\ Complex_INFINITY <> Complex_NAN.
Proof.
  intros Ht Hfin Hp Hz Hnan.
  pose proof (holds_after_parse _ _ _ _ _ _ _ _ Hp Ht) as Ht1.
  assert (Hzi : infinite_pair zre zim = true).
  { unfold infinite_pair, finite_pair, is_finite, nan_pair in *.
    destruct (is_nan zre), (is_nan zim); try discriminate; simpl;
      now rewrite ?andb_false_r. }
  assert (Hti : infinite_pair tre tim = false).
  { unfold infinite_pair. now rewrite Hfin. }
  repeat split.
  - unfold prototype.add. run Hp.
    run (isInfinite_num _ _ _ _ Ht1). run (zInfinite_num _ _ _ _ Hz).
    now rewrite Hzi, Hti.
  - unfold prototype.sub. run Hp.
    run (isInfinite_num _ _ _ _ Ht1). run (zInfinite_num _ _ _ _ Hz).
    now rewrite Hzi, Hti.
  - discriminate.
Qed.

(** C4.  [t.pow(a, b)] is the object [Complex.ONE] whenever the operand
    parses to [(zre, zim)] with [zre === 0] and [zim === 0] (either zero
    of either sign), whatever the receiver holds. *)
Theorem pow_zero_exponent s t a b z s1 tre tim zre zim :
  holds s t tre tim ->
  Lib.parse a b s = (Normal z, s1) ->
  zholds s1 z (VNum zre) (VNum zim) ->
  zero_pair zre zim = true ->
  prototype.pow t a b s = (Normal Complex_ONE, s1).
Proof.
  intros Ht Hp Hz Hzero.
  pose proof (holds_after_parse _ _ _ _ _ _ _ _ Hp Ht) as [Hr Hi].
  unfold prototype.pow. run Hp.
  unfold prototype.tIsZero.
  rewrite (bind_Normal _ _ s1 (strict_eq_num tre 0 && strict_eq_num tim 0) s1).
  - run (zIsZero_num _ _ _ _ Hz). now rewrite Hzero.
  - run (get_prop_field _ _ _ _ Hr). now run (get_prop_field _ _ _ _ Hi).
Qed.

End Poles.

(* ================================================================= *)
(** ** Facts about binary64 arithmetic *)

Section FloatFacts.

Lemma SFabs_binary_round_aux s m e l :
  SFabs (binary_round_aux prec emax s m e l)
  = SFabs (binary_round_aux prec emax (negb s) m e l).
Proof.
  unfold binary_round_aux.
  destruct (shr_fexp prec emax m e l) as [mrs' e'].
  destruct (shr_fexp prec emax _ e' loc_Exact) as [mrs'' e''].
  destruct (shr_m mrs''); try reflexivity.
  now destruct (Z.leb e'' (emax - prec)).
Qed.

Lemma SFabs_binary_round s m e :
  SFabs (binary_round prec emax s m e)
  = SFabs (binary_round prec emax (negb s) m e).
Proof.
  unfold binary_round. destruct (shl_align m e _).
  apply SFabs_binary_round_aux.
Qed.

Lemma SFabs_binary_normalize_opp m e :
  SFabs (binary_normalize prec emax m e false)
  = SFabs (binary_normalize prec emax (- m) e false).
Proof.
  destruct m; simpl; try reflexivity.
  - apply (SFabs_binary_round false).
  - apply (SFabs_binary_round true).
Qed.

(** [|x - y| = |y - x|], bit for bit. *)
Lemma SFabs_SFsub_comm x y :
  SFabs (SF64sub x y) = SFabs (SF64sub y x).
Proof.
  unfold SF64sub.
  destruct x as [sx|sx| |sx mx ex], y as [sy|sy| |sy my ey];
    try reflexivity;
    try (destruct sx, sy; reflexivity).
  unfold SFsub. rewrite (Z.min_comm ey ex).
  rewrite SFabs_binary_normalize_opp. f_equal. f_equal. ring.
Qed.

Lemma abs_sub_comm (x y : float) :
  PrimFloat.abs (x - y) = PrimFloat.abs (y - x).
Proof.
  apply Prim2SF_inj. rewrite !abs_spec, !sub_spec. apply SFabs_SFsub_comm.
Qed.

(** The shape of a finite number. *)
Lemma is_finite_SF x :
  is_finite x = true ->
  (exists s, Prim2SF x = S754_zero s)
  \/ (exists s m e, Prim2SF x = S754_finite s m e).
Proof.
  unfold is_finite, is_nan, is_infinity.
  rewrite !eqb_spec, abs_spec.
  change (Prim2SF infinity) with (S754_infinity false).
  destruct (Prim2SF x) as [s|s| |s m e]; simpl.
  - left. now exists s.
  - destruct s; discriminate.
  - discriminate.
  - right. now exists s, m, e.
Qed.

(** A finite number minus itself is [+0]. *)
Lemma sub_diag_finite x :
  is_finite x = true -> Prim2SF (x - x) = S754_zero false.
Proof.
  intros H. rewrite sub_spec. unfold SF64sub.
  destruct (is_finite_SF x H) as [[s ->] | (s & m & e & ->)].
  - now destruct s.
  - unfold SFsub. now rewrite Z.sub_diag.
Qed.

Lemma close_refl x :
  is_finite x = true ->
  (PrimFloat.abs (x - x) <=? Complex_EPSILON)%float = true.
Proof.
  intros H. rewrite leb_spec, abs_spec, (sub_diag_finite x H).
  reflexivity.
Qed.

End FloatFacts.

(* ================================================================= *)
(** ** Classification *)

Section Classification.

Context {host : Platform}.

(** C2, as the code has it.  [isInfinite] is the negation of [isFinite]:
    on a receiver that reads the Numbers [(re, im)] it answers [true]
    exactly when some component is NaN or an infinity; a NaN component
    does not exclude it. *)
Theorem isInfinite_iff_not_finite s t re im :
  holds s t (VNum re) (VNum im) ->
  exists b,
    prototype.isInfinite t s = (Normal b, s)
    /\ prototype.isFinite t s = (Normal (negb b), s)
    /\ (b = true <->
        is_nan re || is_infinity re || (is_nan im || is_infinity im) = true).
Proof.
  intros H. exists (infinite_pair re im). split; [|split].
  - now apply isInfinite_num.
  - rewrite (isFinite_num _ _ _ _ H). unfold infinite_pair.
    now rewrite negb_involutive.
  - unfold infinite_pair, finite_pair, is_finite.
    rewrite <- negb_orb, negb_involutive. reflexivity.
Qed.

End Classification.

(* ================================================================= *)
(** ** [equals] *)

Section Equals.

Context {host : Platform}.

Ltac run H := rewrite (bind_Normal _ _ _ _ _ H).

Lemma has_property_num o k x :
  get_property o k = VNum x -> has_property o k = true.
Proof.
  unfold get_property, has_property.
  destruct (assoc k (own o)); [reflexivity|].
  destruct (proto_get (proto o) k); [reflexivity | discriminate].
Qed.

Lemma has_prop_num s l k x :
  field s l k = Some (VNum x) -> has_prop l k s = (Normal true, s).
Proof.
  unfold field, has_prop. destruct (nth_error (heap s) l); [|discriminate].
  intros [= H]. now rewrite (has_property_num _ _ _ H).
Qed.

(** A Complex (or any object reading two Numbers) as the operand
    (lines 156-158). *)
Lemma parse_complex_operand s l re im :
  holds s l (VNum re) (VNum im) ->
  Lib.parse (VObj l) VUndefined s =
  (Normal ZP, mkStore (VNum re) (VNum im) (heap s)).
Proof.
  intros [Hr Hi]. unfold Lib.parse; simpl. unfold Lib.parse_object, andM.
  rewrite (bind_Normal _ _ s true s).
  - run (get_prop_field _ _ _ _ Hr). unfold bind at 1; simpl.
    rewrite (bind_Normal _ _ _ (VNum im) (mkStore (VNum re) (P_im s) (heap s))).
    + unfold bind at 1; simpl. now rewrite parse_return_primitive.
    + now apply get_prop_field.
  - run (has_prop_num _ _ _ _ Hi). now rewrite (has_prop_num _ _ _ _ Hr).
Qed.

(** [equals] on Numbers: both components within [Complex_EPSILON]. *)
Lemma equals_run s t a b z s1 tre tim zre zim :
  holds s t (VNum tre) (VNum tim) ->
  Lib.parse a b s = (Normal z, s1) ->
  zholds s1 z (VNum zre) (VNum zim) ->
  prototype.equals t a b s = (Normal (close tre zre && close tim zim), s1).
Proof.
  intros Ht Hp Hz.
  pose proof (holds_heap s s1 _ _ _ (parse_heap _ _ _ _ _ Hp) Ht) as [Hr Hi].
  unfold prototype.equals. run Hp.
  run (znum_re _ _ _ _ Hz). run (get_num_field _ _ _ _ Hr).
  run (znum_im _ _ _ _ Hz). run (get_num_field _ _ _ _ Hi).
  unfold close, Math_abs, ret.
  now rewrite (abs_sub_comm zre tre), (abs_sub_comm zim tim).
Qed.

Lemma equals_object s t u tre tim ure uim :
  holds s t (VNum tre) (VNum tim) ->
  holds s u (VNum ure) (VNum uim) ->
  fst (prototype.equals t (VObj u) VUndefined s)
  = Normal (close tre ure && close tim uim).
Proof.
  intros Ht Hu.
  rewrite (equals_run s t _ _ ZP _ tre tim ure uim Ht
             (parse_complex_operand _ _ _ _ Hu)); [reflexivity|].
  now split.
Qed.

(** C5.  [t.equals(a, b)] is [true] exactly when both components differ
    by at most [Complex.EPSILON = 1e-15] in absolute value (binary64
    subtraction); hence a finite value equals itself, the answer is the
    same with receiver and operand exchanged, and
    [Complex.INFINITY.equals(Complex.INFINITY)] is [false]. *)
Theorem equals_tolerance :
  (forall s t a b z s1 tre tim zre zim,
      holds s t (VNum tre) (VNum tim) ->
      Lib.parse a b s = (Normal z, s1) ->
      zholds s1 z (VNum zre) (VNum zim) ->
      prototype.equals t a b s
      = (Normal ((PrimFloat.abs (tre - zre) <=? 1e-15)
                 && (PrimFloat.abs (tim - zim) <=? 1e-15))%float, s1))
  /\ (forall s t re im,
         holds s t (VNum re) (VNum im) ->
         finite_pair re im = true ->
         fst (prototype.equals t (VObj t) VUndefined s) = Normal true)
  /\ (forall s t u tre tim ure uim,
         holds s t (VNum tre) (VNum tim) ->
         holds s u (VNum ure) (VNum uim) ->
         fst (prototype.equals t (VObj u) VUndefined s)
         = fst (prototype.equals u (VObj t) VUndefined s))
  /\ (forall s,
         holds s Complex_INFINITY (VNum infinity) (VNum infinity) ->
         fst (prototype.equals Complex_INFINITY (VObj Complex_INFINITY)
                               VUndefined s) = Normal false).
Proof.
  repeat split.
  - intros. now apply equals_run with (z := z).
  - intros s t re im H Hfin. rewrite (equals_object _ _ _ _ _ _ _ H H).
    unfold finite_pair in Hfin. apply andb_prop in Hfin as [Hr Hi].
    unfold close, Math_abs. now rewrite !close_refl.
  - intros s t u tre tim ure uim Ht Hu.
    rewrite (equals_object _ _ _ _ _ _ _ Ht Hu).
    rewrite (equals_object _ _ _ _ _ _ _ Hu Ht).
    unfold close, Math_abs.
    now rewrite (abs_sub_comm tre ure), (abs_sub_comm tim uim).
  - intros s H. now rewrite (equals_object _ _ _ _ _ _ _ H H).
Qed.

End Equals.

(* ================================================================= *)
(** ** [toString] *)

Section ToString.

Context {host : Platform}.

Ltac run H := rewrite (bind_Normal _ _ _ _ _ H).

Lemma append_assoc (x y z : string) :
  ((x ++ y) ++ z = x ++ (y ++ z))%string.
Proof. induction x; simpl; [reflexivity | now rewrite IHx]. Qed.

Lemma toString_run s t a b :
  holds s t (VNum a) (VNum b) ->
  prototype.toString t s =
  (Normal (if nan_pair a b then "NaN"
           else if infinite_pair a b then "Infinity"
           else prototype.format a b)%string, s).
Proof.
  intros H. unfold prototype.toString.
  run (isNaN_num _ _ _ _ H). destruct (nan_pair a b); [reflexivity|].
  run (isInfinite_num _ _ _ _ H). destruct (infinite_pair a b); [reflexivity|].
  destruct H as [Hr Hi].
  run (get_num_field _ _ _ _ Hr). now run (get_num_field _ _ _ _ Hi).
Qed.

(** C6.  [toString] of a receiver that reads the Numbers [(a, b)]:
    ["NaN"] when a component is NaN; otherwise ["Infinity"] when the value
    is infinite; otherwise, with [a'] and [b'] the components snapped to
    [0] when within [EPSILON] of it: [a'] alone when [b' === 0]; else,
    when [a'] is not zero, [a'], a sign token [" - "] or [" + "] and the
    magnitude of [b'] (negated when negative, omitted when exactly [1])
    before ["i"]; else, when [a'] is zero, the same without the real part,
    the sign being a bare ["-"] for a negative [b'] and absent
    otherwise. *)
Theorem toString_layout s t a b :
  holds s t (VNum a) (VNum b) ->
  let a' := snap a in
  let b' := snap b in
  (nan_pair a b = true -> prototype.toString t s = (Normal "NaN"%string, s))
  /\ (nan_pair a b = false -> infinite_pair a b = true ->
      prototype.toString t s = (Normal "Infinity"%string, s))
  /\ (nan_pair a b = false -> infinite_pair a b = false ->
      ((b' =? 0)%float = true ->
       prototype.toString t s = (Normal (Number_toString a'), s))
      /\ ((b' =? 0)%float = false -> (a' =? 0)%float = false ->
          (b' <? 0)%float = true ->
          prototype.toString t s =
          (Normal (Number_toString a' ++ " - "
                   ++ magnitude (- b')%float ++ "i")%string, s))
      /\ ((b' =? 0)%float = false -> (a' =? 0)%float = false ->
          (b' <? 0)%float = false ->
          prototype.toString t s =
          (Normal (Number_toString a' ++ " + "
                   ++ magnitude b' ++ "i")%string, s))
      /\ ((b' =? 0)%float = false -> (a' =? 0)%float = true ->
          (b' <? 0)%float = true ->
          prototype.toString t s =
          (Normal ("-" ++ magnitude (- b')%float ++ "i")%string, s))
      /\ ((b' =? 0)%float = false -> (a' =? 0)%float = true ->
          (b' <? 0)%float = false ->
          prototype.toString t s =
          (Normal (magnitude b' ++ "i")%string, s))).
Proof.
  intros H a' b'. rewrite (toString_run _ _ _ _ H).
  split; [now intros ->|]. split; [now intros -> ->|].
  intros -> ->. unfold prototype.format. fold (snap a) (snap b).
  fold a' b'. unfold magnitude.
  repeat split.
  - now intros ->.
  - intros -> -> ->. simpl. destruct (1 =? - b')%float; simpl;
      now rewrite ?append_assoc.
  - intros -> -> ->. simpl. destruct (1 =? b')%float; simpl;
      now rewrite ?append_assoc.
  - intros -> -> ->. simpl. now destruct (1 =? - b')%float.
  - intros -> -> ->. simpl. now destruct (1 =? b')%float.
Qed.

End ToString.

(* ================================================================= *)
(** ** [acot] on the real axis *)

Section Acot.

Context {host : Platform}.

Local Open Scope R_scope.

Lemma atan_pos x : 0 < x -> 0 < atan x.
Proof. intros H. rewrite <- atan_0. now apply atan_increasing. Qed.

Lemma atan_neg x : x < 0 -> atan x < 0.
Proof. intros H. rewrite <- atan_0. now apply atan_increasing. Qed.

Lemma atan2R_1_range x : 0 < atan2R 1 x < PI.
Proof.
  unfold atan2R. pose proof PI_RGT_0 as Hpi.
  destruct (Rlt_dec 0 x) as [Hx|Hx].
  - assert (0 < 1 / x) by (apply Rdiv_lt_0_compat; lra).
    pose proof (atan_pos _ H). pose proof (atan_bound (1 / x)). lra.
  - destruct (Rlt_dec x 0) as [Hx'|Hx'].
    + destruct (Rle_dec 0 1) as [_|N]; [|lra].
      assert (1 / x < 0).
      { unfold Rdiv. rewrite Rmult_1_l. now apply Rinv_lt_0_compat. }
      pose proof (atan_neg _ H). pose proof (atan_bound (1 / x)). lra.
    + destruct (Rlt_dec 0 1) as [_|N]; lra.
Qed.

Lemma atan2R_1_1 : atan2R 1 1 = PI / 4.
Proof.
  unfold atan2R. destruct (Rlt_dec 0 1) as [_|N]; [|lra].
  replace (1 / 1) with 1 by field. apply atan_1.
Qed.

Lemma atan2R_1_0 : atan2R 1 0 = PI / 2.
Proof.
  unfold atan2R. destruct (Rlt_dec 0 0) as [N|_]; [lra|].
  destruct (Rlt_dec 0 1) as [_|N]; [reflexivity | lra].
Qed.

Lemma atan2R_1_m1 : atan2R 1 (-1) = 3 * PI / 4.
Proof.
  unfold atan2R. destruct (Rlt_dec 0 (-1)) as [N|_]; [lra|].
  destruct (Rlt_dec (-1) 0) as [_|N]; [|lra].
  destruct (Rle_dec 0 1) as [_|N]; [|lra].
  replace (1 / -1) with (Ropp 1) by field. rewrite atan_opp, atan_1. field.
Qed.

Local Close Scope R_scope.

Ltac run H := rewrite (bind_Normal _ _ _ _ _ H).

(** C8.  On a receiver with [im === 0] that reads the Numbers [(re, im)],
    [acot] returns a new Complex reading [(Math.atan2(1, re), 0)]; so
    [acot(1)], [acot(0)] and [acot(-1)] have the real parts
    [Math.atan2(1, 1)], [Math.atan2(1, 0)] and [Math.atan2(1, -1)].  The
    function [Math.atan2] approximates takes [(1, x)] into [(0, PI)] for
    every real [x], with the values [PI/4], [PI/2] and [3 PI/4] at
    [x = 1, 0, -1]. *)
Theorem acot_real_axis :
  (forall s t re im,
      holds s t (VNum re) (VNum im) ->
      (im =? 0)%float = true ->
      exists l s',
        prototype.acot t s = (Normal l, s')
        /\ l = List.length (heap s)
        /\ holds s' l (VNum (Math_atan2 1 re)) (VNum 0))
  /\ (forall x : R, (0 < atan2R 1 x < PI)%R)
  /\ atan2R 1 1 = (PI / 4)%R
  /\ atan2R 1 0 = (PI / 2)%R
  /\ atan2R 1 (-1) = (3 * PI / 4)%R.
Proof.
  split; [|split; [exact atan2R_1_range|
           split; [exact atan2R_1_1|split; [exact atan2R_1_0|exact atan2R_1_m1]]]].
  intros s t re im [Hr Hi] Him. unfold prototype.acot.
  run (get_num_field _ _ _ _ Hr). run (get_num_field _ _ _ _ Hi).
  rewrite Him, new_Complex_run. eexists _, _.
  split; [reflexivity|]. split; [reflexivity|]. apply holds_new.
Qed.

End Acot.

(* ================================================================= *)
(** ** Construction from two arguments *)

Section TwoArguments.

Context {host : Platform}.

(** [a] is [undefined] or [null] (lines 145-147): [(0, 0)], whatever [b]. *)
Lemma parse_absent a b s :
  is_undefined a || is_null a = true ->
  Lib.parse a b s = (Normal ZP, mkStore (VNum 0) (VNum 0) (heap s)).
Proof. intros Ha. unfold Lib.parse. now rewrite Ha. Qed.

Lemma Complex_absent a b s :
  is_undefined a || is_null a = true ->
  Lib.Complex a b s =
  (Normal (List.length (heap s)),
   mkStore (VNum 0) (VNum 0)
           (heap s ++ [complex_object (VNum 0) (VNum 0)])).
Proof.
  intros Ha. unfold Lib.Complex, bind at 1, alloc.
  rewrite (bind_Normal _ _ _ _ _ (parse_absent a b _ Ha)).
  unfold bind, zget, set_prop; simpl. rewrite nth_error_last.
  simpl. rewrite list_update_last. simpl.
  rewrite nth_error_last. simpl. now rewrite list_update_last.
Qed.

(** C7, as the code has it.  When the first argument is [undefined] or
    [null], [parse] gives [(0, 0)] and the constructor a new Complex
    reading [(0, 0)], whatever the second argument is.  Otherwise, with a
    second argument that is not [undefined], and both arguments among
    [null], the booleans, the Numbers and the strings, [parse] and the
    constructor store the two arguments as they are given, uncoerced, and
    do not throw.  (An argument of another kind is assigned in the same
    way, but the test [isNaN(z['re']) || isNaN(z['im'])] of lines 248-251
    then converts it: see [Global.ToNumber].) *)
Theorem two_arguments_stored_raw a b s :
  (is_undefined a || is_null a = true ->
   Lib.parse a b s = (Normal ZP, mkStore (VNum 0) (VNum 0) (heap s))
   /\ exists l s',
       Lib.Complex a b s = (Normal l, s')
       /\ l = List.length (heap s)
       /\ holds s' l (VNum 0) (VNum 0))
  /\ (is_undefined a || is_null a = false ->
      is_undefined b = false ->
      primitive a = true -> primitive b = true ->
      Lib.parse a b s = (Normal ZP, mkStore a b (heap s))
      /\ exists l s',
          Lib.Complex a b s = (Normal l, s')
          /\ l = List.length (heap s)
          /\ holds s' l a b).
Proof.
  split.
  - intros Ha. split; [now apply parse_absent|].
    rewrite (Complex_absent _ _ _ Ha). eexists _, _.
    split; [reflexivity|]. split; [reflexivity|]. apply holds_new.
  - intros Ha Hb Pa Pb. split; [now apply parse_two_arguments|].
    rewrite (Complex_two_arguments _ _ _ Ha Hb Pa Pb). eexists _, _.
    split; [reflexivity|]. split; [reflexivity|]. apply holds_new.
Qed.

End TwoArguments.

(* ================================================================= *)
(** ** The frame of every operation *)

Section Frame.

Context {host : Platform}.

Lemma keeps_refl n s : (n <= List.length (heap s))%nat -> keeps n s s.
Proof. now split. Qed.

Lemma keeps_trans n s1 s2 s3 : keeps n s1 s2 -> keeps n s2 s3 -> keeps n s1 s3.
Proof. intros [L1 E1] [L2 E2]. split; [assumption | congruence]. Qed.

Lemma length_list_update {A} (l : list A) n x :
  List.length (list_update l n x) = List.length l.
Proof.
  revert n. induction l; intros [|n]; simpl; auto.
Qed.

Lemma firstn_list_update {A} (l : list A) n i x :
  (n <= i)%nat -> firstn n (list_update l i x) = firstn n l.
Proof.
  revert n i. induction l; intros [|n] [|i] H; simpl; auto; try lia.
  now rewrite IHl by lia.
Qed.

Lemma firstn_app_le {A} (l r : list A) n :
  (n <= List.length l)%nat -> firstn n (l ++ r) = firstn n l.
Proof.
  revert n. induction l; intros [|n] H; simpl in *; auto; try lia.
  now rewrite IHl by lia.
Qed.

Lemma nth_error_firstn_lt {A} (l : list A) n i :
  (i < n)%nat -> nth_error (firstn n l) i = nth_error l i.
Proof.
  revert n i. induction l; intros [|n] [|i] H; simpl; auto; try lia.
  apply IHl. lia.
Qed.

Lemma frame_weaken {A} n (m : M A) (Q Q' : A -> Prop) :
  frame n m Q -> (forall a, Q a -> Q' a) -> frame n m Q'.
Proof.
  intros H W s L. destruct (H s L) as [K R]. split; [assumption|].
  destruct (fst (m s)); auto.
Qed.

Lemma frame_ret {A} n (a : A) (Q : A -> Prop) : Q a -> frame n (ret a) Q.
Proof. intros H s L. split; [now apply keeps_refl | assumption]. Qed.

Lemma frame_bind {A B} n (m : M A) (k : A -> M B) Q R :
  frame n m Q -> (forall a, Q a -> frame n (k a) R) -> frame n (bind m k) R.
Proof.
  intros Hm Hk s L. destruct (Hm s L) as [K1 R1]. unfold bind.
  destruct (m s) as [[a| |] s1]; simpl in *; try (split; [assumption|exact I]).
  destruct (Hk a R1 s1 (proj1 K1)) as [K2 R2].
  split; [now apply keeps_trans with s1 | assumption].
Qed.

Lemma frame_heap_const {A} n (m : M A) :
  heap_const m -> frame n m (fun _ => True).
Proof.
  intros H s L. split.
  - unfold keeps. now rewrite H.
  - now destruct (fst (m s)).
Qed.

Lemma frame_alloc n o : frame n (alloc o) (fun l => (n <= l)%nat).
Proof.
  intros s L. unfold alloc; simpl. split; [|assumption].
  split; simpl.
  - rewrite length_app. lia.
  - now apply firstn_app_le.
Qed.

Lemma frame_set_prop n l k v :
  (n <= l)%nat -> frame n (set_prop l k v) (fun _ => True).
Proof.
  intros H s L. unfold set_prop.
  destruct (nth_error (heap s) l); simpl.
  - split; [|exact I]. split; simpl.
    + now rewrite length_list_update.
    + now apply firstn_list_update.
  - split; [now apply keeps_refl | exact I].
Qed.

Lemma frame_get_prop n l k : frame n (get_prop l k) (fun _ => True).
Proof. apply frame_heap_const, hc_get_prop. Qed.

Lemma frame_zget n z k : frame n (zget z k) (fun _ => True).
Proof. apply frame_heap_const, hc_zget. Qed.

Lemma frame_num n v : frame n (num v) (fun _ => True).
Proof. apply frame_heap_const, hc_num. Qed.

Lemma frame_throw {A} n e msg (Q : A -> Prop) : frame n (throw e msg) Q.
Proof. intros s L. split; [now apply keeps_refl | exact I]. Qed.

Lemma frame_parse n a b : frame n (Lib.parse a b) (fun _ => True).
Proof. apply frame_heap_const, hc_parse. Qed.

Lemma frame_get_num n l k : frame n (get_num l k) (fun _ => True).
Proof.
  unfold get_num. eapply frame_bind; [apply frame_get_prop|].
  intros v _. apply frame_num.
Qed.

Lemma frame_znum n z k : frame n (prototype.znum z k) (fun _ => True).
Proof.
  unfold prototype.znum. eapply frame_bind; [apply frame_zget|].
  intros v _. apply frame_num.
Qed.

(** The constructor writes its new [this] only. *)
Lemma frame_Complex n a b : frame n (Lib.Complex a b) (fun l => (n <= l)%nat).
Proof.
  unfold Lib.Complex.
  eapply frame_bind; [apply frame_alloc|]. intros this Hthis.
  eapply frame_bind; [apply frame_parse|]. intros z _.
  eapply frame_bind; [apply frame_zget|]. intros re _.
  eapply frame_bind; [now apply frame_set_prop|]. intros _ _.
  eapply frame_bind; [apply frame_zget|]. intros im _.
  eapply frame_bind; [now apply frame_set_prop|]. intros _ _.
  now apply frame_ret.
Qed.

Lemma frame_Complex_noc n a b :
  frame n (Lib.Complex a b) (new_or_constant n).
Proof. eapply frame_weaken; [apply frame_Complex|]. intros l H. now left. Qed.

Lemma frame_new_Complex n x y :
  frame n (prototype.new_Complex x y) (new_or_constant n).
Proof. apply frame_Complex_noc. Qed.

Lemma frame_isNaN n t : frame n (prototype.isNaN t) (fun _ => True).
Proof.
  apply frame_heap_const. unfold prototype.isNaN.
  apply hc_orM; (apply hc_bind; [apply hc_get_prop | intros; apply hc_isNaN]).
Qed.

Lemma frame_isFinite n t : frame n (prototype.isFinite t) (fun _ => True).
Proof.
  apply frame_heap_const. unfold prototype.isFinite.
  apply hc_andM; (apply hc_bind; [apply hc_get_prop | intros; apply hc_isFinite]).
Qed.

Lemma frame_isInfinite n t : frame n (prototype.isInfinite t) (fun _ => True).
Proof.
  unfold prototype.isInfinite. eapply frame_bind; [apply frame_isFinite|].
  intros b _. now apply frame_ret.
Qed.

Lemma frame_isZero n t : frame n (prototype.isZero t) (fun _ => True).
Proof.
  unfold prototype.isZero.
  eapply frame_bind; [apply frame_get_prop|]. intros im _.
  eapply frame_bind; [apply frame_get_prop|]. intros re _.
  now apply frame_ret.
Qed.

Lemma frame_tIsZero n t : frame n (prototype.tIsZero t) (fun _ => True).
Proof.
  unfold prototype.tIsZero.
  eapply frame_bind; [apply frame_get_prop|]. intros re _.
  eapply frame_bind; [apply frame_get_prop|]. intros im _.
  now apply frame_ret.
Qed.

Lemma frame_zIsZero n z : frame n (prototype.zIsZero z) (fun _ => True).
Proof.
  unfold prototype.zIsZero.
  eapply frame_bind; [apply frame_zget|]. intros re _.
  eapply frame_bind; [apply frame_zget|]. intros im _.
  now apply frame_ret.
Qed.

Lemma frame_zInfinite n z : frame n (prototype.zInfinite z) (fun _ => True).
Proof.
  apply frame_heap_const. unfold prototype.zInfinite.
  apply hc_bind; [|intros; apply hc_ret].
  apply hc_andM; (apply hc_bind; [apply hc_zget | intros; apply hc_isFinite]).
Qed.

Lemma noc_constant n l : shared_constant l -> new_or_constant n l.
Proof. now right. Qed.

Lemma shared_ZERO : shared_constant Complex_ZERO.
Proof. unfold shared_constant; tauto. Qed.
Lemma shared_ONE : shared_constant Complex_ONE.
Proof. unfold shared_constant; tauto. Qed.
Lemma shared_INFINITY : shared_constant Complex_INFINITY.
Proof. unfold shared_constant; tauto. Qed.
Lemma shared_NAN : shared_constant Complex_NAN.
Proof. unfold shared_constant; tauto. Qed.

Create HintDb frame.

#[local] Hint Resolve frame_get_prop frame_zget frame_num frame_throw
  frame_parse frame_get_num frame_znum frame_Complex_noc frame_new_Complex
  frame_isNaN frame_isFinite frame_isInfinite frame_isZero frame_tIsZero
  frame_zIsZero frame_zInfinite : frame.

#[local] Hint Resolve noc_constant shared_ZERO shared_ONE shared_INFINITY
  shared_NAN : frame.

Ltac fr_step :=
  match goal with
  | |- frame _ (bind _ _) _ =>
      eapply frame_bind; [solve [eauto with frame] | intros ? ?]
  | |- frame _ (if ?b then _ else _) _ => destruct b
  | |- frame _ (ret _) _ => apply frame_ret; solve [auto with frame]
  | |- frame _ _ _ => solve [eauto with frame]
  end.

Ltac fr := cbv zeta; repeat fr_step.

Lemma frame_sign n t : frame n (prototype.sign t) (new_or_constant n).
Proof. unfold prototype.sign. fr. Qed.

Lemma frame_add n t a b : frame n (prototype.add t a b) (new_or_constant n).
Proof. unfold prototype.add. fr. Qed.

Lemma frame_sub n t a b : frame n (prototype.sub t a b) (new_or_constant n).
Proof. unfold prototype.sub. fr. Qed.

Lemma frame_mul n t a b : frame n (prototype.mul t a b) (new_or_constant n).
Proof. unfold prototype.mul. fr. Qed.

Lemma frame_div n t a b : frame n (prototype.div t a b) (new_or_constant n).
Proof. unfold prototype.div. fr. Qed.

Lemma frame_pow n t a b : frame n (prototype.pow t a b) (new_or_constant n).
Proof. unfold prototype.pow. fr. Qed.

Lemma frame_sqrt n t : frame n (prototype.sqrt t) (new_or_constant n).
Proof. unfold prototype.sqrt. fr. Qed.

Lemma frame_exp n t : frame n (prototype.exp t) (new_or_constant n).
Proof. unfold prototype.exp. fr. Qed.

Lemma frame_expm1 n t : frame n (prototype.expm1 t) (new_or_constant n).
Proof. unfold prototype.expm1. fr. Qed.

Lemma frame_log n t : frame n (prototype.log t) (new_or_constant n).
Proof. unfold prototype.log. fr. Qed.

Lemma frame_sin n t : frame n (prototype.sin t) (new_or_constant n).
Proof. unfold prototype.sin. fr. Qed.

Lemma frame_cos n t : frame n (prototype.cos t) (new_or_constant n).
Proof. unfold prototype.cos. fr. Qed.

Lemma frame_tan n t : frame n (prototype.tan t) (new_or_constant n).
Proof. unfold prototype.tan. fr. Qed.

Lemma frame_cot n t : frame n (prototype.cot t) (new_or_constant n).
Proof. unfold prototype.cot. fr. Qed.

Lemma frame_sec n t : frame n (prototype.sec t) (new_or_constant n).
Proof. unfold prototype.sec. fr. Qed.

Lemma frame_csc n t : frame n (prototype.csc t) (new_or_constant n).
Proof. unfold prototype.csc. fr. Qed.

#[local] Hint Resolve frame_sqrt frame_log : frame.

Lemma frame_asin n t : frame n (prototype.asin t) (new_or_constant n).
Proof. unfold prototype.asin. fr. Qed.

Lemma frame_acos n t : frame n (prototype.acos t) (new_or_constant n).
Proof. unfold prototype.acos. fr. Qed.

Lemma frame_atan n t : frame n (prototype.atan t) (new_or_constant n).
Proof. unfold prototype.atan. fr. Qed.

Lemma frame_reciprocal n a b :
  frame n (prototype.reciprocal a b) (new_or_constant n).
Proof. unfold prototype.reciprocal. fr. Qed.

#[local] Hint Resolve frame_asin frame_acos frame_atan frame_reciprocal : frame.

Lemma frame_acot n t : frame n (prototype.acot t) (new_or_constant n).
Proof. unfold prototype.acot. fr. Qed.

Lemma frame_asec n t : frame n (prototype.asec t) (new_or_constant n).
Proof. unfold prototype.asec. fr. Qed.

Lemma frame_acsc n t : frame n (prototype.acsc t) (new_or_constant n).
Proof. unfold prototype.acsc. fr. Qed.

Lemma frame_sinh n t : frame n (prototype.sinh t) (new_or_constant n).
Proof. unfold prototype.sinh. fr. Qed.

Lemma frame_cosh n t : frame n (prototype.cosh t) (new_or_constant n).
Proof. unfold prototype.cosh. fr. Qed.

Lemma frame_tanh n t : frame n (prototype.tanh t) (new_or_constant n).
Proof. unfold prototype.tanh. fr. Qed.

Lemma frame_coth n t : frame n (prototype.coth t) (new_or_constant n).
Proof. unfold prototype.coth. fr. Qed.

Lemma frame_csch n t : frame n (prototype.csch t) (new_or_constant n).
Proof. unfold prototype.csch. fr. Qed.

Lemma frame_sech n t : frame n (prototype.sech t) (new_or_constant n).
Proof. unfold prototype.sech. fr. Qed.

Lemma frame_asinh n t : frame n (prototype.asinh t) (new_or_constant n).
Proof. unfold prototype.asinh. fr. Qed.

Lemma frame_acosh n t : frame n (prototype.acosh t) (new_or_constant n).
Proof. unfold prototype.acosh. fr. Qed.

Lemma frame_atanh n t : frame n (prototype.atanh t) (new_or_constant n).
Proof. unfold prototype.atanh. fr. Qed.

#[local] Hint Resolve frame_asinh frame_acosh frame_atanh : frame.

Lemma frame_acoth n t : frame n (prototype.acoth t) (new_or_constant n).
Proof. unfold prototype.acoth. fr. Qed.

Lemma frame_acsch n t : frame n (prototype.acsch t) (new_or_constant n).
Proof. unfold prototype.acsch. fr. Qed.

Lemma frame_asech n t : frame n (prototype.asech t) (new_or_constant n).
Proof. unfold prototype.asech. fr. Qed.

Lemma frame_inverse n t : frame n (prototype.inverse t) (new_or_constant n).
Proof. unfold prototype.inverse. fr. Qed.

Lemma frame_conjugate n t : frame n (prototype.conjugate t) (new_or_constant n).
Proof. unfold prototype.conjugate. fr. Qed.

Lemma frame_neg n t : frame n (prototype.neg t) (new_or_constant n).
Proof. unfold prototype.neg. fr. Qed.

Lemma frame_scale n places : frame n (prototype.scale places) (fun _ => True).
Proof.
  unfold prototype.scale. eapply frame_bind with (Q := fun _ => True).
  - destruct (truthy places); [apply frame_num | now apply frame_ret].
  - intros p _. now apply frame_ret.
Qed.

#[local] Hint Resolve frame_scale : frame.

Lemma frame_ceil n t places : frame n (prototype.ceil t places) (new_or_constant n).
Proof. unfold prototype.ceil. fr. Qed.

Lemma frame_floor n t places : frame n (prototype.floor t places) (new_or_constant n).
Proof. unfold prototype.floor. fr. Qed.

Lemma frame_round n t places : frame n (prototype.round t places) (new_or_constant n).
Proof. unfold prototype.round. fr. Qed.

Lemma frame_equals n t a b : frame n (prototype.equals t a b) (fun _ => True).
Proof. unfold prototype.equals. fr. Qed.

Lemma frame_clone n t : frame n (prototype.clone t) (new_or_constant n).
Proof. unfold prototype.clone. fr. Qed.

Lemma frame_toString n t : frame n (prototype.toString t) (fun _ => True).
Proof. unfold prototype.toString. fr. Qed.

Lemma frame_abs n t : frame n (prototype.abs t) (fun _ => True).
Proof. unfold prototype.abs. fr. Qed.

Lemma frame_arg n t : frame n (prototype.arg t) (fun _ => True).
Proof. unfold prototype.arg. fr. Qed.

Lemma frame_valueOf n t : frame n (prototype.valueOf t) (fun _ => True).
Proof. unfold prototype.valueOf. fr. Qed.

(** [toVector] creates its array. *)
Lemma frame_toVector n t : frame n (prototype.toVector t) (new_or_constant n).
Proof.
  unfold prototype.toVector.
  eapply frame_bind; [apply frame_get_prop|]. intros re _.
  eapply frame_bind; [apply frame_get_prop|]. intros im _.
  eapply frame_weaken; [apply frame_alloc|]. intros l H. now left.
Qed.

Lemma frame_as_obj n m :
  frame n m (new_or_constant n) ->
  frame n (prototype.as_obj m) (new_or_constant_value n).
Proof.
  intros H. unfold prototype.as_obj. eapply frame_bind; [exact H|].
  intros l Hl. now apply frame_ret.
Qed.

Lemma frame_as_bool n m :
  frame n m (fun _ => True) ->
  frame n (prototype.as_bool m) (new_or_constant_value n).
Proof.
  intros H. unfold prototype.as_bool. eapply frame_bind; [exact H|].
  intros b _. now apply frame_ret.
Qed.

Lemma frame_as_num n m :
  frame n m (fun _ => True) ->
  frame n (prototype.as_num m) (new_or_constant_value n).
Proof.
  intros H. unfold prototype.as_num. eapply frame_bind; [exact H|].
  intros x _. now apply frame_ret.
Qed.

Lemma frame_as_str n m :
  frame n m (fun _ => True) ->
  frame n (prototype.as_str m) (new_or_constant_value n).
Proof.
  intros H. unfold prototype.as_str. eapply frame_bind; [exact H|].
  intros x _. now apply frame_ret.
Qed.

#[local] Hint Resolve frame_sign frame_add frame_sub frame_mul frame_div
  frame_pow frame_exp frame_expm1 frame_sin frame_cos frame_tan frame_cot
  frame_sec frame_csc frame_acot frame_asec frame_acsc frame_sinh frame_cosh
  frame_tanh frame_coth frame_csch frame_sech frame_acoth frame_acsch
  frame_asech frame_inverse frame_conjugate frame_neg frame_ceil frame_floor
  frame_round frame_equals frame_clone frame_toString frame_abs frame_arg
  frame_toVector : frame.

Lemma frame_call n name this args :
  frame n (prototype.call name this args)
        (fun v => name <> "valueOf"%string -> new_or_constant_value n v).
Proof.
  unfold prototype.call. cbv zeta.
  repeat match goal with
  | |- frame _ (if String.eqb ?a ?b then _ else _) _ =>
      let E := fresh "E" in
      destruct (String.eqb a b) eqn:E;
      [ try (eapply frame_weaken;
             [ first [ apply frame_as_obj | apply frame_as_bool
                     | apply frame_as_num | apply frame_as_str ];
               solve [eauto with frame]
             | intros ? ? ?; assumption ]) | clear E ]
  end.
  - apply String.eqb_eq in E. eapply frame_weaken; [apply frame_valueOf|].
    intros v _ N. now elim N.
  - apply frame_throw.
Qed.

(** C9, as the code has it.  Whatever method [name] of a Complex [this]
    is called, on whatever arguments and in whatever store: every object
    the heap held before the call (the receiver, a Complex or record or
    array operand, the constants) is afterwards what it was, field for
    field; and an object the method returns is either new (created by
    the call) or one of the shared constants [Complex.ZERO],
    [Complex.ONE], [Complex.INFINITY], [Complex.NAN] ([valueOf], which
    hands back [this['re']] itself, apart).  The constructor leaves every
    existing object as it was and returns a new one. *)
Theorem operations_leave_objects_unchanged name this args a b s :
  let n := List.length (heap s) in
  let r := prototype.call name this args s in
  let c := Lib.Complex a b s in
  (forall l, (l < n)%nat ->
             nth_error (heap (snd r)) l = nth_error (heap s) l)
  /\ (forall l, fst r = Normal (VObj l) -> name <> "valueOf"%string ->
                (n <= l)%nat \/ shared_constant l)
  /\ (forall l, (l < n)%nat ->
                nth_error (heap (snd c)) l = nth_error (heap s) l)
  /\ (forall l, fst c = Normal l -> (n <= l)%nat).
Proof.
  intros n r c.
  destruct (frame_call n name this args s (Nat.le_refl _)) as [[_ K] R].
  destruct (frame_Complex n a b s (Nat.le_refl _)) as [[_ K'] R'].
  fold r in K, R. fold c in K', R'.
  repeat split.
  - intros l Hl. rewrite <- (nth_error_firstn_lt _ n l Hl), K.
    now apply nth_error_firstn_lt.
  - intros l E N. rewrite E in R. exact (R N).
  - intros l Hl. rewrite <- (nth_error_firstn_lt _ n l Hl), K'.
    now apply nth_error_firstn_lt.
  - intros l E. now rewrite E in R'.
Qed.

End Frame.

(* ================================================================= *)
(** ** Tokens: what the pattern matches are numeric literals *)

Section Tokens.

Import Text.
Local Open Scope string_scope.

Lemma append_nil_r (s : string) : s ++ "" = s.
Proof. induction s; simpl; [reflexivity | now rewrite IHs]. Qed.

Lemma all_chars_app p (s r : string) :
  all_chars p (s ++ r) = all_chars p s && all_chars p r.
Proof.
  induction s; simpl; [reflexivity | now rewrite IHs, andb_assoc].
Qed.

Lemma span_digits_spec s d r :
  span_digits s = (d, r) ->
  s = d ++ r /\ all_chars is_digit d = true /\ starts_nondigit r.
Proof.
  revert d r. induction s as [|c s IH]; simpl; intros d r.
  - intros [= <- <-]. now repeat split.
  - destruct (is_digit c) eqn:Hc.
    + destruct (span_digits s) as [d' r'] eqn:E. intros [= <- <-].
      destruct (IH _ _ eq_refl) as (-> & Hd & Hr).
      simpl. now rewrite Hc, Hd.
    + intros [= <- <-]. now repeat split.
Qed.

Lemma span_digits_nondigit r :
  starts_nondigit r -> span_digits r = ("", r).
Proof. destruct r as [|c r]; simpl; [reflexivity | now intros ->]. Qed.

Lemma span_digits_app d r :
  all_chars is_digit d = true -> starts_nondigit r ->
  span_digits (d ++ r) = (d, r).
Proof.
  intros Hd Hr. induction d as [|c d IH]; simpl in *.
  - now apply span_digits_nondigit.
  - apply andb_prop in Hd as [Hc Hd]. now rewrite Hc, (IH Hd).
Qed.

Lemma span_digits_all d :
  all_chars is_digit d = true -> span_digits d = (d, "").
Proof.
  intros H. rewrite <- (append_nil_r d) at 1. now apply span_digits_app.
Qed.

Lemma is_empty_app_l (d r : string) :
  is_empty d = false -> is_empty (d ++ r) = false.
Proof. now destruct d. Qed.

Lemma opt_dot_spec r1 :
  (exists r, r1 = String "." r /\ opt_dot r1 = (".", r))
  \/ (opt_dot r1 = ("", r1) /\ forall r, r1 <> String "." r).
Proof.
  destruct r1 as [|c r]; [right; split; [reflexivity | discriminate]|].
  destruct (Ascii.eqb_spec c ".") as [->|N].
  - left. now exists r.
  - right. split; [|intros r' [= ? ?]; contradiction].
    destruct c as [[] [] [] [] [] [] [] []]; try reflexivity. now elim N.
Qed.

Lemma opt_sign_spec r1 :
  (exists sg r, r1 = sg ++ r /\ opt_sign r1 = (sg, r)
                /\ (sg = "+" \/ sg = "-"))
  \/ (opt_sign r1 = ("", r1)).
Proof.
  destruct r1 as [|c r]; [now right|].
  destruct (Ascii.eqb_spec c "+") as [->|N1].
  - left. exists "+", r. auto.
  - destruct (Ascii.eqb_spec c "-") as [->|N2].
    + left. exists "-", r. auto.
    + right. destruct c as [[] [] [] [] [] [] [] []]; try reflexivity;
        [now elim N1 | now elim N2].
Qed.

(** A digit is no dot, sign or [e]. *)
Lemma digit_not_mark c :
  is_digit c = true ->
  c <> "."%char /\ c <> "e"%char /\ c <> "+"%char /\ c <> "-"%char.
Proof.
  destruct c as [[] [] [] [] [] [] [] []]; vm_compute; intros H;
    try discriminate H; repeat split; discriminate.
Qed.

Lemma opt_dot_digits d r :
  is_empty d = false -> all_chars is_digit d = true ->
  opt_dot (d ++ r) = ("", d ++ r).
Proof.
  intros N D. destruct d as [|c d]; [discriminate|]. simpl in *.
  apply andb_prop in D as [Hc _].
  destruct (opt_dot_spec (String c (d ++ r))) as [(r' & E & _) | [E _]];
    [|exact E].
  injection E as -> _. discriminate Hc.
Qed.

Lemma opt_sign_digits d r :
  is_empty d = false -> all_chars is_digit d = true ->
  opt_sign (d ++ r) = ("", d ++ r).
Proof.
  intros N D. destruct d as [|c d]; [discriminate|]. simpl in *.
  apply andb_prop in D as [Hc _].
  destruct (opt_sign_spec (String c (d ++ r)))
    as [(sg & r' & E & _ & [-> | ->]) | E]; [| |exact E];
    injection E as -> _; discriminate Hc.
Qed.

(** The three number alternatives of the pattern produce numeric
    literals. *)
Lemma re_decimal_literal s tok rest :
  Lexer.re_decimal s = Some (tok, rest) ->
  Grammar.is_numeric_literal tok = true.
Proof.
  unfold Lexer.re_decimal.
  destruct (span_digits s) as [d1 r1] eqn:E1.
  destruct (is_empty d1) eqn:N1; [discriminate|].
  destruct (span_digits_spec _ _ _ E1) as (_ & D1 & R1).
  destruct (opt_dot_spec r1) as [(r & -> & ->) | [-> Hnd]].
  - destruct (span_digits r) as [d2 r3] eqn:E2. intros [= <- <-].
    destruct (span_digits_spec _ _ _ E2) as (_ & D2 & R2).
    unfold Grammar.is_numeric_literal.
    change (d1 ++ "." ++ d2) with (d1 ++ String "." d2).
    rewrite (span_digits_app d1 (String "." d2)) by (assumption || reflexivity).
    rewrite N1. simpl. now rewrite (span_digits_all d2 D2).
  - rewrite (span_digits_nondigit r1 R1). intros [= <- <-].
    simpl. rewrite append_nil_r.
    unfold Grammar.is_numeric_literal. rewrite (span_digits_all d1 D1), N1.
    reflexivity.
Qed.

Lemma re_fraction_literal s tok rest :
  Lexer.re_fraction s = Some (tok, rest) ->
  Grammar.is_numeric_literal tok = true.
Proof.
  unfold Lexer.re_fraction.
  destruct (opt_dot_spec s) as [(r & -> & _) | [_ Hnd]].
  - destruct (span_digits r) as [d r'] eqn:E.
    destruct (is_empty d) eqn:N; [discriminate|]. intros [= <- <-].
    destruct (span_digits_spec _ _ _ E) as (_ & D & _).
    unfold Grammar.is_numeric_literal. simpl.
    now rewrite (span_digits_all d D), N.
  - destruct s as [|c s]; [discriminate|].
    destruct (Ascii.eqb_spec c ".") as [->|N]; [now elim (Hnd s)|].
    destruct c as [[] [] [] [] [] [] [] []]; try discriminate. now elim N.
Qed.

Lemma exponent_tail sg d3 :
  (sg = "" \/ sg = "+" \/ sg = "-") ->
  is_empty d3 = false -> all_chars is_digit d3 = true ->
  (let r5 := snd (opt_sign (sg ++ d3)) in
   let (d, r6) := span_digits r5 in negb (is_empty d) && is_empty r6) = true.
Proof.
  intros Hsg N D.
  assert (E : snd (opt_sign (sg ++ d3)) = d3).
  { destruct Hsg as [-> | [-> | ->]]; try reflexivity.
    simpl. rewrite <- (append_nil_r d3) at 1.
    rewrite (opt_sign_digits d3 "" N D). simpl. apply append_nil_r. }
  cbv zeta. rewrite E, (span_digits_all d3 D), N. reflexivity.
Qed.

Lemma re_exponential_literal s tok rest :
  Lexer.re_exponential s = Some (tok, rest) ->
  Grammar.is_numeric_literal tok = true.
Proof.
  unfold Lexer.re_exponential.
  destruct (span_digits s) as [d1 r1] eqn:E1.
  destruct (is_empty d1) eqn:N1; [discriminate|].
  destruct (span_digits_spec _ _ _ E1) as (_ & D1 & R1).
  assert (Tail : forall r3 dotd2,
    (dotd2 = "" \/ exists d2, dotd2 = String "." d2
                              /\ all_chars is_digit d2 = true) ->
    match r3 with
    | String "e" r4 =>
        let (sg, r5) := opt_sign r4 in
        let (d3, r6) := span_digits r5 in
        if is_empty d3 then None
        else Some (d1 ++ dotd2 ++ "e" ++ sg ++ d3, r6)
    | _ => None
    end = Some (tok, rest) ->
    Grammar.is_numeric_literal tok = true).
  { intros r3 dotd2 Hdot.
    destruct r3 as [|c r4]; [discriminate|].
    destruct (Ascii.eqb_spec c "e") as [->|N];
      [|destruct c as [[] [] [] [] [] [] [] []]; try discriminate; now elim N].
    assert (Hsg : exists sg r5, opt_sign r4 = (sg, r5)
                                /\ (sg = "" \/ sg = "+" \/ sg = "-")).
    { destruct (opt_sign_spec r4) as [(sg & r & _ & E & H) | E].
      - exists sg, r. tauto.
      - exists "", r4. tauto. }
    destruct Hsg as (sg & r5 & -> & Hsg).
    destruct (span_digits r5) as [d3 r6] eqn:E3.
    destruct (is_empty d3) eqn:N3; [discriminate|]. intros [= <- <-].
    destruct (span_digits_spec _ _ _ E3) as (_ & D3 & _).
    unfold Grammar.is_numeric_literal.
    destruct Hdot as [-> | (d2 & -> & D2)].
    - simpl. rewrite (span_digits_app d1 (String "e" (sg ++ d3)))
        by (assumption || reflexivity).
      rewrite N1. simpl. now apply exponent_tail.
    - change (d1 ++ String "." d2 ++ "e" ++ sg ++ d3)
        with (d1 ++ String "." (d2 ++ String "e" (sg ++ d3))).
      rewrite (span_digits_app d1 _) by (assumption || reflexivity).
      rewrite N1. simpl.
      rewrite (span_digits_app d2 (String "e" (sg ++ d3)))
        by (assumption || reflexivity).
      now apply exponent_tail. }
  destruct (opt_dot_spec r1) as [(r & -> & ->) | [-> Hnd]].
  - destruct (span_digits r) as [d2 r3] eqn:E2.
    destruct (span_digits_spec _ _ _ E2) as (_ & D2 & _).
    apply (Tail r3 (String "." d2)). right. now exists d2.
  - rewrite (span_digits_nondigit r1 R1).
    apply (Tail r1 ""). now left.
Qed.

End Tokens.

(* ================================================================= *)
(** ** A numeric literal never converts to NaN *)

Section NotNaN.

Local Open Scope Z_scope.

Lemma shr_1_nonneg mrs : 0 <= shr_m mrs -> 0 <= shr_m (shr_1 mrs).
Proof.
  destruct mrs as [m r s]. simpl.
  destruct m as [|[p|p|]|p]; simpl; lia.
Qed.

Lemma iter_shr_1_nonneg p mrs :
  0 <= shr_m mrs -> 0 <= shr_m (SpecFloat.iter_pos shr_1 p mrs).
Proof.
  revert mrs. induction p as [p IH|p IH|]; intros mrs H; simpl.
  - apply IH, IH. now apply shr_1_nonneg.
  - now apply IH, IH.
  - now apply shr_1_nonneg.
Qed.

Lemma shr_nonneg mrs e n :
  0 <= shr_m mrs -> 0 <= shr_m (fst (shr mrs e n)).
Proof.
  intros H. destruct n; simpl; try assumption.
  now apply iter_shr_1_nonneg.
Qed.

Lemma shr_fexp_nonneg m e l :
  0 <= m -> 0 <= shr_m (fst (shr_fexp prec emax m e l)).
Proof.
  intros H. unfold shr_fexp. apply shr_nonneg.
  now destruct l as [|[]].
Qed.

Lemma round_nearest_even_nonneg m l :
  0 <= m -> 0 <= round_nearest_even m l.
Proof.
  intros H. destruct l as [|[]]; simpl; try assumption; try lia.
  destruct (Z.even m); lia.
Qed.

Lemma binary_round_aux_not_nan s m e l :
  0 <= m -> binary_round_aux prec emax s m e l <> S754_nan.
Proof.
  intros H. unfold binary_round_aux.
  pose proof (shr_fexp_nonneg m e l H) as H1.
  destruct (shr_fexp prec emax m e l) as [mrs' e']. simpl in H1.
  pose proof (shr_fexp_nonneg _ e' loc_Exact
                (round_nearest_even_nonneg _ (loc_of_shr_record mrs') H1)) as H2.
  destruct (shr_fexp prec emax _ e' loc_Exact) as [mrs'' e'']. simpl in H2.
  destruct (shr_m mrs''); try discriminate; [|lia].
  now destruct (e'' <=? emax - prec).
Qed.

Lemma binary_round_not_nan s m e : binary_round prec emax s m e <> S754_nan.
Proof.
  unfold binary_round. destruct (shl_align m e _) as [mz ez].
  apply binary_round_aux_not_nan. lia.
Qed.

Lemma binary_normalize_not_nan m e sz :
  binary_normalize prec emax m e sz <> S754_nan.
Proof.
  destruct m; simpl; [discriminate | |]; apply binary_round_not_nan.
Qed.

Lemma SFdiv_finite_not_nan sx mx ex sy my ey :
  SFdiv prec emax (S754_finite sx mx ex) (S754_finite sy my ey) <> S754_nan.
Proof.
  unfold SFdiv, SFdiv_core_binary.
  set (m' := match _ with Zpos _ => _ | Z0 => _ | Zneg _ => _ end).
  assert (Hm : 0 <= m').
  { subst m'. destruct (ex - ey - _); try lia.
    apply Z.shiftl_nonneg. lia. }
  assert (Hq : 0 <= fst (Z.div_eucl m' (Zpos my))).
  { change (fst (Z.div_eucl m' (Zpos my))) with (m' / Zpos my).
    apply Z.div_pos; lia. }
  destruct (Z.div_eucl m' (Zpos my)) as [q r]. simpl in Hq.
  now apply binary_round_aux_not_nan.
Qed.

Lemma dec2SF_not_nan m e : Text.dec2SF m e <> S754_nan.
Proof.
  unfold Text.dec2SF. destruct m; [discriminate|].
  destruct (0 <=? e).
  - apply binary_normalize_not_nan.
  - apply SFdiv_finite_not_nan.
Qed.

Local Close Scope Z_scope.

Lemma Prim2SF_nan x : is_nan x = true <-> Prim2SF x = S754_nan.
Proof.
  split.
  - intros H. unfold Prim2SF. now rewrite H.
  - intros H. unfold is_nan. now rewrite eqb_spec, H.
Qed.

Lemma is_nan_false x : Prim2SF x <> S754_nan -> is_nan x = false.
Proof.
  intros H. destruct (is_nan x) eqn:E; [|reflexivity].
  now apply Prim2SF_nan in E.
Qed.

Lemma is_nan_opp x : is_nan (- x) = is_nan x.
Proof.
  destruct (is_nan x) eqn:E.
  - apply Prim2SF_nan. rewrite opp_spec.
    apply Prim2SF_nan in E. now rewrite E.
  - apply is_nan_false. rewrite opp_spec. intros H.
    assert (Prim2SF x = S754_nan) by (now destruct (Prim2SF x)).
    apply Prim2SF_nan in H0. congruence.
Qed.

Lemma SF2Prim_not_nan y : y <> S754_nan -> is_nan (SF2Prim y) = false.
Proof.
  intros H. destruct y as [[]|[]| |s m e]; try reflexivity; [now elim H|].
  unfold SF2Prim.
  assert (E : is_nan (Z.ldexp (of_uint63 (Uint63Axioms.of_Z (Zpos m))) e)
              = false).
  { apply is_nan_false. unfold Z.ldexp. rewrite ldshiftexp_spec.
    rewrite of_uint63_spec.
    pose proof (binary_normalize_not_nan
                  (Uint63Axioms.to_Z (Uint63Axioms.of_Z (Zpos m))) 0 false) as N.
    destruct (binary_normalize prec emax _ 0 false);
      try discriminate; [now elim N|].
    apply binary_round_not_nan. }
  destruct s; [now rewrite is_nan_opp | assumption].
Qed.

Lemma dec2float_not_nan neg m e : is_nan (Text.dec2float neg m e) = false.
Proof.
  unfold Text.dec2float, Text.signed.
  pose proof (SF2Prim_not_nan _ (dec2SF_not_nan m e)) as H.
  destruct neg; [now rewrite is_nan_opp | assumption].
Qed.

End NotNaN.

(* ================================================================= *)
(** ** [isNaN] agrees with the grammar on tokens *)

Section TokenKinds.

Import Text.
Local Open Scope string_scope.

Lemma all_chars_impl (p q : ascii -> bool) s :
  (forall c, p c = true -> q c = true) ->
  all_chars p s = true -> all_chars q s = true.
Proof.
  intros I. induction s as [|c s IH]; simpl; [reflexivity|].
  intros H. apply andb_prop in H as [Hc Hs]. now rewrite (I c Hc), IH.
Qed.

Lemma number_char_facts c :
  number_char c = true ->
  is_whitespace c = false
  /\ Ascii.eqb c "x" || Ascii.eqb c "X" = false
  /\ Ascii.eqb c "o" || Ascii.eqb c "O" = false
  /\ Ascii.eqb c "b" || Ascii.eqb c "B" = false
  /\ Ascii.eqb "I" c = false.
Proof.
  destruct c as [[] [] [] [] [] [] [] []]; vm_compute; intros H;
    try discriminate H; repeat split; reflexivity.
Qed.

Lemma digit_number_char c : is_digit c = true -> number_char c = true.
Proof. unfold number_char. now intros ->. Qed.

Lemma trim_right_id s :
  all_chars (fun c => negb (is_whitespace c)) s = true -> trim_right s = s.
Proof.
  induction s as [|c s IH]; simpl; [reflexivity|].
  intros H. apply andb_prop in H as [Hc Hs]. rewrite (IH Hs).
  apply negb_true_iff in Hc. rewrite Hc. now rewrite andb_false_r.
Qed.

Lemma trim_id s :
  all_chars (fun c => negb (is_whitespace c)) s = true -> trim s = s.
Proof.
  intros H. unfold trim.
  assert (E : trim_left s = s).
  { destruct s as [|c s]; [reflexivity|]. simpl in *.
    apply andb_prop in H as [Hc _]. apply negb_true_iff in Hc.
    now rewrite Hc. }
  rewrite E. now apply trim_right_id.
Qed.

Lemma number_chars_trim s : all_chars number_char s = true -> trim s = s.
Proof.
  intros H. apply trim_id. revert H. apply all_chars_impl.
  intros c Hc. now rewrite (proj1 (number_char_facts c Hc)).
Qed.

Lemma lex_non_decimal_number_chars s :
  all_chars number_char s = true -> lex_non_decimal s = None.
Proof.
  destruct s as [|c0 [|c1 r]]; simpl.
  - reflexivity.
  - intros _. now destruct c0 as [[] [] [] [] [] [] [] []].
  - intros H. apply andb_prop in H as [_ H]. apply andb_prop in H as [H1 _].
    destruct (number_char_facts c1 H1) as (_ & X & O & B & _).
    unfold lex_non_decimal.
    destruct c0 as [[] [] [] [] [] [] [] []]; try reflexivity.
    now rewrite X, O, B.
Qed.

(** Rewriting the pattern [String "e" _] into a test. *)
Lemma match_e {A} (r : string) (a b : A) (f : string -> A) :
  match r with
  | EmptyString => a
  | String "e" r4 => f r4
  | _ => b
  end
  = match r with
    | EmptyString => a
    | String c r4 => if Ascii.eqb c "e" then f r4 else b
    end.
Proof.
  destruct r as [|c r]; [reflexivity|].
  destruct (Ascii.eqb_spec c "e") as [->|N]; [reflexivity|].
  destruct c as [[] [] [] [] [] [] [] []]; try reflexivity. now elim N.
Qed.

(** What the grammar calls a numeric literal converts, whole, to a
    Number that is not NaN. *)
Lemma lex_decimal_literal tok :
  Grammar.is_numeric_literal tok = true ->
  all_chars number_char tok = true
  /\ exists x, lex_decimal tok = Some (x, "") /\ is_nan x = false.
Proof.
  unfold Grammar.is_numeric_literal.
  destruct (span_digits tok) as [d1 r1] eqn:E1.
  destruct (span_digits_spec _ _ _ E1) as (-> & D1 & R1).
  pose proof (all_chars_impl _ _ d1 digit_number_char D1) as C1.
  destruct (is_empty d1) eqn:N1.
  - (* a fraction: [. digits] *)
    destruct d1; [|discriminate]. simpl.
    destruct (opt_dot_spec r1) as [(r & -> & _) | [_ Hnd]].
    + destruct (span_digits r) as [d r'] eqn:E2.
      destruct (span_digits_spec _ _ _ E2) as (-> & D & _).
      intros H. apply andb_prop in H as [Nd Hr'].
      apply negb_true_iff in Nd. destruct r'; [|discriminate].
      rewrite append_nil_r in *.
      pose proof (all_chars_impl _ _ d digit_number_char D) as C.
      split; [simpl; now rewrite C|].
      unfold lex_decimal, lex_unsigned_decimal. simpl.
      rewrite E2, Nd. simpl. eexists. split; [reflexivity|].
      apply (dec2float_not_nan false).
    + intros H. exfalso. destruct r1 as [|c r]; [discriminate|].
      destruct (Ascii.eqb_spec c ".") as [->|N]; [now elim (Hnd r)|].
      destruct c as [[] [] [] [] [] [] [] []]; try discriminate. now elim N.
  - (* digits, an optional fraction, an optional exponent *)
    assert (Hdot : exists dot r1',
               opt_dot r1 = (dot, r1')
               /\ all_chars number_char dot = true /\ r1 = dot ++ r1'
               /\ (if is_empty dot then (EmptyString, r1) else span_digits r1')
                  = span_digits r1').
    { destruct (opt_dot_spec r1) as [(r & -> & ->) | [-> _]].
      - exists ".", r. now repeat split.
      - exists "", r1. repeat split. simpl.
        now rewrite (span_digits_nondigit r1 R1). }
    destruct Hdot as (dot & r1' & Edot & Cdot & -> & Eif).
    rewrite Edot. simpl snd.
    destruct (span_digits r1') as [d2 r3] eqn:E2.
    destruct (span_digits_spec _ _ _ E2) as (-> & D2 & R3).
    pose proof (all_chars_impl _ _ d2 digit_number_char D2) as C2.
    rewrite match_e. intros H.
    assert (Hsign : opt_sign (d1 ++ dot ++ d2 ++ r3)
                    = ("", d1 ++ dot ++ d2 ++ r3))
      by (now apply opt_sign_digits).
    assert (Hinf : strip_prefix "Infinity" (d1 ++ dot ++ d2 ++ r3) = None).
    { destruct d1 as [|c d1]; [discriminate|].
      apply andb_prop in C1 as [Hc _].
      change (strip_prefix "Infinity" (String c d1 ++ dot ++ d2 ++ r3))
        with (if Ascii.eqb "I" c
              then strip_prefix "nfinity" (d1 ++ dot ++ d2 ++ r3) else None).
      now rewrite (proj2 (proj2 (proj2 (proj2 (number_char_facts c Hc))))). }
    assert (Hspan : span_digits (d1 ++ dot ++ d2 ++ r3)
                    = (d1, dot ++ d2 ++ r3)) by exact E1.
    assert (Hexp : all_chars number_char r3 = true
                   /\ exists e, (match lex_exponent r3 with
                                 | Some (e, r) => (e, r)
                                 | None => (0%Z, r3)
                                 end) = (e, "")).
    { destruct r3 as [|c r4]; [split; [reflexivity | now exists 0%Z]|].
      destruct (Ascii.eqb_spec c "e") as [->|N]; [|discriminate].
      cbv zeta in H. unfold lex_exponent.
      change (Ascii.eqb "e" "e" || Ascii.eqb "e" "E") with true. cbv iota.
      assert (Hs : exists sg r5,
                 opt_sign r4 = (sg, r5) /\ r4 = sg ++ r5
                 /\ all_chars number_char sg = true).
      { destruct (opt_sign_spec r4) as [(sg & r5 & E & Eo & Hsg) | Eo].
        - exists sg, r5. repeat split; try assumption.
          now destruct Hsg as [-> | ->].
        - exists "", r4. now repeat split. }
      destruct Hs as (sg & r5 & Eo & -> & Cs).
      rewrite Eo in *. simpl snd in H.
      destruct (span_digits r5) as [d3 r6] eqn:E3.
      destruct (span_digits_spec _ _ _ E3) as (-> & D3 & _).
      apply andb_prop in H as [N3 Hr6]. apply negb_true_iff in N3.
      destruct r6; [|discriminate]. rewrite N3, append_nil_r.
      split; [|eexists; reflexivity].
      change (String "e" (sg ++ d3)) with ("e" ++ sg ++ d3).
      rewrite !all_chars_app, Cs.
      now rewrite (all_chars_impl _ _ d3 digit_number_char D3). }
    destruct Hexp as (C3 & e & Hexp).
    split; [now rewrite !all_chars_app, C1, Cdot, C2, C3|].
    unfold lex_decimal. rewrite Hsign. unfold lex_unsigned_decimal.
    rewrite Hinf, Hspan, Edot, E2, Eif, N1, Hexp. simpl.
    eexists. split; [reflexivity|]. apply (dec2float_not_nan false).
Qed.

Lemma literal_not_nan tok :
  Grammar.is_numeric_literal tok = true ->
  Global.isNaN_string tok = false.
Proof.
  intros H. destruct (lex_decimal_literal tok H) as (C & x & E & N).
  unfold Global.isNaN_string, StringToNumber.
  rewrite (number_chars_trim tok C), (lex_non_decimal_number_chars tok C), E.
  destruct (is_empty tok); [reflexivity | exact N].
Qed.

End TokenKinds.

(* ================================================================= *)
(** ** The tokens of a text *)

Section Tokenizer.

Import Text.
Local Open Scope string_scope.

Lemma no_stray_space_app s r :
  no_stray_space (s ++ r) = no_stray_space s && no_stray_space r.
Proof.
  induction s; simpl; [reflexivity | now rewrite IHs, andb_assoc].
Qed.

Lemma no_stray_space_remove_underscores s :
  no_stray_space s = true ->
  no_stray_space (Lexer.remove_underscores s) = true.
Proof.
  induction s as [|c s IH]; simpl; [reflexivity|].
  intros H. apply andb_prop in H as [Hc Hs].
  destruct (Ascii.eqb c "_"); simpl; [now apply IH | now rewrite Hc, IH].
Qed.

Lemma append_assoc' (x y z : string) : (x ++ y) ++ z = x ++ (y ++ z).
Proof. induction x; simpl; [reflexivity | now rewrite IHx]. Qed.

Lemma opt_dot_eq s dot r : opt_dot s = (dot, r) -> s = dot ++ r.
Proof.
  destruct (opt_dot_spec s) as [(r' & -> & ->) | [-> _]]; now intros [= <- <-].
Qed.

Lemma opt_sign_eq s sg r : opt_sign s = (sg, r) -> s = sg ++ r.
Proof.
  destruct (opt_sign_spec s) as [(sg' & r' & E & -> & _) | ->];
    now intros [= <- <-].
Qed.

(** A match is a prefix of the text: the text is the match and the rest. *)
Lemma re_decimal_split s tok rest :
  Lexer.re_decimal s = Some (tok, rest) -> s = tok ++ rest /\ tok <> "".
Proof.
  unfold Lexer.re_decimal.
  destruct (span_digits s) as [d1 r1] eqn:E1.
  destruct (is_empty d1) eqn:N1; [discriminate|].
  destruct (opt_dot r1) as [dot r2] eqn:E2.
  destruct (span_digits r2) as [d2 r3] eqn:E3. intros [= <- <-].
  destruct (span_digits_spec _ _ _ E1) as (-> & _).
  rewrite (opt_dot_eq _ _ _ E2).
  destruct (span_digits_spec _ _ _ E3) as (-> & _).
  split; [now rewrite !append_assoc'|]. now destruct d1.
Qed.

Lemma re_fraction_split s tok rest :
  Lexer.re_fraction s = Some (tok, rest) -> s = tok ++ rest /\ tok <> "".
Proof.
  unfold Lexer.re_fraction.
  destruct (opt_dot_spec s) as [(r & -> & _) | [_ Hnd]].
  - destruct (span_digits r) as [d r'] eqn:E.
    destruct (is_empty d); [discriminate|]. intros [= <- <-].
    destruct (span_digits_spec _ _ _ E) as (-> & _). now split.
  - destruct s as [|c s]; [discriminate|].
    destruct (Ascii.eqb_spec c ".") as [->|N]; [now elim (Hnd s)|].
    destruct c as [[] [] [] [] [] [] [] []]; try discriminate. now elim N.
Qed.

Lemma re_exponential_split s tok rest :
  Lexer.re_exponential s = Some (tok, rest) -> s = tok ++ rest /\ tok <> "".
Proof.
  unfold Lexer.re_exponential.
  destruct (span_digits s) as [d1 r1] eqn:E1.
  destruct (is_empty d1) eqn:N1; [discriminate|].
  destruct (opt_dot r1) as [dot r2] eqn:E2.
  destruct (span_digits r2) as [d2 r3] eqn:E3.
  rewrite (match_e r3 None None).
  destruct r3 as [|c r4]; [discriminate|].
  destruct (Ascii.eqb_spec c "e") as [->|N]; [|discriminate].
  destruct (opt_sign r4) as [sg r5] eqn:E4.
  destruct (span_digits r5) as [d3 r6] eqn:E5.
  destruct (is_empty d3); [discriminate|]. intros [= <- <-].
  destruct (span_digits_spec _ _ _ E1) as (-> & _).
  rewrite (opt_dot_eq _ _ _ E2).
  destruct (span_digits_spec _ _ _ E3) as (-> & _).
  rewrite (opt_sign_eq _ _ _ E4).
  destruct (span_digits_spec _ _ _ E5) as (-> & _).
  split; [|now destruct d1].
  rewrite !append_assoc'. simpl. now rewrite !append_assoc'.
Qed.

Lemma re_any_split s tok rest :
  Lexer.re_any s = Some (tok, rest) ->
  exists c, s = String c rest /\ tok = str1 c /\ is_line_terminator c = false.
Proof.
  destruct s as [|c r]; [discriminate|]. simpl.
  destruct (is_line_terminator c) eqn:L; [discriminate|].
  intros [= <- <-]. now exists c.
Qed.

Lemma re_token_split s tok rest :
  Lexer.re_token s = Some (tok, rest) -> s = tok ++ rest /\ tok <> "".
Proof.
  unfold Lexer.re_token, Lexer.or_else.
  destruct (Lexer.re_exponential s) as [[t r]|] eqn:E1.
  { intros [= <- <-]. now apply re_exponential_split. }
  destruct (Lexer.re_decimal s) as [[t r]|] eqn:E2.
  { intros [= <- <-]. now apply re_decimal_split. }
  destruct (Lexer.re_fraction s) as [[t r]|] eqn:E3.
  { intros [= <- <-]. now apply re_fraction_split. }
  intros H. destruct (re_any_split _ _ _ H) as (c & -> & -> & _).
  now split.
Qed.

Lemma length_append (s r : string) :
  String.length (s ++ r) = (String.length s + String.length r)%nat.
Proof. induction s; simpl; [reflexivity | now rewrite IHs]. Qed.

(** [String.length s] steps are enough: more fuel changes nothing. *)
Lemma match_all_fuel fuel s :
  (String.length s <= fuel)%nat ->
  Lexer.match_all fuel s = Lexer.match_all (String.length s) s.
Proof.
  revert fuel.
  induction s as [s IH] using (well_founded_induction
    (well_founded_ltof _ String.length)).
  intros fuel L. destruct s as [|c r]; [now destruct fuel|].
  destruct fuel as [|fuel]; [simpl in L; lia|].
  cbn [Lexer.match_all String.length].
  destruct (Lexer.re_token (String c r)) as [[tok rest]|] eqn:E.
  - destruct (re_token_split _ _ _ E) as (Es & Nt).
    assert (Lr : (String.length rest <= String.length r)%nat).
    { apply (f_equal String.length) in Es. rewrite length_append in Es.
      simpl in Es. destruct tok; [now elim Nt|]. simpl in Es. lia. }
    assert (W : ltof _ String.length rest (String c r)).
    { unfold ltof. simpl. lia. }
    rewrite (IH rest W fuel) by (simpl in L; lia).
    now rewrite (IH rest W (String.length r)) by lia.
  - assert (W : ltof _ String.length r (String c r)).
    { unfold ltof. simpl. lia. }
    rewrite (IH r W fuel) by (simpl in L; lia). reflexivity.
Qed.

(** The token a single code unit makes, when the grammar calls it
    "other", is one [isNaN] rejects, unless it is stray white space. *)
Lemma single_char_other c :
  stray_space c = false -> is_line_terminator c = false ->
  good_token (str1 c).
Proof.
  unfold good_token.
  destruct c as [[] [] [] [] [] [] [] []]; vm_compute; intros S L K;
    try discriminate; reflexivity.
Qed.

Lemma kind_of_literal tok :
  Grammar.is_numeric_literal tok = true ->
  Grammar.kind_of tok <> Grammar.KOther.
Proof.
  intros H. unfold Grammar.kind_of. rewrite H.
  repeat match goal with |- context [if ?b then _ else _] => destruct b end;
    discriminate.
Qed.

Lemma re_token_good s tok rest :
  no_stray_space s = true ->
  Lexer.re_token s = Some (tok, rest) ->
  good_token tok /\ no_stray_space rest = true.
Proof.
  intros S E. split.
  - revert E. unfold Lexer.re_token, Lexer.or_else.
    destruct (Lexer.re_exponential s) as [[t r]|] eqn:E1.
    { intros [= <- <-] K.
      now elim (kind_of_literal _ (re_exponential_literal _ _ _ E1)). }
    destruct (Lexer.re_decimal s) as [[t r]|] eqn:E2.
    { intros [= <- <-] K.
      now elim (kind_of_literal _ (re_decimal_literal _ _ _ E2)). }
    destruct (Lexer.re_fraction s) as [[t r]|] eqn:E3.
    { intros [= <- <-] K.
      now elim (kind_of_literal _ (re_fraction_literal _ _ _ E3)). }
    intros H. destruct (re_any_split _ _ _ H) as (c & -> & -> & L).
    simpl in S. apply andb_prop in S as [Sc _].
    apply negb_true_iff in Sc. now apply single_char_other.
  - destruct (re_token_split _ _ _ E) as (-> & _).
    rewrite no_stray_space_app in S. now apply andb_prop in S as [_ S].
Qed.

Lemma match_all_good fuel s :
  no_stray_space s = true -> Forall good_token (Lexer.match_all fuel s).
Proof.
  revert s. induction fuel as [|fuel IH]; intros s S; simpl; [constructor|].
  destruct s as [|c r]; [constructor|].
  destruct (Lexer.re_token (String c r)) as [[tok rest]|] eqn:E.
  - destruct (re_token_good _ _ _ S E) as (G & S').
    constructor; [assumption | now apply IH].
  - apply IH. simpl in S. now apply andb_prop in S as [_ S].
Qed.

End Tokenizer.

(* ================================================================= *)
(** ** The token loop accepts what the grammar accepts *)

Section Scan.

Local Open Scope string_scope.

Lemma kind_of_unfold c :
  Grammar.kind_of c =
  if Lib.is_blank c then Grammar.KBlank
  else if String.eqb c "+" || String.eqb c "-" then Grammar.KSign
  else if Lib.is_i c then Grammar.KUnit
  else if Grammar.is_numeric_literal c then Grammar.KNumber
  else Grammar.KOther.
Proof. reflexivity. Qed.

Lemma is_unit_is_i next : Grammar.is_unit next = Lib.is_i next.
Proof.
  unfold Grammar.is_unit. rewrite kind_of_unfold. unfold Lib.is_i.
  destruct (String.eqb_spec next "i") as [->|Ni]; [reflexivity|].
  destruct (String.eqb_spec next "I") as [->|NI]; [reflexivity|].
  simpl. destruct (Lib.is_blank next); [reflexivity|].
  destruct (String.eqb next "+" || String.eqb next "-"); [reflexivity|].
  now destruct (Grammar.is_numeric_literal next).
Qed.

(** After an [i]: the code takes the next token when it is not [' ']
    and [isNaN] accepts it; that is a number, or a blank the grammar
    skips anyway. *)
Lemma lookahead_taken next :
  good_token next ->
  negb (String.eqb next " ") && negb (Global.isNaN_string next) = true ->
  Grammar.is_number next = true \/ Grammar.kind_of next = Grammar.KBlank.
Proof.
  intros G H. apply andb_prop in H as [_ H]. apply negb_true_iff in H.
  unfold Grammar.is_number.
  destruct (Grammar.kind_of next) eqn:K; auto; exfalso.
  - rewrite kind_of_unfold in K. destruct (Lib.is_blank next); [discriminate|].
    destruct (String.eqb_spec next "+") as [->|]; [discriminate H|].
    destruct (String.eqb_spec next "-") as [->|]; [discriminate H|].
    simpl in K. destruct (Lib.is_i next); [discriminate|].
    now destruct (Grammar.is_numeric_literal next).
  - rewrite kind_of_unfold in K. destruct (Lib.is_blank next); [discriminate|].
    destruct (String.eqb next "+" || String.eqb next "-"); [discriminate|].
    unfold Lib.is_i in K.
    destruct (String.eqb_spec next "i") as [->|]; [discriminate H|].
    destruct (String.eqb_spec next "I") as [->|]; [discriminate H|].
    simpl in K. now destruct (Grammar.is_numeric_literal next).
  - rewrite (G K) in H. discriminate.
Qed.

Lemma lookahead_number next :
  Grammar.is_number next = true ->
  negb (String.eqb next " ") && negb (Global.isNaN_string next) = true.
Proof.
  unfold Grammar.is_number. intros H.
  destruct (String.eqb_spec next " ") as [->|_]; [discriminate H|].
  rewrite kind_of_unfold in H.
  destruct (Lib.is_blank next); [discriminate|].
  destruct (String.eqb next "+" || String.eqb next "-"); [discriminate|].
  destruct (Lib.is_i next); [discriminate|].
  destruct (Grammar.is_numeric_literal next) eqn:L; [|discriminate].
  now rewrite (literal_not_nan _ L).
Qed.

Lemma pending_sign p m : (0 <? p + m)%nat = negb (p + m =? 0)%nat.
Proof. destruct (p + m)%nat; reflexivity. Qed.

Lemma scan_accepts_bounded n tokens :
  (List.length tokens <= n)%nat ->
  Forall good_token tokens ->
  forall p m re im,
    scan_done (Lib.scan tokens p m re im)
    = Grammar.accepts tokens (0 <? p + m)%nat.
Proof.
  revert tokens. induction n as [|n IH]; intros tokens L G p m re im.
  { destruct tokens; [|simpl in L; lia]. simpl.
    now destruct (0 <? p + m)%nat. }
  destruct tokens as [|c rest].
  { simpl. now destruct (0 <? p + m)%nat. }
  inversion G as [|? ? Gc Grest]; subst. simpl in L.
  assert (Lrest : (List.length rest <= n)%nat) by lia.
  cbn [Lib.scan Grammar.accepts]. rewrite kind_of_unfold.
  destruct (Lib.is_blank c) eqn:B; [now apply IH|].
  destruct (String.eqb c "+") eqn:Eplus.
  { simpl. now rewrite IH. }
  destruct (String.eqb c "-") eqn:Eminus.
  { simpl. rewrite IH by assumption. f_equal.
    rewrite Nat.add_succ_r. reflexivity. }
  simpl orb. cbv iota.
  destruct (Lib.is_i c) eqn:Ei.
  - (* the imaginary unit *)
    rewrite pending_sign.
    destruct (p + m =? 0)%nat; [reflexivity|]. simpl negb. simpl andb.
    destruct rest as [|next rest']; [now rewrite IH|].
    inversion Grest as [|? ? Gnext Grest']; subst. simpl in Lrest.
    destruct (negb (String.eqb next " ")
              && negb (Global.isNaN_string next)) eqn:T.
    + rewrite IH by (assumption || lia).
      destruct (lookahead_taken next Gnext T) as [N | K].
      * now rewrite N.
      * destruct (Grammar.is_number next); [reflexivity|].
        cbn [Grammar.accepts]. now rewrite K.
    + rewrite IH by (assumption || (simpl; lia)).
      destruct (Grammar.is_number next) eqn:N; [|reflexivity].
      rewrite (lookahead_number next N) in T. discriminate.
  - (* a number, or something else *)
    rewrite pending_sign.
    destruct (Grammar.is_numeric_literal c) eqn:Lc.
    + rewrite (literal_not_nan c Lc), orb_false_r.
      destruct (p + m =? 0)%nat; [reflexivity|]. simpl negb. simpl andb.
      destruct rest as [|next rest']; [now rewrite IH|].
      inversion Grest as [|? ? Gnext Grest']; subst. simpl in Lrest.
      rewrite is_unit_is_i.
      destruct (Lib.is_i next).
      * now rewrite IH by (assumption || lia).
      * now rewrite IH by (assumption || (simpl; lia)).
    + assert (K : Grammar.kind_of c = Grammar.KOther).
      { rewrite kind_of_unfold. now rewrite B, Eplus, Eminus, Ei, Lc. }
      rewrite (Gc K), orb_true_r. reflexivity.
Qed.

Lemma scan_accepts tokens :
  Forall good_token tokens ->
  scan_done (Lib.scan tokens 1 0 0 0) = Grammar.accepts tokens true.
Proof.
  intros G. now apply (scan_accepts_bounded (List.length tokens)).
Qed.

End Scan.

(* ================================================================= *)
(** ** When [parse] and the constructor raise *)

Section Raises.

Context {host : Platform}.

Local Open Scope string_scope.

Lemma nt_ret {A} (a : A) : no_throw (ret a).
Proof. intros s e msg. discriminate. Qed.

Lemma nt_unmodelled {A} : no_throw (@unmodelled A).
Proof. intros s e msg. discriminate. Qed.

Lemma nt_bind {A B} (m : M A) (k : A -> M B) :
  no_throw m -> (forall a, no_throw (k a)) -> no_throw (bind m k).
Proof.
  intros Hm Hk s e msg. unfold bind. specialize (Hm s).
  destruct (m s) as [[a| |] s1]; simpl in *.
  - apply Hk.
  - now elim (Hm error message).
  - discriminate.
Qed.

Lemma nt_get_prop l k : no_throw (get_prop l k).
Proof.
  intros s e msg. unfold get_prop.
  destruct (nth_error (heap s) l); discriminate.
Qed.

Lemma nt_set_prop l k v : no_throw (set_prop l k v).
Proof.
  intros s e msg. unfold set_prop.
  destruct (nth_error (heap s) l); discriminate.
Qed.

Lemma nt_set_P_re v : no_throw (set_P_re v).
Proof. intros s e msg. discriminate. Qed.

Lemma nt_set_P_im v : no_throw (set_P_im v).
Proof. intros s e msg. discriminate. Qed.

Lemma nt_num v : no_throw (num v).
Proof. destruct v; first [apply nt_ret | apply nt_unmodelled]. Qed.

Lemma nt_zget z k : no_throw (zget z k).
Proof. destruct z; [intros s e msg; discriminate | apply nt_get_prop]. Qed.

Lemma nt_ToNumber v : no_throw (Global.ToNumber v).
Proof. destruct v; first [apply nt_ret | apply nt_unmodelled]. Qed.

Lemma nt_isNaN v : no_throw (Global.isNaN v).
Proof. apply nt_bind; [apply nt_ToNumber | intros; apply nt_ret]. Qed.

Lemma nt_isFinite v : no_throw (Global.isFinite v).
Proof. apply nt_bind; [apply nt_ToNumber | intros; apply nt_ret]. Qed.

Lemma nt_andM m1 m2 : no_throw m1 -> no_throw m2 -> no_throw (andM m1 m2).
Proof.
  intros H1 H2. apply nt_bind; [assumption|]. intros []; [assumption | apply nt_ret].
Qed.

Lemma nt_orM m1 m2 : no_throw m1 -> no_throw m2 -> no_throw (orM m1 m2).
Proof.
  intros H1 H2. apply nt_bind; [assumption|]. intros []; [apply nt_ret | assumption].
Qed.

Create HintDb nt.

#[local] Hint Resolve nt_ret nt_unmodelled nt_get_prop nt_set_prop
  nt_set_P_re nt_set_P_im nt_num nt_zget nt_ToNumber nt_isNaN nt_isFinite : nt.

Ltac nt_step :=
  match goal with
  | |- no_throw (bind _ _) => apply nt_bind; [|intros]
  | |- no_throw (andM _ _) => apply nt_andM
  | |- no_throw (orM _ _) => apply nt_orM
  | |- no_throw (if ?b then _ else _) => destruct b
  | |- no_throw _ => solve [auto with nt]
  end.

Lemma nt_parse_return : no_throw Lib.parse_return.
Proof. unfold Lib.parse_return. repeat nt_step. Qed.

#[local] Hint Resolve nt_parse_return : nt.

Lemma nt_parse_polar abs arg : no_throw (Lib.parse_polar abs arg).
Proof. unfold Lib.parse_polar. repeat nt_step. Qed.

#[local] Hint Resolve nt_parse_polar : nt.

Lemma raises_parser_exit {A} s : raises (fst (@Lib.parser_exit A s)).
Proof. reflexivity. Qed.

Lemma no_throw_not_raises {A} (m : M A) s : no_throw m -> ~ raises (fst (m s)).
Proof. intros H R. exact (H s _ _ R). Qed.

Ltac quiet :=
  let R := fresh in
  intros R; exfalso; revert R; apply no_throw_not_raises; repeat nt_step.

(** Text (lines 179-237): the loop exits exactly on the texts the
    grammar does not accept, stray white space apart. *)
Lemma parse_string_raises a s :
  no_stray_space a = true ->
  raises (fst (Lib.parse_string a s)) <-> Grammar.well_formed_text a = false.
Proof.
  intros S. unfold Lib.parse_string, Grammar.well_formed_text.
  unfold bind at 1 2. simpl.
  destruct (Lexer.tokenize a) as [tokens|] eqn:T.
  - assert (G : Forall good_token tokens).
    { unfold Lexer.tokenize in T.
      pose proof (match_all_good
                    (String.length (Lexer.remove_underscores a))
                    (Lexer.remove_underscores a)
                    (no_stray_space_remove_underscores a S)) as G.
      destruct (Lexer.match_all _ _); [discriminate|].
      now injection T as <-. }
    rewrite <- (scan_accepts tokens G).
    destruct (Lib.scan tokens 1 0 0 0) as [re im | re im]; simpl.
    + split; [|discriminate]. intros R. exfalso. revert R.
      unfold bind; simpl. rewrite parse_return_primitive by reflexivity.
      discriminate.
    + split; [reflexivity|]. intros _. reflexivity.
  - split; [reflexivity|]. intros _. reflexivity.
Qed.

Lemma has_prop_at s l o k :
  nth_error (heap s) l = Some o ->
  has_prop l k s = (Normal (has_property o k), s).
Proof. intros H. unfold has_prop. now rewrite H. Qed.

Lemma has_pair_at s l o k1 k2 :
  nth_error (heap s) l = Some o ->
  andM (has_prop l k1) (has_prop l k2) s
  = (Normal (has_property o k1 && has_property o k2), s).
Proof.
  intros H. unfold andM.
  rewrite (bind_Normal _ _ _ _ _ (has_prop_at s l o k1 H)).
  destruct (has_property o k1); [now apply has_prop_at | reflexivity].
Qed.

(** Objects (lines 154-177): only one with none of the key pairs and a
    [length] other than [2] raises. *)
Lemma parse_object_raises l o s :
  nth_error (heap s) l = Some o ->
  raises (fst (Lib.parse_object l s)) <-> Grammar.recognized_object o = false.
Proof.
  intros H. unfold Lib.parse_object, Grammar.recognized_object, Grammar.has_pair.
  rewrite (bind_Normal _ _ _ _ _ (has_pair_at s l o "im" "re" H)).
  rewrite (andb_comm (has_property o "re")).
  destruct (has_property o "im" && has_property o "re").
  { simpl. split; [|discriminate].
    quiet. }
  rewrite (bind_Normal _ _ _ _ _ (has_pair_at s l o "abs" "arg" H)).
  destruct (has_property o "abs" && has_property o "arg").
  { simpl. split; [|discriminate].
    quiet. }
  rewrite (bind_Normal _ _ _ _ _ (has_pair_at s l o "r" "phi" H)).
  destruct (has_property o "r" && has_property o "phi").
  { simpl. split; [|discriminate].
    quiet. }
  assert (E : get_prop l "length" s = (Normal (get_property o "length"), s)).
  { unfold get_prop. now rewrite H. }
  rewrite (bind_Normal _ _ _ _ _ E).
  destruct (strict_eq_num (get_property o "length") 2).
  { simpl. split; [|discriminate].
    quiet. }
  simpl. split; reflexivity.
Qed.

(** [parse] raises exactly on the inputs the specification does not
    recognise. *)
Lemma parse_raises a b s :
  plain_argument s a ->
  raises (fst (Lib.parse a b s)) <-> Grammar.recognized s a b = false.
Proof.
  intros Pa. unfold Lib.parse, Grammar.recognized.
  destruct (is_undefined a || is_null a) eqn:Ha.
  { assert (E : (if negb (is_undefined b) then true
                 else match a with
                      | VUndefined | VNull | VNum _ => true
                      | VObj l => match nth_error (heap s) l with
                                  | Some o => Grammar.recognized_object o
                                  | None => false
                                  end
                      | VStr t => Grammar.well_formed_text t
                      | VBool _ | VFunction | VBigInt _ | VSymbol _ => false
                      end) = true).
    { destruct (negb (is_undefined b)); [reflexivity|].
      now destruct a. }
    rewrite E. split; [|discriminate].
    quiet. }
  destruct (negb (is_undefined b)).
  { split; [|discriminate]. quiet. }
  destruct a as [| |v|x|t|l| |n|id]; try discriminate Ha.
  - split; reflexivity.
  - split; [|discriminate]. quiet.
  - now apply parse_string_raises.
  - simpl in Pa. destruct (nth_error (heap s) l) as [o|] eqn:E.
    + now apply parse_object_raises.
    + apply nth_error_None in E. lia.
  - split; reflexivity.
  - split; reflexivity.
  - split; reflexivity.
Qed.

End Raises.

Section Constructor.

Context {host : Platform}.

Local Open Scope string_scope.

Lemma nth_error_grown {A} (h : list A) x l :
  (l < List.length h)%nat -> nth_error (h ++ [x]) l = nth_error h l.
Proof. intros H. now apply nth_error_app1. Qed.

(** The constructor (lines 260-270, with [parse], lines 141-254) raises
    the [SyntaxError] of [parser_exit] exactly on the inputs section 4.1
    does not recognise, for an argument of any type whose text, when it
    is a string (of code units below U+0100, as all strings here), has no
    vertical tab, form feed or no-break space: one argument that is a
    boolean, a BigInt, a Symbol or a function, a text the grammar
    rejects, an object with none of the key pairs and a [length] other
    than [2].  On every other such input the constructor does not raise
    that error. *)
Theorem Complex_raises_iff (a b : value) (s : store) :
  plain_argument s a ->
  raises (fst (Lib.Complex a b s)) <-> Grammar.recognized s a b = false.
Proof.
  intros Pa.
  set (s1 := mkStore (P_re s) (P_im s)
                     (heap s ++ [mkObject Complex_prototype []])).
  assert (P1 : plain_argument s1 a).
  { destruct a; simpl in *; try exact Pa.
    rewrite length_app. simpl. lia. }
  assert (R1 : Grammar.recognized s1 a b = Grammar.recognized s a b).
  { unfold Grammar.recognized. destruct a; try reflexivity.
    simpl in Pa. simpl heap. now rewrite nth_error_grown. }
  rewrite <- R1, <- (parse_raises a b s1 P1).
  unfold Lib.Complex. unfold bind at 1. unfold alloc. fold s1.
  unfold bind at 1.
  destruct (Lib.parse a b s1) as [[z|e msg|] s2]; simpl.
  - split; intros R; exfalso; revert R; [|discriminate].
    apply no_throw_not_raises.
    apply nt_bind; [apply nt_zget|intros].
    apply nt_bind; [apply nt_set_prop|intros].
    apply nt_bind; [apply nt_zget|intros].
    apply nt_bind; [apply nt_set_prop|intros].
    apply nt_ret.
  - unfold raises. split; intros R; injection R as -> ->; reflexivity.
  - split; discriminate.
Qed.

End Constructor.

(* ================================================================= *)
(** * Further properties of the code *)

(** ** Binary64 facts *)

Section FloatAlgebra.

Lemma opp_involutive (x : float) : (- - x = x)%float.
Proof.
  apply Prim2SF_inj. rewrite !opp_spec.
  destruct (Prim2SF x); simpl; now rewrite ?negb_involutive.
Qed.

Lemma abs_opp (x : float) : PrimFloat.abs (- x) = PrimFloat.abs x.
Proof.
  apply Prim2SF_inj. rewrite !abs_spec, opp_spec.
  now destruct (Prim2SF x).
Qed.

Lemma SFadd_comm x y : SF64add x y = SF64add y x.
Proof.
  unfold SF64add, SFadd.
  destruct x as [sx|sx| |sx mx ex], y as [sy|sy| |sy my ey]; try reflexivity.
  - destruct sx, sy; reflexivity.
  - destruct sx, sy; reflexivity.
  - rewrite (Z.min_comm ey ex). f_equal. apply Z.add_comm.
Qed.

Lemma add_comm (x y : float) : (x + y = y + x)%float.
Proof. apply Prim2SF_inj. rewrite !add_spec. apply SFadd_comm. Qed.

Lemma SFmul_comm x y : SF64mul x y = SF64mul y x.
Proof.
  unfold SF64mul, SFmul.
  destruct x as [sx|sx| |sx mx ex], y as [sy|sy| |sy my ey];
    try reflexivity; try (now rewrite xorb_comm).
  rewrite (xorb_comm sy sx), (Pos.mul_comm my mx), (Z.add_comm ey ex).
  reflexivity.
Qed.

Lemma mul_comm (x y : float) : (x * y = y * x)%float.
Proof. apply Prim2SF_inj. rewrite !mul_spec. apply SFmul_comm. Qed.

End FloatAlgebra.

Section Arithmetic.

Context {host : Platform}.

Local Open Scope float_scope.

Ltac run H := rewrite (bind_Normal _ _ _ _ _ H).

Lemma zholds_P re im h : zholds (mkStore re im h) ZP re im.
Proof. now split. Qed.

Lemma holds_P s t re im x y :
  holds s t re im -> holds (mkStore x y (heap s)) t re im.
Proof. now apply holds_heap. Qed.

Lemma holds_lt s t re im : holds s t re im -> (t < List.length (heap s))%nat.
Proof.
  intros [H _]. unfold field in H.
  destruct (nth_error (heap s) t) eqn:E; [|discriminate].
  apply nth_error_Some. now rewrite E.
Qed.

Lemma holds_grown s t re im x y o :
  holds s t re im -> holds (mkStore x y (heap s ++ [o])) t re im.
Proof.
  intros H. pose proof (holds_lt _ _ _ _ H) as L. destruct H as [Hr Hi].
  unfold holds, field in *. simpl.
  now rewrite nth_error_app1 by exact L.
Qed.

Lemma add_run s t a b z s1 tre tim zre zim :
  holds s t (VNum tre) (VNum tim) ->
  Lib.parse a b s = (Normal z, s1) ->
  zholds s1 z (VNum zre) (VNum zim) ->
  prototype.add t a b s =
  (if infinite_pair tre tim || infinite_pair zre zim then
     if infinite_pair tre tim && infinite_pair zre zim then ret Complex_NAN
     else ret Complex_INFINITY
   else prototype.new_Complex (tre + zre) (tim + zim)) s1.
Proof.
  intros Ht Hp Hz.
  pose proof (holds_after_parse _ _ _ _ _ _ _ _ Hp Ht) as Ht1.
  unfold prototype.add. run Hp.
  run (isInfinite_num _ _ _ _ Ht1). run (zInfinite_num _ _ _ _ Hz).
  destruct (infinite_pair tre tim || infinite_pair zre zim); [reflexivity|].
  destruct Ht1 as [Hr Hi].
  run (get_num_field _ _ _ _ Hr). run (get_num_field _ _ _ _ Hi).
  run (znum_re _ _ _ _ Hz). run (znum_im _ _ _ _ Hz).
  reflexivity.
Qed.

Lemma sub_run s t a b z s1 tre tim zre zim :
  holds s t (VNum tre) (VNum tim) ->
  Lib.parse a b s = (Normal z, s1) ->
  zholds s1 z (VNum zre) (VNum zim) ->
  prototype.sub t a b s =
  (if infinite_pair tre tim || infinite_pair zre zim then
     if infinite_pair tre tim && infinite_pair zre zim then ret Complex_NAN
     else ret Complex_INFINITY
   else prototype.new_Complex (tre - zre) (tim - zim)) s1.
Proof.
  intros Ht Hp Hz.
  pose proof (holds_after_parse _ _ _ _ _ _ _ _ Hp Ht) as Ht1.
  unfold prototype.sub. run Hp.
  run (isInfinite_num _ _ _ _ Ht1). run (zInfinite_num _ _ _ _ Hz).
  destruct (infinite_pair tre tim || infinite_pair zre zim); [reflexivity|].
  destruct Ht1 as [Hr Hi].
  run (get_num_field _ _ _ _ Hr). run (get_num_field _ _ _ _ Hi).
  run (znum_re _ _ _ _ Hz). run (znum_im _ _ _ _ Hz).
  reflexivity.
Qed.

Lemma mul_run s t a b z s1 tre tim zre zim :
  holds s t (VNum tre) (VNum tim) ->
  Lib.parse a b s = (Normal z, s1) ->
  zholds s1 z (VNum zre) (VNum zim) ->
  prototype.mul t a b s =
  (if infinite_pair tre tim && zero_pair zre zim
      || infinite_pair zre zim && zero_pair tre tim then ret Complex_NAN
   else if infinite_pair tre tim || infinite_pair zre zim
        then ret Complex_INFINITY
   else if (zim =? 0) && (tim =? 0) then prototype.new_Complex (tre * zre) 0
   else prototype.new_Complex (tre * zre - tim * zim)
                              (tre * zim + tim * zre)) s1.
Proof.
  intros Ht Hp Hz.
  pose proof (holds_after_parse _ _ _ _ _ _ _ _ Hp Ht) as Ht1.
  unfold prototype.mul. run Hp.
  run (isInfinite_num _ _ _ _ Ht1). run (zInfinite_num _ _ _ _ Hz).
  run (tIsZero_num _ _ _ _ Ht1). run (zIsZero_num _ _ _ _ Hz).
  destruct (infinite_pair tre tim && zero_pair zre zim
            || infinite_pair zre zim && zero_pair tre tim); [reflexivity|].
  destruct (infinite_pair tre tim || infinite_pair zre zim); [reflexivity|].
  destruct Ht1 as [Hr Hi].
  run (get_num_field _ _ _ _ Hr). run (get_num_field _ _ _ _ Hi).
  run (znum_re _ _ _ _ Hz). run (znum_im _ _ _ _ Hz).
  reflexivity.
Qed.

(** [t.add(u)] and [u.add(t)], for two Complex objects that read
    Numbers, return the same thing and leave the same heap: the same
    shared constant, or a new object with the same two components. *)
Theorem add_commutes s t u tre tim ure uim :
  holds s t (VNum tre) (VNum tim) ->
  holds s u (VNum ure) (VNum uim) ->
  fst (prototype.add t (VObj u) VUndefined s)
  = fst (prototype.add u (VObj t) VUndefined s)
  /\ heap (snd (prototype.add t (VObj u) VUndefined s))
     = heap (snd (prototype.add u (VObj t) VUndefined s))
  /\ exists l, fst (prototype.add t (VObj u) VUndefined s) = Normal l.
Proof.
  intros Ht Hu.
  rewrite (add_run _ _ _ _ _ _ _ _ _ _ Ht (parse_complex_operand _ _ _ _ Hu)
             (zholds_P _ _ _)).
  rewrite (add_run _ _ _ _ _ _ _ _ _ _ Hu (parse_complex_operand _ _ _ _ Ht)
             (zholds_P _ _ _)).
  destruct (infinite_pair tre tim), (infinite_pair ure uim); simpl;
    try (repeat split; eexists; reflexivity).
  rewrite !new_Complex_run. simpl.
  rewrite (add_comm ure tre), (add_comm uim tim).
  repeat split. eexists; reflexivity.
Qed.

(** [t.mul(u)] and [u.mul(t)], for two Complex objects that read
    Numbers, return the same thing and leave the same heap: the same
    shared constant, or a new object with the same two components. *)
Theorem mul_commutes s t u tre tim ure uim :
  holds s t (VNum tre) (VNum tim) ->
  holds s u (VNum ure) (VNum uim) ->
  fst (prototype.mul t (VObj u) VUndefined s)
  = fst (prototype.mul u (VObj t) VUndefined s)
  /\ heap (snd (prototype.mul t (VObj u) VUndefined s))
     = heap (snd (prototype.mul u (VObj t) VUndefined s))
  /\ exists l, fst (prototype.mul t (VObj u) VUndefined s) = Normal l.
Proof.
  intros Ht Hu.
  rewrite (mul_run _ _ _ _ _ _ _ _ _ _ Ht (parse_complex_operand _ _ _ _ Hu)
             (zholds_P _ _ _)).
  rewrite (mul_run _ _ _ _ _ _ _ _ _ _ Hu (parse_complex_operand _ _ _ _ Ht)
             (zholds_P _ _ _)).
  rewrite (orb_comm (infinite_pair ure uim && zero_pair tre tim)).
  rewrite (orb_comm (infinite_pair ure uim) (infinite_pair tre tim)).
  rewrite (andb_comm (tim =? 0) (uim =? 0)).
  destruct (infinite_pair tre tim && zero_pair ure uim
            || infinite_pair ure uim && zero_pair tre tim);
    [repeat split; eexists; reflexivity|].
  destruct (infinite_pair tre tim || infinite_pair ure uim);
    [repeat split; eexists; reflexivity|].
  destruct ((uim =? 0) && (tim =? 0)); rewrite !new_Complex_run; simpl.
  - rewrite (mul_comm ure tre). repeat split. eexists; reflexivity.
  - rewrite (mul_comm ure tre), (mul_comm uim tim).
    rewrite (mul_comm ure tim), (mul_comm uim tre).
    rewrite (add_comm (tim * ure) (tre * uim)).
    repeat split. eexists; reflexivity.
Qed.


Lemma sub_diag (x : float) : is_finite x = true -> x - x = 0.
Proof.
  intros H. apply Prim2SF_inj. now rewrite (sub_diag_finite x H).
Qed.

(** [t.sub(t)]: a new Complex reading [(0, 0)] when [t] is finite, and
    the object [Complex.NAN] when it is not. *)
Theorem sub_self s t re im :
  holds s t (VNum re) (VNum im) ->
  (finite_pair re im = true ->
   exists l s',
     prototype.sub t (VObj t) VUndefined s = (Normal l, s')
     /\ l = List.length (heap s)
     /\ holds s' l (VNum 0) (VNum 0))
  /\ (finite_pair re im = false ->
      fst (prototype.sub t (VObj t) VUndefined s) = Normal Complex_NAN).
Proof.
  intros Ht.
  rewrite (sub_run _ _ _ _ _ _ _ _ _ _ Ht (parse_complex_operand _ _ _ _ Ht)
             (zholds_P _ _ _)).
  unfold infinite_pair. split; intros F; rewrite F; simpl.
  - rewrite new_Complex_run. eexists _, _.
    split; [reflexivity|]. split; [reflexivity|].
    unfold finite_pair in F. apply andb_true_iff in F as [Fr Fi].
    rewrite (sub_diag re Fr), (sub_diag im Fi).
    apply (holds_new (mkStore (VNum re) (VNum im) (heap s))).
  - reflexivity.
Qed.

(** [add] and [sub] by cases: two infinite operands give the object
    [Complex.NAN], one infinite operand gives [Complex.INFINITY], and two
    finite ones a new Complex with the componentwise sum or difference.
    "Infinite" is what [isInfinite] answers, so it includes NaN. *)
Theorem add_sub_cases s t a b z s1 tre tim zre zim :
  holds s t (VNum tre) (VNum tim) ->
  Lib.parse a b s = (Normal z, s1) ->
  zholds s1 z (VNum zre) (VNum zim) ->
  let tInfin := infinite_pair tre tim in
  let zInfin := infinite_pair zre zim in
  (tInfin && zInfin = true ->
   prototype.add t a b s = (Normal Complex_NAN, s1)
   /\ prototype.sub t a b s = (Normal Complex_NAN, s1))
  /\ (tInfin && zInfin = false -> tInfin || zInfin = true ->
      prototype.add t a b s = (Normal Complex_INFINITY, s1)
      /\ prototype.sub t a b s = (Normal Complex_INFINITY, s1))
  /\ (tInfin || zInfin = false ->
      exists l sa ss,
        l = List.length (heap s)
        /\ prototype.add t a b s = (Normal l, sa)
        /\ holds sa l (VNum (tre + zre)) (VNum (tim + zim))
        /\ prototype.sub t a b s = (Normal l, ss)
        /\ holds ss l (VNum (tre - zre)) (VNum (tim - zim))).
Proof.
  intros Ht Hp Hz tInfin zInfin.
  rewrite (add_run _ _ _ _ _ _ _ _ _ _ Ht Hp Hz).
  rewrite (sub_run _ _ _ _ _ _ _ _ _ _ Ht Hp Hz).
  fold tInfin zInfin.
  split; [|split].
  - intros E. apply andb_true_iff in E as [-> ->]. now split.
  - intros E1 E2. rewrite E1, E2. now split.
  - intros E. rewrite E. rewrite !new_Complex_run.
    rewrite <- (parse_heap _ _ _ _ _ Hp).
    eexists _, _, _. split; [reflexivity|].
    split; [reflexivity|]. split; [apply holds_new|].
    split; [reflexivity | apply holds_new].
Qed.

(** [mul] by cases: infinity times zero is the object [Complex.NAN];
    otherwise an infinite operand gives [Complex.INFINITY]; two operands
    on the real axis give [(tre * zre, 0)]; otherwise the product is
    [(tre * zre - tim * zim, tre * zim + tim * zre)]. *)
Theorem mul_cases s t a b z s1 tre tim zre zim :
  holds s t (VNum tre) (VNum tim) ->
  Lib.parse a b s = (Normal z, s1) ->
  zholds s1 z (VNum zre) (VNum zim) ->
  let tInfin := infinite_pair tre tim in
  let zInfin := infinite_pair zre zim in
  let tZero := zero_pair tre tim in
  let zZero := zero_pair zre zim in
  (tInfin && zZero || zInfin && tZero = true ->
   prototype.mul t a b s = (Normal Complex_NAN, s1))
  /\ (tInfin && zZero || zInfin && tZero = false ->
      tInfin || zInfin = true ->
      prototype.mul t a b s = (Normal Complex_INFINITY, s1))
  /\ (tInfin || zInfin = false ->
      exists l s2,
        prototype.mul t a b s = (Normal l, s2)
        /\ l = List.length (heap s)
        /\ ((zim =? 0) && (tim =? 0) = true ->
            holds s2 l (VNum (tre * zre)) (VNum 0))
        /\ ((zim =? 0) && (tim =? 0) = false ->
            holds s2 l (VNum (tre * zre - tim * zim))
                       (VNum (tre * zim + tim * zre)))).
Proof.
  intros Ht Hp Hz tInfin zInfin tZero zZero.
  rewrite (mul_run _ _ _ _ _ _ _ _ _ _ Ht Hp Hz).
  fold tInfin zInfin tZero zZero.
  split; [|split].
  - now intros ->.
  - now intros -> ->.
  - intros E. rewrite E.
    apply orb_false_iff in E as [-> ->]. simpl.
    rewrite <- (parse_heap _ _ _ _ _ Hp).
    destruct ((zim =? 0) && (tim =? 0)); rewrite new_Complex_run;
      eexists _, _; (split; [reflexivity|]); (split; [reflexivity|]);
      split; intros D; try discriminate D; apply holds_new.
Qed.

End Arithmetic.

(* ================================================================= *)
(** ** Construction from objects *)

Section Construction.

Context {host : Platform}.

Local Open Scope string_scope.

Ltac run H := rewrite (bind_Normal _ _ _ _ _ H).

(** The store in which the body of the constructor starts: [new] has
    created [this]. *)
Lemma Complex_of_parse a b s z s1 re im :
  Lib.parse a b (mkStore (P_re s) (P_im s)
                   (heap s ++ [mkObject Complex_prototype []]))
  = (Normal z, s1) ->
  zholds s1 z re im ->
  match z with ZObj l => (l < List.length (heap s))%nat | ZP => True end ->
  Lib.Complex a b s =
  (Normal (List.length (heap s)),
   mkStore (P_re s1) (P_im s1) (heap s ++ [complex_object re im])).
Proof.
  intros Hp Hz L. pose proof (parse_heap _ _ _ _ _ Hp) as Hh. simpl in Hh.
  unfold Lib.Complex, bind at 1, alloc. run Hp.
  run (zget_re _ _ _ _ Hz).
  unfold bind at 1, set_prop. rewrite Hh, nth_error_last, list_update_last.
  assert (Hz' : zholds (mkStore (P_re s1) (P_im s1)
                  (heap s ++ [set_property (mkObject Complex_prototype [])
                                           "re" re])) z re im).
  { destruct z as [|l]; [exact Hz|].
    destruct Hz as [Hr Hi]. unfold zholds, holds, field in *.
    rewrite Hh in Hr, Hi.
    simpl heap. rewrite nth_error_app1 in Hr, Hi by exact L.
    rewrite nth_error_app1 by exact L. now split. }
  run (zget_im _ _ _ _ Hz'). unfold bind, set_prop, ret. simpl.
  rewrite nth_error_last, list_update_last. reflexivity.
Qed.


Lemma holds_alloc s t re im o :
  holds s t re im ->
  holds (mkStore (P_re s) (P_im s) (heap s ++ [o])) t re im.
Proof. apply holds_grown. Qed.

(** [new Complex(z)] for a Complex [z] reading two Numbers. *)
Lemma Complex_copy s t re im :
  holds s t (VNum re) (VNum im) ->
  Lib.Complex (VObj t) VUndefined s =
  (Normal (List.length (heap s)),
   mkStore (VNum re) (VNum im)
           (heap s ++ [complex_object (VNum re) (VNum im)])).
Proof.
  intros Ht.
  apply (Complex_of_parse _ _ _ ZP
           (mkStore (VNum re) (VNum im)
                    (heap s ++ [mkObject Complex_prototype []]))).
  - now rewrite (parse_complex_operand _ t re im) by now apply holds_alloc.
  - now split.
  - exact I.
Qed.

(** [t.clone()] and [new Complex(t)], for a Complex [t] that reads two
    Numbers, each return a new object, distinct from [t], that reads the
    same two Numbers; [t] still reads them afterwards. *)
Theorem clone_is_a_fresh_copy s t re im :
  holds s t (VNum re) (VNum im) ->
  (exists l s',
      prototype.clone t s = (Normal l, s')
      /\ l = List.length (heap s) /\ l <> t
      /\ holds s' l (VNum re) (VNum im)
      /\ holds s' t (VNum re) (VNum im))
  /\ (exists l s',
         Lib.Complex (VObj t) VUndefined s = (Normal l, s')
         /\ l = List.length (heap s) /\ l <> t
         /\ holds s' l (VNum re) (VNum im)
         /\ holds s' t (VNum re) (VNum im)).
Proof.
  intros Ht. pose proof (holds_lt _ _ _ _ Ht) as L.
  split.
  - unfold prototype.clone. destruct Ht as [Hr Hi].
    run (get_prop_field _ _ _ _ Hr). run (get_prop_field _ _ _ _ Hi).
    rewrite Complex_two_arguments by reflexivity.
    eexists _, _. split; [reflexivity|]. split; [reflexivity|].
    split; [lia|]. split; [apply holds_new|].
    apply holds_grown. now split.
  - rewrite (Complex_copy _ _ _ _ Ht).
    eexists _, _. split; [reflexivity|]. split; [reflexivity|].
    split; [lia|]. split; [apply holds_new|].
    now apply holds_grown.
Qed.

Lemma get_prop_at s l o k :
  nth_error (heap s) l = Some o ->
  get_prop l k s = (Normal (get_property o k), s).
Proof. intros H. unfold get_prop. now rewrite H. Qed.

(** The branches of [parse] on an object, once the key tests are made. *)
Lemma parse_object_cartesian s l o :
  nth_error (heap s) l = Some o ->
  has_property o "im" && has_property o "re" = true ->
  primitive (get_property o "re") = true ->
  primitive (get_property o "im") = true ->
  Lib.parse_object l s =
  (Normal ZP, mkStore (get_property o "re") (get_property o "im") (heap s)).
Proof.
  intros N B1 P0 P1. unfold Lib.parse_object.
  run (has_pair_at s _ _ "im" "re" N). rewrite B1.
  run (get_prop_at s _ _ "re" N).
  unfold bind at 1, set_P_re.
  rewrite (bind_Normal _ _ _ _ _
             (get_prop_at (mkStore _ (P_im s) (heap s)) _ _ "im" N)).
  unfold bind at 1, set_P_im. simpl.
  now rewrite parse_return_primitive.
Qed.

Lemma parse_object_array s l o :
  nth_error (heap s) l = Some o ->
  has_property o "im" && has_property o "re" = false ->
  has_property o "abs" && has_property o "arg" = false ->
  has_property o "r" && has_property o "phi" = false ->
  strict_eq_num (get_property o "length") 2 = true ->
  primitive (get_property o "0") = true ->
  primitive (get_property o "1") = true ->
  Lib.parse_object l s =
  (Normal ZP, mkStore (get_property o "0") (get_property o "1") (heap s)).
Proof.
  intros N B1 B2 B3 B4 P0 P1. unfold Lib.parse_object.
  run (has_pair_at s _ _ "im" "re" N). rewrite B1.
  run (has_pair_at s _ _ "abs" "arg" N). rewrite B2.
  run (has_pair_at s _ _ "r" "phi" N). rewrite B3.
  run (get_prop_at s _ _ "length" N). rewrite B4.
  run (get_prop_at s _ _ "0" N).
  unfold bind at 1, set_P_re.
  rewrite (bind_Normal _ _ _ _ _
             (get_prop_at (mkStore _ (P_im s) (heap s)) _ _ "1" N)).
  unfold bind at 1, set_P_im. simpl.
  now rewrite parse_return_primitive.
Qed.

(** [t.toVector()] is a new array [[re, im]] of length [2], and
    [new Complex(t.toVector())] reads the same two Numbers as [t]. *)
Theorem toVector_round_trip s t re im :
  holds s t (VNum re) (VNum im) ->
  exists v s1 l s2,
    prototype.toVector t s = (Normal v, s1)
    /\ v = List.length (heap s)
    /\ field s1 v "0" = Some (VNum re)
    /\ field s1 v "1" = Some (VNum im)
    /\ field s1 v "length" = Some (VNum 2)
    /\ Lib.Complex (VObj v) VUndefined s1 = (Normal l, s2)
    /\ l = S v
    /\ holds s2 l (VNum re) (VNum im).
Proof.
  intros [Hr Hi]. unfold prototype.toVector.
  run (get_prop_field _ _ _ _ Hr). run (get_prop_field _ _ _ _ Hi).
  unfold alloc. fold (vector_object (VNum re) (VNum im)).
  set (s1 := mkStore (P_re s) (P_im s)
                     (heap s ++ [vector_object (VNum re) (VNum im)])).
  assert (F : forall k, field s1 (List.length (heap s)) k
                        = Some (get_property
                                  (vector_object (VNum re) (VNum im)) k)).
  { intros k. unfold field, s1. simpl. now rewrite nth_error_last. }
  assert (E : Lib.Complex (VObj (List.length (heap s))) VUndefined s1 =
              (Normal (List.length (heap s1)),
               mkStore (VNum re) (VNum im)
                 (heap s1 ++ [complex_object (VNum re) (VNum im)]))).
  { apply (Complex_of_parse _ _ _ ZP
             (mkStore (VNum re) (VNum im)
                      (heap s1 ++ [mkObject Complex_prototype []])));
      [|now split|exact I].
    unfold Lib.parse; simpl.
    rewrite (parse_object_array _ _ (vector_object (VNum re) (VNum im)));
      try reflexivity.
    simpl. rewrite nth_error_app1.
    - apply nth_error_last.
    - rewrite length_app. simpl. lia. }
  exists (List.length (heap s)), s1, (List.length (heap s1)).
  eexists. split; [reflexivity|]. split; [reflexivity|].
  split; [apply F|]. split; [apply F|]. split; [apply F|].
  split; [exact E|]. split.
  - unfold s1. simpl. rewrite length_app. simpl. lia.
  - apply (holds_new (mkStore (VNum re) (VNum im) (heap s1))).
Qed.

End Construction.

Section Polar.

Context {host : Platform}.

Local Open Scope string_scope.

Ltac run H := rewrite (bind_Normal _ _ _ _ _ H).

Lemma parse_polar_run r phi s :
  Lib.parse_polar (VNum r) (VNum phi) s =
  if negb (is_finite r) && is_finite phi
  then (Normal (ZObj Complex_INFINITY), s)
  else (Normal ZP, mkStore (VNum (r * Math_cos phi)%float)
                           (VNum (r * Math_sin phi)%float) (heap s)).
Proof.
  unfold Lib.parse_polar, andM, Global.isFinite, bind; simpl.
  destruct (is_finite r); simpl.
  - now rewrite parse_return_primitive.
  - destruct (is_finite phi); simpl; [reflexivity|].
    now rewrite parse_return_primitive.
Qed.

Lemma parse_object_abs_arg s l o r phi :
  nth_error (heap s) l = Some o ->
  has_property o "im" && has_property o "re" = false ->
  get_property o "abs" = VNum r ->
  get_property o "arg" = VNum phi ->
  Lib.parse_object l s = Lib.parse_polar (VNum r) (VNum phi) s.
Proof.
  intros N B1 Hr Hphi. unfold Lib.parse_object.
  run (has_pair_at s _ _ "im" "re" N). rewrite B1.
  run (has_pair_at s _ _ "abs" "arg" N).
  rewrite (has_property_num _ _ _ Hr), (has_property_num _ _ _ Hphi). simpl.
  run (get_prop_at s _ _ "abs" N). run (get_prop_at s _ _ "arg" N).
  now rewrite Hr, Hphi.
Qed.

Lemma parse_object_r_phi s l o r phi :
  nth_error (heap s) l = Some o ->
  has_property o "im" && has_property o "re" = false ->
  has_property o "abs" && has_property o "arg" = false ->
  get_property o "r" = VNum r ->
  get_property o "phi" = VNum phi ->
  Lib.parse_object l s = Lib.parse_polar (VNum r) (VNum phi) s.
Proof.
  intros N B1 B2 Hr Hphi. unfold Lib.parse_object.
  run (has_pair_at s _ _ "im" "re" N). rewrite B1.
  run (has_pair_at s _ _ "abs" "arg" N). rewrite B2.
  run (has_pair_at s _ _ "r" "phi" N).
  rewrite (has_property_num _ _ _ Hr), (has_property_num _ _ _ Hphi). simpl.
  run (get_prop_at s _ _ "r" N). run (get_prop_at s _ _ "phi" N).
  now rewrite Hr, Hphi.
Qed.

Lemma holds_last h p q (x y : value) :
  holds (mkStore p q (h ++ [complex_object x y])) (List.length h) x y.
Proof. unfold holds, field; simpl. now rewrite nth_error_last. Qed.

(** What the constructor makes of a polar operand. *)
Lemma Complex_polar s l r phi :
  (l < List.length (heap s))%nat ->
  holds s Complex_INFINITY (VNum infinity) (VNum infinity) ->
  (forall s0, heap s0 = (heap s ++ [mkObject Complex_prototype []])%list ->
     Lib.parse (VObj l) VUndefined s0
     = Lib.parse_polar (VNum r) (VNum phi) s0) ->
  exists c s',
    Lib.Complex (VObj l) VUndefined s = (Normal c, s')
    /\ c = List.length (heap s)
    /\ (negb (is_finite r) && is_finite phi = true ->
        holds s' c (VNum infinity) (VNum infinity))
    /\ (negb (is_finite r) && is_finite phi = false ->
        holds s' c (VNum (r * Math_cos phi)%float)
                   (VNum (r * Math_sin phi)%float)).
Proof.
  intros L Hinf Hp.
  set (s0 := mkStore (P_re s) (P_im s)
                     (heap s ++ [mkObject Complex_prototype []])).
  specialize (Hp s0 eq_refl). rewrite parse_polar_run in Hp.
  destruct (negb (is_finite r) && is_finite phi).
  - rewrite (Complex_of_parse _ _ _ _ _ (VNum infinity) (VNum infinity) Hp).
    + eexists _, _. split; [reflexivity|]. split; [reflexivity|].
      split; [intros _; apply holds_last | discriminate].
    + now apply holds_alloc.
    + now apply holds_lt in Hinf.
  - rewrite (Complex_of_parse _ _ _ _ _ _ _ Hp (zholds_P _ _ _) I).
    eexists _, _. split; [reflexivity|]. split; [reflexivity|].
    split; [discriminate|].
    intros _. apply holds_last.
Qed.

(** [new Complex({abs: r, arg: phi})] and [new Complex({r: r, phi: phi})],
    for an object without both [re] and [im] (and, for the second, without
    both [abs] and [arg]) whose radius and angle are Numbers: a new
    Complex reading [(r * cos(phi), r * sin(phi))] unless the radius is
    not finite (an infinity or NaN) and the angle is finite, when it
    reads what [Complex.INFINITY] reads. *)
Theorem polar_construction s l o r phi :
  nth_error (heap s) l = Some o ->
  holds s Complex_INFINITY (VNum infinity) (VNum infinity) ->
  has_property o "im" && has_property o "re" = false ->
  (get_property o "abs" = VNum r /\ get_property o "arg" = VNum phi)
  \/ (has_property o "abs" && has_property o "arg" = false
      /\ get_property o "r" = VNum r /\ get_property o "phi" = VNum phi) ->
  exists c s',
    Lib.Complex (VObj l) VUndefined s = (Normal c, s')
    /\ c = List.length (heap s)
    /\ (negb (is_finite r) && is_finite phi = true ->
        holds s' c (VNum infinity) (VNum infinity))
    /\ (negb (is_finite r) && is_finite phi = false ->
        holds s' c (VNum (r * Math_cos phi)%float)
                   (VNum (r * Math_sin phi)%float)).
Proof.
  intros N Hinf B1 Hkeys.
  assert (L : (l < List.length (heap s))%nat).
  { apply nth_error_Some. now rewrite N. }
  apply Complex_polar; [exact L | exact Hinf |].
  intros s0 Hs0.
  assert (N0 : nth_error (heap s0) l = Some o).
  { rewrite Hs0. now rewrite nth_error_app1. }
  unfold Lib.parse; simpl.
  destruct Hkeys as [[Hr Hphi] | (B2 & Hr & Hphi)].
  - now apply parse_object_abs_arg with o.
  - now apply parse_object_r_phi with o.
Qed.

End Polar.

(* ================================================================= *)
(** ** Unary operations *)

Section Unary.

Context {host : Platform}.

Local Open Scope string_scope.
Local Open Scope float_scope.

Ltac run H := rewrite (bind_Normal _ _ _ _ _ H).

(** A method that reads the two Numbers and builds one new Complex. *)
Lemma unary_run (f : float -> float -> M loc) s t re im :
  holds s t (VNum re) (VNum im) ->
  (a <- get_num t "re" ;; b <- get_num t "im" ;; f a b)%js s = f re im s.
Proof.
  intros [Hr Hi].
  run (get_num_field _ _ _ _ Hr). now run (get_num_field _ _ _ _ Hi).
Qed.

Lemma neg_run s t re im :
  holds s t (VNum re) (VNum im) ->
  prototype.neg t s =
  (Normal (List.length (heap s)),
   mkStore (VNum (- re)) (VNum (- im))
           (heap s ++ [complex_object (VNum (- re)) (VNum (- im))])).
Proof.
  intros Ht. unfold prototype.neg.
  rewrite (unary_run (fun a b => prototype.new_Complex (- a) (- b)) _ _ _ _ Ht).
  apply new_Complex_run.
Qed.

Lemma conjugate_run s t re im :
  holds s t (VNum re) (VNum im) ->
  prototype.conjugate t s =
  (Normal (List.length (heap s)),
   mkStore (VNum re) (VNum (- im))
           (heap s ++ [complex_object (VNum re) (VNum (- im))])).
Proof.
  intros [Hr Hi]. unfold prototype.conjugate.
  run (get_prop_field _ _ _ _ Hr). run (get_num_field _ _ _ _ Hi).
  now apply Complex_two_arguments.
Qed.

(** [neg] and [conjugate] are involutions: [t.neg().neg()] and
    [t.conjugate().conjugate()] are new objects that read exactly the
    two Numbers [t] reads. *)
Theorem neg_conjugate_involutive s t re im :
  holds s t (VNum re) (VNum im) ->
  (exists l1 s1 l2 s2,
      prototype.neg t s = (Normal l1, s1)
      /\ holds s1 l1 (VNum (- re)) (VNum (- im))
      /\ prototype.neg l1 s1 = (Normal l2, s2)
      /\ holds s2 l2 (VNum re) (VNum im))
  /\ (exists l1 s1 l2 s2,
         prototype.conjugate t s = (Normal l1, s1)
         /\ holds s1 l1 (VNum re) (VNum (- im))
         /\ prototype.conjugate l1 s1 = (Normal l2, s2)
         /\ holds s2 l2 (VNum re) (VNum im)).
Proof.
  intros Ht. split.
  - pose proof (holds_last (heap s) (VNum (- re)) (VNum (- im))
                           (VNum (- re)) (VNum (- im))) as H1.
    eexists _, _, _, _. split; [apply (neg_run _ _ _ _ Ht)|].
    split; [exact H1|]. split; [apply (neg_run _ _ _ _ H1)|].
    rewrite !opp_involutive. apply holds_last.
  - pose proof (holds_last (heap s) (VNum re) (VNum (- im))
                           (VNum re) (VNum (- im))) as H1.
    eexists _, _, _, _. split; [apply (conjugate_run _ _ _ _ Ht)|].
    split; [exact H1|]. split; [apply (conjugate_run _ _ _ _ H1)|].
    rewrite !opp_involutive. apply holds_last.
Qed.

Lemma abs_run s t re im :
  holds s t (VNum re) (VNum im) ->
  prototype.abs t s = (Normal (Lib.hypot re im), s).
Proof.
  intros [Hr Hi]. unfold prototype.abs.
  run (get_num_field _ _ _ _ Hr). now run (get_num_field _ _ _ _ Hi).
Qed.

Lemma hypot_opp_l x y : Lib.hypot (- x) y = Lib.hypot x y.
Proof. unfold Lib.hypot, Math_abs. now rewrite abs_opp. Qed.

Lemma hypot_opp_r x y : Lib.hypot x (- y) = Lib.hypot x y.
Proof. unfold Lib.hypot, Math_abs. now rewrite abs_opp. Qed.

(** [abs] does not see the signs of the components: [t.neg().abs()] and
    [t.conjugate().abs()] are the very Number [t.abs()] is, on every
    host. *)
Theorem abs_ignores_signs s t re im :
  holds s t (VNum re) (VNum im) ->
  exists r,
    prototype.abs t s = (Normal r, s)
    /\ (exists l s1,
           prototype.neg t s = (Normal l, s1)
           /\ prototype.abs l s1 = (Normal r, s1))
    /\ (exists l s1,
           prototype.conjugate t s = (Normal l, s1)
           /\ prototype.abs l s1 = (Normal r, s1)).
Proof.
  intros Ht. exists (Lib.hypot re im).
  split; [now apply abs_run|]. split.
  - eexists _, _. split; [apply (neg_run _ _ _ _ Ht)|].
    rewrite (abs_run _ _ (- re) (- im)) by apply holds_last.
    now rewrite hypot_opp_l, hypot_opp_r.
  - eexists _, _. split; [apply (conjugate_run _ _ _ _ Ht)|].
    rewrite (abs_run _ _ re (- im)) by apply holds_last.
    now rewrite hypot_opp_r.
Qed.

Lemma nan_not_finite x : is_nan x = true -> is_finite x = false.
Proof. unfold is_finite. now intros ->. Qed.

Lemma nan_not_zero x : is_nan x = true -> (x =? 0) = false.
Proof.
  intros H. rewrite eqb_spec. apply Prim2SF_nan in H. now rewrite H.
Qed.

(** [inverse] by cases: the inverse of zero is the object
    [Complex.INFINITY]; the inverse of anything not finite, NaN
    included, is the object [Complex.ZERO]; otherwise it is a new Complex
    reading [(a / d, -b / d)] with [d = a * a + b * b]. *)
Theorem inverse_cases s t a b :
  holds s t (VNum a) (VNum b) ->
  (zero_pair a b = true ->
   prototype.inverse t s = (Normal Complex_INFINITY, s))
  /\ (zero_pair a b = false -> finite_pair a b = false ->
      prototype.inverse t s = (Normal Complex_ZERO, s))
  /\ (nan_pair a b = true ->
      prototype.inverse t s = (Normal Complex_ZERO, s))
  /\ (zero_pair a b = false -> finite_pair a b = true ->
      exists l s',
        prototype.inverse t s = (Normal l, s')
        /\ l = List.length (heap s)
        /\ holds s' l (VNum (a / (a * a + b * b)))
                      (VNum (- b / (a * a + b * b)))).
Proof.
  intros Ht.
  assert (E : prototype.inverse t s =
              (if zero_pair a b then ret Complex_INFINITY
               else if infinite_pair a b then ret Complex_ZERO
               else prototype.new_Complex (a / (a * a + b * b))
                                          (- b / (a * a + b * b))) s).
  { unfold prototype.inverse. run (isZero_num _ _ _ _ Ht).
    destruct (zero_pair a b); [reflexivity|].
    run (isInfinite_num _ _ _ _ Ht).
    destruct (infinite_pair a b); [reflexivity|].
    destruct Ht as [Hr Hi].
    run (get_num_field _ _ _ _ Hr). now run (get_num_field _ _ _ _ Hi). }
  rewrite E. unfold infinite_pair. repeat split.
  - now intros ->.
  - now intros -> ->.
  - intros N.
    assert (Z : zero_pair a b = false).
    { unfold zero_pair, nan_pair in *.
      destruct (is_nan a) eqn:Na; [now rewrite (nan_not_zero a Na)|].
      simpl in N. rewrite (nan_not_zero b N). apply andb_false_r. }
    assert (F : finite_pair a b = false).
    { unfold finite_pair, nan_pair in *.
      destruct (is_nan a) eqn:Na; [now rewrite (nan_not_finite a Na)|].
      simpl in N. rewrite (nan_not_finite b N). apply andb_false_r. }
    now rewrite Z, F.
  - intros -> ->. simpl. rewrite new_Complex_run.
    eexists _, _. split; [reflexivity|]. split; [reflexivity|].
    apply holds_new.
Qed.

End Unary.

(* ================================================================= *)
(** ** What the methods throw *)

Create HintDb nothrow.

Section Errors.

Context {host : Platform}.

Local Open Scope string_scope.

#[local] Hint Resolve nt_ret nt_unmodelled nt_get_prop nt_set_prop
  nt_set_P_re nt_set_P_im nt_num nt_zget nt_ToNumber nt_isNaN nt_isFinite
  nt_parse_return nt_parse_polar : nothrow.

Ltac nt_step :=
  match goal with
  | |- no_throw (bind _ _) => apply nt_bind; [|intros]
  | |- no_throw (andM _ _) => apply nt_andM
  | |- no_throw (orM _ _) => apply nt_orM
  | |- no_throw (if ?b then _ else _) => destruct b
  | |- no_throw _ => solve [auto with nothrow]
  end.

Ltac nt := cbv zeta; repeat nt_step.

Lemma nt_alloc o : no_throw (alloc o).
Proof. intros s e msg. discriminate. Qed.

Lemma nt_get_num l k : no_throw (get_num l k).
Proof. unfold get_num. nt. Qed.

Lemma nt_znum z k : no_throw (prototype.znum z k).
Proof. unfold prototype.znum. nt. Qed.

Lemma nt_has_prop l k : no_throw (has_prop l k).
Proof.
  intros s e msg. unfold has_prop.
  destruct (nth_error (heap s) l); discriminate.
Qed.

#[local] Hint Resolve nt_alloc nt_get_num nt_znum nt_has_prop : nothrow.

(** With a second argument that is a Number the constructor does not
    reach [parser_exit]. *)
Lemma nt_Complex_second a y : no_throw (Lib.Complex a (VNum y)).
Proof.
  unfold Lib.Complex. nt_step; [auto with nothrow|]. nt_step; [|nt].
  unfold Lib.parse. destruct (is_undefined a || is_null a); simpl; nt.
Qed.

Lemma nt_new_Complex x y : no_throw (prototype.new_Complex x y).
Proof. apply nt_Complex_second. Qed.

#[local] Hint Resolve nt_Complex_second nt_new_Complex : nothrow.

Lemma nt_isNaN_method t : no_throw (prototype.isNaN t).
Proof. unfold prototype.isNaN. nt. Qed.
Lemma nt_isZero t : no_throw (prototype.isZero t).
Proof. unfold prototype.isZero. nt. Qed.
Lemma nt_isFinite_method t : no_throw (prototype.isFinite t).
Proof. unfold prototype.isFinite. nt. Qed.
Lemma nt_isInfinite t : no_throw (prototype.isInfinite t).
Proof. unfold prototype.isInfinite. nt_step; [apply nt_isFinite_method|nt]. Qed.
Lemma nt_zInfinite z : no_throw (prototype.zInfinite z).
Proof. unfold prototype.zInfinite. nt. Qed.
Lemma nt_tIsZero t : no_throw (prototype.tIsZero t).
Proof. unfold prototype.tIsZero. nt. Qed.
Lemma nt_zIsZero z : no_throw (prototype.zIsZero z).
Proof. unfold prototype.zIsZero. nt. Qed.

#[local] Hint Resolve nt_isNaN_method nt_isZero nt_isFinite_method
  nt_isInfinite nt_zInfinite nt_tIsZero nt_zIsZero : nothrow.

Lemma nt_sign t : no_throw (prototype.sign t).
Proof. unfold prototype.sign. nt. Qed.
Lemma nt_sqrt t : no_throw (prototype.sqrt t).
Proof. unfold prototype.sqrt. nt. Qed.
Lemma nt_exp t : no_throw (prototype.exp t).
Proof. unfold prototype.exp. nt. Qed.
Lemma nt_expm1 t : no_throw (prototype.expm1 t).
Proof. unfold prototype.expm1. nt. Qed.
Lemma nt_log t : no_throw (prototype.log t).
Proof. unfold prototype.log. nt. Qed.
Lemma nt_abs t : no_throw (prototype.abs t).
Proof. unfold prototype.abs. nt. Qed.
Lemma nt_arg t : no_throw (prototype.arg t).
Proof. unfold prototype.arg. nt. Qed.
Lemma nt_sin t : no_throw (prototype.sin t).
Proof. unfold prototype.sin. nt. Qed.
Lemma nt_cos t : no_throw (prototype.cos t).
Proof. unfold prototype.cos. nt. Qed.
Lemma nt_tan t : no_throw (prototype.tan t).
Proof. unfold prototype.tan. nt. Qed.
Lemma nt_cot t : no_throw (prototype.cot t).
Proof. unfold prototype.cot. nt. Qed.
Lemma nt_sec t : no_throw (prototype.sec t).
Proof. unfold prototype.sec. nt. Qed.
Lemma nt_csc t : no_throw (prototype.csc t).
Proof. unfold prototype.csc. nt. Qed.

#[local] Hint Resolve nt_sqrt nt_log : nothrow.

Lemma nt_asin t : no_throw (prototype.asin t).
Proof. unfold prototype.asin. nt. Qed.
Lemma nt_acos t : no_throw (prototype.acos t).
Proof. unfold prototype.acos. nt. Qed.
Lemma nt_atan t : no_throw (prototype.atan t).
Proof. unfold prototype.atan. nt. Qed.
Lemma nt_reciprocal a b : no_throw (prototype.reciprocal a b).
Proof. unfold prototype.reciprocal. nt. Qed.

#[local] Hint Resolve nt_asin nt_acos nt_atan nt_reciprocal : nothrow.

Lemma nt_acot t : no_throw (prototype.acot t).
Proof. unfold prototype.acot. nt. Qed.
Lemma nt_asec t : no_throw (prototype.asec t).
Proof. unfold prototype.asec. nt. Qed.
Lemma nt_acsc t : no_throw (prototype.acsc t).
Proof. unfold prototype.acsc. nt. Qed.
Lemma nt_sinh t : no_throw (prototype.sinh t).
Proof. unfold prototype.sinh. nt. Qed.
Lemma nt_cosh t : no_throw (prototype.cosh t).
Proof. unfold prototype.cosh. nt. Qed.
Lemma nt_tanh t : no_throw (prototype.tanh t).
Proof. unfold prototype.tanh. nt. Qed.
Lemma nt_coth t : no_throw (prototype.coth t).
Proof. unfold prototype.coth. nt. Qed.
Lemma nt_csch t : no_throw (prototype.csch t).
Proof. unfold prototype.csch. nt. Qed.
Lemma nt_sech t : no_throw (prototype.sech t).
Proof. unfold prototype.sech. nt. Qed.
Lemma nt_asinh t : no_throw (prototype.asinh t).
Proof. unfold prototype.asinh. nt. Qed.
Lemma nt_acosh t : no_throw (prototype.acosh t).
Proof. unfold prototype.acosh. nt. Qed.
Lemma nt_atanh t : no_throw (prototype.atanh t).
Proof. unfold prototype.atanh. nt. Qed.

#[local] Hint Resolve nt_asinh nt_acosh nt_atanh : nothrow.

Lemma nt_acoth t : no_throw (prototype.acoth t).
Proof. unfold prototype.acoth. nt. Qed.
Lemma nt_acsch t : no_throw (prototype.acsch t).
Proof. unfold prototype.acsch. nt. Qed.
Lemma nt_asech t : no_throw (prototype.asech t).
Proof. unfold prototype.asech. nt. Qed.
Lemma nt_inverse t : no_throw (prototype.inverse t).
Proof. unfold prototype.inverse. nt. Qed.
Lemma nt_conjugate t : no_throw (prototype.conjugate t).
Proof. unfold prototype.conjugate. nt. Qed.
Lemma nt_neg t : no_throw (prototype.neg t).
Proof. unfold prototype.neg. nt. Qed.
Lemma nt_scale p : no_throw (prototype.scale p).
Proof. unfold prototype.scale. nt. Qed.

#[local] Hint Resolve nt_scale : nothrow.

Lemma nt_ceil t p : no_throw (prototype.ceil t p).
Proof. unfold prototype.ceil. nt. Qed.
Lemma nt_floor t p : no_throw (prototype.floor t p).
Proof. unfold prototype.floor. nt. Qed.
Lemma nt_round t p : no_throw (prototype.round t p).
Proof. unfold prototype.round. nt. Qed.
Lemma nt_toString t : no_throw (prototype.toString t).
Proof. unfold prototype.toString. nt. Qed.
Lemma nt_toVector t : no_throw (prototype.toVector t).
Proof. unfold prototype.toVector. nt. Qed.
Lemma nt_valueOf t : no_throw (prototype.valueOf t).
Proof. unfold prototype.valueOf. nt. Qed.

Lemma nt_as_obj m : no_throw m -> no_throw (prototype.as_obj m).
Proof. intros H. unfold prototype.as_obj. nt. Qed.
Lemma nt_as_bool m : no_throw m -> no_throw (prototype.as_bool m).
Proof. intros H. unfold prototype.as_bool. nt. Qed.
Lemma nt_as_num m : no_throw m -> no_throw (prototype.as_num m).
Proof. intros H. unfold prototype.as_num. nt. Qed.
Lemma nt_as_str m : no_throw m -> no_throw (prototype.as_str m).
Proof. intros H. unfold prototype.as_str. nt. Qed.

#[local] Hint Resolve nt_sign nt_exp nt_expm1 nt_abs nt_arg nt_sin nt_cos
  nt_tan nt_cot nt_sec nt_csc nt_acot nt_asec nt_acsc nt_sinh nt_cosh
  nt_tanh nt_coth nt_csch nt_sech nt_acoth nt_acsch nt_asech nt_inverse
  nt_conjugate nt_neg nt_ceil nt_floor nt_round nt_toString nt_toVector
  nt_valueOf : nothrow.


Lemma oip_no_throw {A} (m : M A) :
  no_throw m -> throws_only_invalid_param m.
Proof. intros N s e msg H. now elim (N s e msg). Qed.

Lemma oip_bind {A B} (m : M A) (k : A -> M B) :
  throws_only_invalid_param m ->
  (forall a, throws_only_invalid_param (k a)) ->
  throws_only_invalid_param (bind m k).
Proof.
  intros Hm Hk s e msg. unfold bind. specialize (Hm s).
  destruct (m s) as [[a|e' msg'|] s1]; simpl in *.
  - apply Hk.
  - intros _. pose proof (Hm e' msg' eq_refl) as R. unfold raises in *.
    injection R as -> ->. reflexivity.
  - discriminate.
Qed.

Lemma oip_parser_exit {A} : throws_only_invalid_param (@Lib.parser_exit A).
Proof. intros s e msg _. reflexivity. Qed.

Ltac oip_step :=
  match goal with
  | |- throws_only_invalid_param Lib.parser_exit => apply oip_parser_exit
  | |- throws_only_invalid_param (bind _ _) => apply oip_bind; [|intros]
  | |- throws_only_invalid_param (if ?b then _ else _) => destruct b
  | |- throws_only_invalid_param (match ?x with _ => _ end) => destruct x
  | |- throws_only_invalid_param _ => solve [apply oip_no_throw; nt]
  end.

(** Whatever [parse] throws is what [parser_exit] throws. *)
Lemma parse_throws_only_invalid_param a b :
  throws_only_invalid_param (Lib.parse a b).
Proof.
  unfold Lib.parse, Lib.parse_string, Lib.parse_object. repeat oip_step.
Qed.

(** So for the constructor. *)
Lemma Complex_throws_only_invalid_param a b :
  throws_only_invalid_param (Lib.Complex a b).
Proof.
  unfold Lib.Complex. oip_step; [apply oip_no_throw; nt|].
  oip_step; [apply parse_throws_only_invalid_param|].
  apply oip_no_throw; nt.
Qed.

(** A method that starts with [parse] and cannot throw afterwards throws
    exactly when [parse] does, and then leaves the store [parse] left. *)
Lemma throws_in_parse {B} a b (k : zref -> M B) s e msg :
  (forall z, no_throw (k z)) ->
  fst (bind (Lib.parse a b) k s) = Throw e msg ->
  fst (Lib.parse a b s) = Throw e msg
  /\ heap (snd (bind (Lib.parse a b) k s)) = heap s.
Proof.
  intros N. unfold bind.
  destruct (Lib.parse a b s) as [[z|e' msg'|] s1] eqn:E; simpl.
  - intros H. now elim (N z s1 e msg).
  - intros H. injection H as -> ->. split; [reflexivity|].
    exact (parse_heap _ _ _ _ _ E).
  - discriminate.
Qed.


Lemma wrapped_throws_in_parse {A B} a b (k : zref -> M A) (f : A -> M B)
      s e msg :
  (forall z, no_throw (k z)) -> (forall x, no_throw (f x)) ->
  fst (bind (bind (Lib.parse a b) k) f s) = Throw e msg ->
  fst (Lib.parse a b s) = Throw e msg
  /\ heap (snd (bind (bind (Lib.parse a b) k) f s)) = heap s.
Proof.
  intros Nk Nf H.
  assert (E : bind (bind (Lib.parse a b) k) f s
              = bind (Lib.parse a b) (fun z => bind (k z) f) s).
  { unfold bind. now destruct (Lib.parse a b s) as [[z| |] s1]. }
  rewrite E in *. revert H. apply throws_in_parse.
  intros z. now apply nt_bind.
Qed.

Ltac never_throws :=
  let H := fresh in
  intros H; exfalso; revert H;
  first [ apply nt_as_obj | apply nt_as_bool | apply nt_as_num
        | apply nt_as_str | apply nt_valueOf ];
  solve [auto with nothrow].

Ltac through_parse :=
  let H := fresh in
  intros H;
  split; [|split; [reflexivity|intros _]];
  [ | revert H; apply wrapped_throws_in_parse; intros; nt ];
  match type of H with
  | fst (?m ?s) = Throw ?e ?msg =>
      assert (R : raises (fst (m s)));
      [ revert H; apply oip_bind;
        [ unfold prototype.add, prototype.sub, prototype.mul, prototype.div,
            prototype.pow, prototype.equals;
          apply oip_bind;
          [ apply parse_throws_only_invalid_param
          | intros; apply oip_no_throw; nt ]
        | intros; apply oip_no_throw; nt ]
      | rewrite H in R; now injection R as -> -> ]
  end.


End Errors.

(* ================================================================= *)
(** ** Singular points *)

Section Singular.

Context {host : Platform}.

Local Open Scope string_scope.

Local Open Scope float_scope.

Ltac run H := rewrite (bind_Normal _ _ _ _ _ H).

Lemma SFeqb_finite_eq x s m e :
  SFeqb x (S754_finite s m e) = true -> x = S754_finite s m e.
Proof.
  unfold SFeqb, SFcompare.
  destruct x as [sx|sx| |sx mx ex]; try discriminate;
    try (destruct sx; discriminate); try (destruct s; discriminate).
  destruct sx, s; try discriminate;
    (destruct (Z.compare ex e) eqn:Ce; try discriminate);
    (destruct (PosDef.Pos.compare_cont Eq mx m) eqn:Cm; try discriminate);
    intros _; apply Z.compare_eq in Ce; apply Pos.compare_eq in Cm;
    now subst.
Qed.

Lemma eqb_finite_eq (x y : float) s m e :
  Prim2SF y = S754_finite s m e -> (x =? y) = true -> x = y.
Proof.
  intros Hy H. rewrite eqb_spec, Hy in H.
  apply Prim2SF_inj. rewrite Hy. now apply SFeqb_finite_eq.
Qed.

Lemma eqb_one x : (x =? 1) = true -> x = 1.
Proof. now apply (eqb_finite_eq x 1 false 4503599627370496%positive (-52)%Z). Qed.

Lemma eqb_minus_one x : (x =? -1) = true -> x = (-1).
Proof. now apply (eqb_finite_eq x (-1) true 4503599627370496%positive (-52)%Z). Qed.

Lemma creates_new x y s : creates (prototype.new_Complex x y) s x y.
Proof.
  exists (mkStore (VNum x) (VNum y)
                  (heap s ++ [complex_object (VNum x) (VNum y)])).
  split; [apply new_Complex_run | apply holds_new].
Qed.

(** The values the inverse functions take at their singular points, on
    every host.  [atan] at [i] and [-i] is [(0, Infinity)] and
    [(0, -Infinity)]; [atanh] at [1] and [-1] is [(Infinity, 0)] and
    [(-Infinity, 0)]; at zero (either sign of either component) [atanh]
    and [asinh] are [(0, 0)], [acsch] is [(Infinity, 0)], [asec] is
    [(0, Infinity)], [acsc] is [(PI / 2, Infinity)], [acoth] is
    [(0, PI / 2)], each a new Complex, and [asech] is the object
    [Complex.INFINITY]. *)
Theorem inverse_functions_at_singular_points s t re im :
  holds s t (VNum re) (VNum im) ->
  ((re =? 0) && (im =? 1) = true ->
   creates (prototype.atan t) s 0 infinity)
  /\ ((re =? 0) && (im =? -1) = true ->
      creates (prototype.atan t) s 0 neg_infinity)
  /\ ((im =? 0) && (re =? 1) = true ->
      creates (prototype.atanh t) s infinity 0)
  /\ ((im =? 0) && (re =? -1) = true ->
      creates (prototype.atanh t) s neg_infinity 0)
  /\ (zero_pair re im = true ->
      creates (prototype.atanh t) s 0 0
      /\ creates (prototype.asinh t) s 0 0
      /\ creates (prototype.acsch t) s infinity 0
      /\ creates (prototype.asec t) s 0 infinity
      /\ creates (prototype.acsc t) s (Math_PI / 2) infinity
      /\ creates (prototype.acoth t) s 0 (Math_PI / 2)
      /\ prototype.asech t s = (Normal Complex_INFINITY, s)).
Proof.
  intros Ht. pose proof Ht as [Hr Hi].
  split; [|split; [|split; [|split]]].
  - intros E. unfold creates, prototype.atan.
    run (get_num_field _ _ _ _ Hr). run (get_num_field _ _ _ _ Hi). rewrite E. apply creates_new.
  - intros E. apply andb_true_iff in E as [E0 E1].
    unfold creates, prototype.atan.
    run (get_num_field _ _ _ _ Hr). run (get_num_field _ _ _ _ Hi).
    rewrite E0. replace (im =? 1) with false
      by now rewrite (eqb_minus_one _ E1).
    rewrite E1. apply creates_new.
  - intros E. apply andb_true_iff in E as [E0 E1].
    unfold creates, prototype.atanh.
    run (get_num_field _ _ _ _ Hr). run (get_num_field _ _ _ _ Hi).
    rewrite E0. replace (re =? 0) with false by now rewrite (eqb_one _ E1).
    rewrite E1. apply creates_new.
  - intros E. apply andb_true_iff in E as [E0 E1].
    unfold creates, prototype.atanh.
    run (get_num_field _ _ _ _ Hr). run (get_num_field _ _ _ _ Hi).
    rewrite E0.
    replace (re =? 0) with false by now rewrite (eqb_minus_one _ E1).
    replace (re =? 1) with false by now rewrite (eqb_minus_one _ E1).
    rewrite E1. apply creates_new.
  - intros E. unfold zero_pair in E. pose proof E as E'.
    apply andb_true_iff in E' as [E0 E1].
    repeat split.
    + unfold creates, prototype.atanh. run (get_num_field _ _ _ _ Hr). run (get_num_field _ _ _ _ Hi).
      rewrite E0, E1. apply creates_new.
    + unfold creates, prototype.asinh. run (get_num_field _ _ _ _ Hr). run (get_num_field _ _ _ _ Hi).
      rewrite E0, E1. apply creates_new.
    + unfold creates, prototype.acsch. run (get_num_field _ _ _ _ Hr). run (get_num_field _ _ _ _ Hi).
      rewrite E0, E1. apply creates_new.
    + unfold creates, prototype.asec. run (get_num_field _ _ _ _ Hr). run (get_num_field _ _ _ _ Hi).
      rewrite E. apply creates_new.
    + unfold creates, prototype.acsc. run (get_num_field _ _ _ _ Hr). run (get_num_field _ _ _ _ Hi).
      rewrite E. apply creates_new.
    + unfold creates, prototype.acoth. run (get_num_field _ _ _ _ Hr). run (get_num_field _ _ _ _ Hi).
      rewrite E. apply creates_new.
    + unfold prototype.asech. run (isZero_num _ _ _ _ Ht).
      unfold zero_pair. now rewrite E.
Qed.

End Singular.

Section EqualsFinite.

Context {host : Platform}.

Local Open Scope string_scope.

Local Open Scope float_scope.

Lemma not_finite_SF x :
  is_finite x = false ->
  Prim2SF x = S754_nan \/ exists s, Prim2SF x = S754_infinity s.
Proof.
  unfold is_finite, is_nan, is_infinity.
  rewrite !eqb_spec, abs_spec.
  change (Prim2SF infinity) with (S754_infinity false).
  destruct (Prim2SF x) as [s|s| |s m e]; simpl; try discriminate.
  - intros _. right. now exists s.
  - intros _. now left.
  - assert (R : SFeqb (S754_finite s m e) (S754_finite s m e) = true).
    { unfold SFeqb, SFcompare.
      rewrite Z.compare_refl, Pos.compare_cont_refl. now destruct s. }
    rewrite R. discriminate.
Qed.

Lemma close_not_finite x y :
  is_finite x && is_finite y = false -> close x y = false.
Proof.
  intros H. unfold close, Math_abs.
  rewrite leb_spec, abs_spec, sub_spec.
  set (eps := Prim2SF Complex_EPSILON). vm_compute in eps. subst eps.
  apply andb_false_iff in H as [H|H]; apply not_finite_SF in H;
    destruct H as [H|[s H]]; rewrite H; unfold SF64sub, SFsub.
  - reflexivity.
  - destruct (Prim2SF y) as [s'|s'| |s' m' e']; try reflexivity.
    destruct s, s'; reflexivity.
  - now destruct (Prim2SF x).
  - destruct (Prim2SF x) as [s'|s'| |s' m' e']; try reflexivity;
      destruct s; try reflexivity.
    + destruct s'; reflexivity.
    + destruct s'; reflexivity.
Qed.

(** [equals] answers [false] as soon as one of the four components
    compared is NaN or an infinity: nothing equals [Complex.NAN] or
    [Complex.INFINITY], themselves included. *)
Theorem equals_only_between_finite s t a b z s1 tre tim zre zim :
  holds s t (VNum tre) (VNum tim) ->
  Lib.parse a b s = (Normal z, s1) ->
  zholds s1 z (VNum zre) (VNum zim) ->
  finite_pair tre tim && finite_pair zre zim = false ->
  prototype.equals t a b s = (Normal false, s1).
Proof.
  intros Ht Hp Hz F.
  rewrite (equals_run _ _ _ _ _ _ _ _ _ _ Ht Hp Hz).
  replace (close tre zre && close tim zim) with false; [reflexivity|].
  symmetry. unfold finite_pair in F.
  destruct (is_finite tre) eqn:F1;
    [|rewrite (close_not_finite tre zre) by (now rewrite F1); reflexivity].
  destruct (is_finite zre) eqn:F2;
    [|rewrite (close_not_finite tre zre)
        by (rewrite F2; apply andb_false_r); reflexivity].
  rewrite (close_not_finite tim zim); [apply andb_false_r|].
  simpl in F. destruct (is_finite tim); [|reflexivity].
  simpl in F. exact F.
Qed.

End EqualsFinite.

(* ================================================================= *)
(** ** Texts in Cartesian form *)

Section Literals.

Import Text.
Local Open Scope string_scope.

Lemma is_empty_true s : is_empty s = true -> s = "".
Proof. now destruct s. Qed.

(** The three shapes of a numeric literal. *)
Lemma literal_shape x :
  Grammar.is_numeric_literal x = true ->
  (exists d, x = String "." d /\ is_empty d = false
             /\ all_chars is_digit d = true)
  \/ (exists d1 dot d2 ex,
         x = d1 ++ dot ++ d2 ++ ex
         /\ is_empty d1 = false /\ all_chars is_digit d1 = true
         /\ all_chars is_digit d2 = true
         /\ (dot = "." \/ (dot = "" /\ d2 = ""))
         /\ (ex = ""
             \/ exists sg d3,
                 ex = String "e" (sg ++ d3)
                 /\ (sg = "" \/ sg = "+" \/ sg = "-")
                 /\ is_empty d3 = false /\ all_chars is_digit d3 = true)).
Proof.
  unfold Grammar.is_numeric_literal.
  destruct (span_digits x) as [d1 r1] eqn:E1.
  destruct (span_digits_spec _ _ _ E1) as (-> & D1 & R1).
  destruct (is_empty d1) eqn:N1.
  - apply is_empty_true in N1. subst d1. simpl.
    destruct r1 as [|c r]; [discriminate|].
    destruct (Ascii.eqb_spec c ".") as [->|N].
    + destruct (span_digits r) as [d r'] eqn:E.
      destruct (span_digits_spec _ _ _ E) as (-> & D & _).
      intros H. apply andb_prop in H as [H1 H2].
      apply is_empty_true in H2. subst r'. rewrite append_nil_r.
      left. exists d. split; [reflexivity|]. split; [|exact D].
      now destruct (is_empty d).
    + destruct c as [[] [] [] [] [] [] [] []]; try discriminate. now elim N.
  - assert (Hdot : exists dot r2,
               opt_dot r1 = (dot, r2) /\ r1 = dot ++ r2
               /\ (dot = "." \/ (dot = "" /\ starts_nondigit r2))).
    { destruct (opt_dot_spec r1) as [(r & -> & E) | [E _]].
      - exists ".", r. auto.
      - exists "", r1. auto. }
    destruct Hdot as (dot & r2 & Ed & -> & Hd). rewrite Ed. simpl snd.
    destruct (span_digits r2) as [d2 r3] eqn:E2.
    destruct (span_digits_spec _ _ _ E2) as (-> & D2 & R3).
    assert (Hd' : dot = "." \/ (dot = "" /\ d2 = "")).
    { destruct Hd as [->|[-> Hn]]; [now left|right; split; [reflexivity|]].
      destruct d2 as [|c d2]; [reflexivity|]. simpl in *.
      apply andb_prop in D2 as [Hc _]. congruence. }
    destruct r3 as [|c r4].
    + intros _. right. exists d1, dot, d2, "". repeat split; auto.
    + destruct (Ascii.eqb_spec c "e") as [->|N].
      * assert (Hs : exists sg r5,
                   opt_sign r4 = (sg, r5) /\ r4 = sg ++ r5
                   /\ (sg = "" \/ sg = "+" \/ sg = "-")).
        { destruct (opt_sign_spec r4) as [(sg & r & -> & E & S) | E].
          - exists sg, r. intuition.
          - exists "", r4. auto. }
        destruct Hs as (sg & r5 & Es & -> & Hsg). rewrite Es. simpl snd.
        destruct (span_digits r5) as [d3 r6] eqn:E3.
        destruct (span_digits_spec _ _ _ E3) as (-> & D3 & _).
        intros H. apply andb_prop in H as [H1 H2].
        apply is_empty_true in H2. subst r6. rewrite append_nil_r.
        right. exists d1, dot, d2, (String "e" (sg ++ d3)).
        repeat split; auto. right. exists sg, d3.
        repeat split; auto. now destruct (is_empty d3).
      * destruct c as [[] [] [] [] [] [] [] []]; try discriminate.
        now elim N.
Qed.


Lemma term_end_nondigit R : term_end R -> starts_nondigit R.
Proof. destruct R; simpl; tauto. Qed.

Lemma opt_dot_term_end R : term_end R -> opt_dot R = ("", R).
Proof.
  intros H. destruct (opt_dot_spec R) as [(r & -> & _) | [E _]]; [|exact E].
  simpl in H. now elim (proj1 (proj2 H)).
Qed.

(** A numeric literal followed by nothing, or by something that cannot
    extend it, is the token the pattern matches. *)
Lemma re_token_literal x R :
  Grammar.is_numeric_literal x = true -> term_end R ->
  Lexer.re_token (x ++ R) = Some (x, R).
Proof.
  intros L T. pose proof (term_end_nondigit R T) as TR.
  destruct (literal_shape x L)
    as [(d & -> & N & D)
       | (d1 & dot & d2 & ex & -> & N1 & D1 & D2 & Hdot & Hex)].
  - unfold Lexer.re_token, Lexer.re_exponential, Lexer.re_decimal.
    simpl. rewrite (span_digits_app d R D TR), N. reflexivity.
  - assert (Sex : starts_nondigit (ex ++ R)).
    { destruct Hex as [->|(sg & d3 & -> & _)]; [exact TR | reflexivity]. }
    assert (Sdot : starts_nondigit (dot ++ d2 ++ ex ++ R)).
    { destruct Hdot as [->|[-> ->]]; [reflexivity | exact Sex]. }
    assert (Edot : opt_dot (dot ++ d2 ++ ex ++ R) = (dot, d2 ++ ex ++ R)).
    { destruct Hdot as [->|[-> ->]]; [reflexivity|]. simpl.
      destruct Hex as [->|(sg & d3 & -> & _)];
        [now apply opt_dot_term_end | reflexivity]. }
    assert (A : (d1 ++ dot ++ d2 ++ ex) ++ R
                = d1 ++ dot ++ d2 ++ ex ++ R).
    { now rewrite !append_assoc'. }
    rewrite A. unfold Lexer.re_token.
    destruct Hex as [->|(sg & d3 & -> & Hsg & N3 & D3)].
    + assert (X : Lexer.re_exponential (d1 ++ dot ++ d2 ++ "" ++ R) = None).
      { unfold Lexer.re_exponential.
        rewrite (span_digits_app d1 _ D1 Sdot), N1, Edot.
        rewrite (span_digits_app d2 _ D2 Sex). simpl.
        destruct R as [|c R]; [reflexivity|]. simpl in T.
        destruct T as (_ & _ & Ne).
        destruct c as [[] [] [] [] [] [] [] []]; try reflexivity.
        now elim Ne. }
      rewrite X. unfold Lexer.or_else at 1. unfold Lexer.re_decimal.
      rewrite (span_digits_app d1 _ D1 Sdot), N1, Edot.
      rewrite (span_digits_app d2 _ D2 Sex). simpl.
      now rewrite !append_nil_r.
    + unfold Lexer.re_exponential.
      rewrite (span_digits_app d1 _ D1 Sdot), N1, Edot.
      rewrite (span_digits_app d2 _ D2 Sex).
      change (String "e" (sg ++ d3) ++ R) with (String "e" ((sg ++ d3) ++ R)).
      cbv iota beta.
      assert (Es : opt_sign ((sg ++ d3) ++ R) = (sg, d3 ++ R)).
      { rewrite append_assoc'.
        destruct Hsg as [->|[->| ->]]; [|reflexivity|reflexivity].
        simpl. now apply opt_sign_digits. }
      rewrite Es, (span_digits_app d3 R D3 TR), N3. simpl.
      reflexivity.
Qed.

End Literals.

Section Terms.

Import Text.
Local Open Scope string_scope.

Lemma re_token_nonempty s tok rest :
  Lexer.re_token s = Some (tok, rest) ->
  (String.length rest < String.length s)%nat.
Proof.
  intros H. destruct (re_token_split _ _ _ H) as [-> N].
  rewrite length_append. destruct tok; [now elim N | simpl; lia].
Qed.

Lemma match_all_step s tok rest :
  Lexer.re_token s = Some (tok, rest) ->
  Lexer.match_all (String.length s) s
  = tok :: Lexer.match_all (String.length rest) rest.
Proof.
  intros H. pose proof (re_token_nonempty _ _ _ H) as L.
  destruct s as [|c r]; [discriminate H|].
  simpl String.length. simpl Lexer.match_all. rewrite H.
  f_equal. apply match_all_fuel. simpl in L. lia.
Qed.

Lemma is_sign_cases c : is_sign c = true -> c = "+"%char \/ c = "-"%char.
Proof.
  unfold is_sign. intros H. apply orb_prop in H as [H|H];
    apply Ascii.eqb_eq in H; auto.
Qed.

Lemma match_all_signs sg R :
  all_chars is_sign sg = true ->
  Lexer.match_all (String.length (sg ++ R)) (sg ++ R)
  = (units sg ++ Lexer.match_all (String.length R) R)%list.
Proof.
  induction sg as [|c sg IH]; intros H; [reflexivity|].
  simpl in H. apply andb_prop in H as [Hc Hs].
  change (String c sg ++ R) with (String c (sg ++ R)).
  rewrite (match_all_step _ (str1 c) (sg ++ R)).
  - simpl. now rewrite IH.
  - destruct (is_sign_cases c Hc) as [-> | ->]; reflexivity.
Qed.

Lemma match_all_literal x R :
  Grammar.is_numeric_literal x = true -> term_end R ->
  Lexer.match_all (String.length (x ++ R)) (x ++ R)
  = x :: Lexer.match_all (String.length R) R.
Proof.
  intros L T. apply match_all_step. now apply re_token_literal.
Qed.

Lemma match_all_unit R :
  Lexer.match_all (String.length ("i" ++ R)) ("i" ++ R)
  = "i" :: Lexer.match_all (String.length R) R.
Proof. now apply match_all_step. Qed.


Lemma sign_or_end_term_end R : sign_or_end R -> term_end R.
Proof.
  destruct R as [|c R]; [easy|]. simpl. intros H.
  destruct (is_sign_cases c H) as [-> | ->]; repeat split; discriminate.
Qed.

Lemma term_end_unit R : term_end ("i" ++ R).
Proof. repeat split; discriminate. Qed.

Lemma term_ok_literal t x :
  term_ok t = true ->
  match t with
  | TReal _ y | TImag _ y | TUnitTimes _ y => y = x
  | TUnit _ => False
  end ->
  Grammar.is_numeric_literal x = true.
Proof.
  unfold term_ok. intros H E. apply andb_prop in H as [_ H].
  destruct t; subst; try exact H. contradiction.
Qed.

Lemma term_ok_signs t :
  term_ok t = true -> all_chars is_sign (term_signs t) = true.
Proof. unfold term_ok. intros H. now apply andb_prop in H as [H _]. Qed.

(** The pattern cuts a term into its tokens. *)
Lemma match_all_term t R :
  term_ok t = true -> sign_or_end R ->
  Lexer.match_all (String.length (term_text t ++ R)) (term_text t ++ R)
  = (term_tokens t ++ Lexer.match_all (String.length R) R)%list.
Proof.
  intros Ok S. pose proof (sign_or_end_term_end R S) as T.
  unfold term_text, term_tokens. rewrite append_assoc'.
  rewrite (match_all_signs _ _ (term_ok_signs t Ok)).
  rewrite <- app_assoc. f_equal.
  destruct t as [sg x|sg x|sg|sg x]; simpl term_body.
  - change (String.concat "" [x]) with x.
    now apply match_all_literal; [apply (term_ok_literal _ x Ok)|].
  - change (String.concat "" [x; "i"]) with (x ++ "i").
    rewrite append_assoc'.
    rewrite match_all_literal;
      [|now apply (term_ok_literal _ x Ok)|apply term_end_unit].
    now rewrite match_all_unit.
  - apply match_all_unit.
  - change (String.concat "" ["i"; x] ++ R) with ("i" ++ (x ++ R)).
    rewrite match_all_unit. simpl. f_equal.
    now apply match_all_literal; [apply (term_ok_literal _ x Ok)|].
Qed.

Lemma later_terms_start r :
  forallb later_term_ok r = true -> sign_or_end (terms_text r).
Proof.
  destruct r as [|t r]; [easy|]. simpl. intros H.
  apply andb_prop in H as [H _]. unfold later_term_ok in H.
  apply andb_prop in H as [Ok N]. apply term_ok_signs in Ok.
  unfold term_text. destruct (term_signs t) as [|c sg]; [discriminate|].
  simpl in *. now apply andb_prop in Ok as [Ok _].
Qed.

Lemma match_all_later_terms r :
  forallb later_term_ok r = true ->
  Lexer.match_all (String.length (terms_text r)) (terms_text r)
  = List.concat (map term_tokens r).
Proof.
  induction r as [|t r IH]; [reflexivity|]. simpl. intros H.
  apply andb_prop in H as [H1 H2]. unfold later_term_ok in H1.
  apply andb_prop in H1 as [Ok _].
  rewrite (match_all_term t _ Ok (later_terms_start r H2)).
  now rewrite IH.
Qed.

Lemma match_all_terms ts :
  terms_ok ts = true ->
  Lexer.match_all (String.length (terms_text ts)) (terms_text ts)
  = List.concat (map term_tokens ts).
Proof.
  destruct ts as [|t r]; [discriminate|]. simpl. intros H.
  apply andb_prop in H as [Ok H2].
  rewrite (match_all_term t _ Ok (later_terms_start r H2)).
  now rewrite match_all_later_terms.
Qed.

End Terms.

Section TermScan.

Context {host : Platform}.

Import Text.
Local Open Scope string_scope.

(** The token loop over a run of signs: the signs are counted. *)
Lemma scan_signs sg rest : forall p m re im,
  all_chars is_sign sg = true ->
  exists p',
    Lib.scan (units sg ++ rest) p m re im
    = Lib.scan rest p' (m + minus_count sg) re im
    /\ (p' + (m + minus_count sg) = p + m + String.length sg)%nat.
Proof.
  induction sg as [|c sg IH]; intros p m re im H.
  - exists p. simpl. rewrite !Nat.add_0_r. now split.
  - simpl in H. apply andb_prop in H as [Hc Hs].
    destruct (is_sign_cases c Hc) as [-> | ->].
    + destruct (IH (S p) m re im Hs) as (p' & E & L).
      exists p'. split; [exact E|]. simpl. lia.
    + destruct (IH p (S m) re im Hs) as (p' & E & L).
      exists p'. split.
      * replace (m + minus_count (String "-" sg))%nat
          with (S m + minus_count sg)%nat by (simpl; lia).
        exact E.
      * simpl. lia.
Qed.

(** A numeric literal is no blank, sign or unit, and [isNaN] is false of
    it. *)
Lemma literal_plain x :
  Grammar.is_numeric_literal x = true ->
  Lib.is_blank x = false /\ String.eqb x "+" = false
  /\ String.eqb x "-" = false /\ Lib.is_i x = false
  /\ String.eqb x " " = false
  /\ Global.isNaN_string x = false.
Proof.
  intros L. pose proof (literal_not_nan x L) as N.
  assert (H : exists c r, x = String c r
                          /\ (c = "."%char \/ is_digit c = true)).
  { destruct (literal_shape x L)
      as [(d & -> & _) | (d1 & dot & d2 & ex & -> & N1 & D1 & _)].
    - exists "."%char, d. auto.
    - destruct d1 as [|c d1]; [discriminate|]. simpl in D1.
      apply andb_prop in D1 as [Hc _].
      exists c, (d1 ++ dot ++ d2 ++ ex). auto. }
  destruct H as (c & r & -> & Hc).
  assert (Q : forall k, k <> "."%char -> is_digit k = false ->
              String.eqb (String c r) (String k "") = false).
  { intros k K1 K2. simpl.
    destruct (Ascii.eqb_spec c k) as [->|_]; [|reflexivity].
    destruct Hc as [Hc|Hc]; [now elim K1 | congruence]. }
  unfold Lib.is_blank, Lib.is_i, str1.
  rewrite !Q by (try discriminate; reflexivity).
  now repeat split.
Qed.

Lemma sign_token c :
  is_sign c = true ->
  Lib.is_i (str1 c) = false /\ Global.isNaN_string (str1 c) = true.
Proof.
  intros H. destruct (is_sign_cases c H) as [-> | ->]; split;
    vm_compute; reflexivity.
Qed.

(** The token loop over the body of a term with a sign pending. *)
Lemma scan_body t rest p m re im :
  term_ok t = true -> (p + m =? 0)%nat = false -> sign_next rest ->
  Lib.scan (term_body t ++ rest) p m re im
  = Lib.scan rest 0 0 (fst (body_value t m (re, im)))
                      (snd (body_value t m (re, im))).
Proof.
  intros Ok P S.
  destruct t as [sg x|sg x|sg|sg x]; simpl term_body; simpl app;
    unfold body_value; simpl fst; simpl snd.
  - destruct (literal_plain x (term_ok_literal _ x Ok eq_refl))
      as (B & Pl & Mi & I & _ & N).
    simpl Lib.scan. rewrite B, Pl, Mi, I, P, N. simpl orb. cbv iota.
    destruct rest as [|next rest]; [reflexivity|].
    destruct S as (c & -> & Hc).
    now rewrite (proj1 (sign_token c Hc)).
  - destruct (literal_plain x (term_ok_literal _ x Ok eq_refl))
      as (B & Pl & Mi & I & _ & N).
    simpl Lib.scan. rewrite B, Pl, Mi, I, P, N. reflexivity.
  - simpl Lib.scan. rewrite P.
    destruct rest as [|next rest]; [reflexivity|].
    destruct S as (c & -> & Hc).
    rewrite (proj2 (sign_token c Hc)). now rewrite andb_false_r.
  - destruct (literal_plain x (term_ok_literal _ x Ok eq_refl))
      as (_ & _ & _ & _ & Sp & N).
    simpl Lib.scan. rewrite P, Sp, N. reflexivity.
Qed.


Lemma scan_term t rest p re im :
  term_ok t = true ->
  (0 < p + String.length (term_signs t))%nat ->
  sign_next rest ->
  Lib.scan (term_tokens t ++ rest) p 0 re im
  = Lib.scan rest 0 0 (fst (term_value t (re, im)))
                      (snd (term_value t (re, im))).
Proof.
  intros Ok P S. unfold term_tokens, term_value. rewrite <- app_assoc.
  destruct (scan_signs (term_signs t) (term_body t ++ rest) p 0 re im
              (term_ok_signs t Ok)) as (p' & E & L).
  rewrite E. simpl in *. apply scan_body; [exact Ok| |exact S].
  apply Nat.eqb_neq. lia.
Qed.

Lemma later_tokens_start r :
  forallb later_term_ok r = true ->
  sign_next (List.concat (map term_tokens r)).
Proof.
  destruct r as [|t r]; [easy|]. simpl. intros H.
  apply andb_prop in H as [H _]. unfold later_term_ok in H.
  apply andb_prop in H as [Ok N]. apply term_ok_signs in Ok.
  unfold term_tokens. destruct (term_signs t) as [|c sg]; [discriminate|].
  simpl in *. apply andb_prop in Ok as [Ok _]. now exists c.
Qed.

Lemma scan_later_terms r : forall re im,
  forallb later_term_ok r = true ->
  Lib.scan (List.concat (map term_tokens r)) 0 0 re im
  = Lib.ScanDone
      (fst (fold_left (fun z t => term_value t z) r (re, im)))
      (snd (fold_left (fun z t => term_value t z) r (re, im))).
Proof.
  induction r as [|t r IH]; intros re im H; [reflexivity|].
  simpl in H. apply andb_prop in H as [H1 H2].
  pose proof H1 as H1'. unfold later_term_ok in H1'.
  apply andb_prop in H1' as [Ok N].
  simpl List.concat. simpl fold_left.
  rewrite (scan_term t _ 0 re im Ok); [|destruct (term_signs t);
                                        [discriminate | simpl; lia]
                                      |now apply later_tokens_start].
  rewrite (IH _ _ H2). now destruct (term_value t (re, im)).
Qed.

(** The token loop over a whole text of terms. *)
Lemma scan_terms ts :
  terms_ok ts = true ->
  Lib.scan (List.concat (map term_tokens ts)) 1 0 0 0
  = Lib.ScanDone (fst (terms_value ts)) (snd (terms_value ts)).
Proof.
  destruct ts as [|t r]; [discriminate|]. simpl. intros H.
  apply andb_prop in H as [Ok H2].
  rewrite (scan_term t _ 1 0 0 Ok); [|lia|now apply later_tokens_start].
  rewrite (scan_later_terms r _ _ H2). unfold terms_value. simpl.
  now destruct (term_value t (0%float, 0%float)).
Qed.

Lemma remove_underscores_id s :
  all_chars no_underscore s = true -> Lexer.remove_underscores s = s.
Proof.
  induction s as [|c s IH]; [reflexivity|]. simpl. intros H.
  apply andb_prop in H as [Hc Hs]. unfold no_underscore in Hc.
  destruct (Ascii.eqb c "_"); [discriminate|]. now rewrite IH.
Qed.

Lemma number_char_no_underscore c :
  number_char c = true -> no_underscore c = true.
Proof.
  destruct c as [[] [] [] [] [] [] [] []]; vm_compute; intros H;
    try discriminate H; reflexivity.
Qed.

Lemma is_sign_no_underscore c : is_sign c = true -> no_underscore c = true.
Proof. intros H. now destruct (is_sign_cases c H) as [-> | ->]. Qed.

Lemma term_no_underscore t :
  term_ok t = true -> all_chars no_underscore (term_text t) = true.
Proof.
  intros Ok. unfold term_text. rewrite all_chars_app.
  rewrite (all_chars_impl _ _ _ is_sign_no_underscore (term_ok_signs t Ok)).
  assert (L : forall x, Grammar.is_numeric_literal x = true ->
                        all_chars no_underscore x = true).
  { intros x Lx. apply (all_chars_impl _ _ _ number_char_no_underscore).
    now apply lex_decimal_literal. }
  destruct t as [sg x|sg x|sg|sg x]; simpl term_body.
  - change (String.concat "" [x]) with x.
    now rewrite (L x (term_ok_literal _ x Ok eq_refl)).
  - change (String.concat "" [x; "i"]) with (x ++ "i").
    now rewrite all_chars_app, (L x (term_ok_literal _ x Ok eq_refl)).
  - reflexivity.
  - change (String.concat "" ["i"; x]) with ("i" ++ x).
    now rewrite all_chars_app, (L x (term_ok_literal _ x Ok eq_refl)).
Qed.

Lemma terms_no_underscore ts :
  forallb term_ok ts = true ->
  all_chars no_underscore (terms_text ts) = true.
Proof.
  induction ts as [|t r IH]; [reflexivity|]. simpl. intros H.
  apply andb_prop in H as [Ok H2].
  now rewrite all_chars_app, (term_no_underscore t Ok), IH.
Qed.

Lemma terms_ok_each ts : terms_ok ts = true -> forallb term_ok ts = true.
Proof.
  destruct ts as [|t r]; [discriminate|]. simpl. intros H.
  apply andb_prop in H as [Ok H2]. rewrite Ok. simpl.
  apply forallb_forall. intros t' I.
  rewrite forallb_forall in H2. specialize (H2 t' I).
  unfold later_term_ok in H2. now apply andb_prop in H2 as [H2 _].
Qed.

Lemma tokenize_terms ts :
  terms_ok ts = true ->
  Lexer.tokenize (terms_text ts) = Some (List.concat (map term_tokens ts)).
Proof.
  intros H. unfold Lexer.tokenize.
  rewrite (remove_underscores_id _ (terms_no_underscore ts (terms_ok_each ts H))).
  rewrite (match_all_terms ts H).
  destruct ts as [|t r]; [discriminate|]. simpl.
  destruct t as [[|c sg] x|[|c sg] x|[|c sg]|[|c sg] x]; reflexivity.
Qed.

(** A text made of terms, each a run of signs and then [x], [x i], [i]
    or [i x] for a numeric literal [x], every term but the first with at
    least one sign: the constructor returns a new Complex whose
    components are the sums, from zero and in the order of the text, of
    what [parseFloat] reads in the real terms and in the imaginary
    terms, a term counting as negative when the number of [-] among its
    signs is odd. *)
Theorem text_of_terms ts s :
  terms_ok ts = true ->
  exists l s',
    Lib.Complex (VStr (terms_text ts)) VUndefined s = (Normal l, s')
    /\ l = List.length (heap s)
    /\ holds s' l (VNum (fst (terms_value ts))) (VNum (snd (terms_value ts))).
Proof.
  intros H.
  set (re := fst (terms_value ts)). set (im := snd (terms_value ts)).
  set (s0 := mkStore (P_re s) (P_im s)
                     (heap s ++ [mkObject Complex_prototype []])).
  assert (P : Lib.parse (VStr (terms_text ts)) VUndefined s0
              = (Normal ZP, mkStore (VNum re) (VNum im) (heap s0))).
  { unfold Lib.parse. simpl. unfold Lib.parse_string.
    rewrite (tokenize_terms ts H), (scan_terms ts H).
    unfold bind, set_P_re, set_P_im. simpl.
    now rewrite parse_return_primitive. }
  rewrite (Complex_of_parse _ _ _ _ _ _ _ P (zholds_P _ _ _) I).
  eexists _, _. split; [reflexivity|]. split; [reflexivity|].
  apply holds_last.
Qed.

End TermScan.

(* ================================================================= *)
(** ** The tokenizer *)

Section Tokenizer2.

Import Text.
Local Open Scope string_scope.

Lemma remove_underscores_idem s :
  Lexer.remove_underscores (Lexer.remove_underscores s)
  = Lexer.remove_underscores s.
Proof.
  induction s as [|c s IH]; [reflexivity|]. simpl.
  destruct (Ascii.eqb c "_") eqn:E; [exact IH|].
  simpl. now rewrite E, IH.
Qed.

Lemma tokenize_underscores a :
  Lexer.tokenize (Lexer.remove_underscores a) = Lexer.tokenize a.
Proof. unfold Lexer.tokenize. now rewrite remove_underscores_idem. Qed.

Lemma concat_cons (x : string) xs :
  String.concat "" (x :: xs) = x ++ String.concat "" xs.
Proof.
  destruct xs; simpl; [now rewrite append_nil_r | reflexivity].
Qed.

Lemma remove_line_terminators_app x r :
  remove_line_terminators (x ++ r)
  = remove_line_terminators x ++ remove_line_terminators r.
Proof.
  induction x as [|c x IH]; [reflexivity|]. simpl.
  destruct (is_line_terminator c); [exact IH|]. simpl. now rewrite IH.
Qed.

Lemma remove_line_terminators_id x :
  all_chars (fun c => negb (is_line_terminator c)) x = true ->
  remove_line_terminators x = x.
Proof.
  induction x as [|c x IH]; [reflexivity|]. simpl. intros H.
  apply andb_prop in H as [Hc Hx].
  destruct (is_line_terminator c); [discriminate|]. now rewrite IH.
Qed.

Lemma number_char_no_terminator c :
  number_char c = true -> negb (is_line_terminator c) = true.
Proof.
  destruct c as [[] [] [] [] [] [] [] []]; vm_compute; intros H;
    try discriminate H; reflexivity.
Qed.

(** A token holds no line terminator. *)
Lemma re_token_no_terminator s tok rest :
  Lexer.re_token s = Some (tok, rest) ->
  remove_line_terminators tok = tok.
Proof.
  unfold Lexer.re_token, Lexer.or_else. intros H.
  assert (L : Grammar.is_numeric_literal tok = true ->
              remove_line_terminators tok = tok).
  { intros Lt. apply remove_line_terminators_id.
    apply (all_chars_impl _ _ _ number_char_no_terminator).
    now apply lex_decimal_literal. }
  destruct (Lexer.re_exponential s) as [[t1 r1]|] eqn:E1.
  { injection H as <- <-. apply L. now apply re_exponential_literal in E1. }
  destruct (Lexer.re_decimal s) as [[t2 r2]|] eqn:E2.
  { injection H as <- <-. apply L. now apply re_decimal_literal in E2. }
  destruct (Lexer.re_fraction s) as [[t3 r3]|] eqn:E3.
  { injection H as <- <-. apply L. now apply re_fraction_literal in E3. }
  destruct (re_any_split _ _ _ H) as (c & -> & -> & Hc).
  simpl. now rewrite Hc.
Qed.

Lemma re_token_none c r :
  Lexer.re_token (String c r) = None -> is_line_terminator c = true.
Proof.
  unfold Lexer.re_token, Lexer.or_else.
  destruct (Lexer.re_exponential _); [discriminate|].
  destruct (Lexer.re_decimal _); [discriminate|].
  destruct (Lexer.re_fraction _); [discriminate|].
  simpl. now destruct (is_line_terminator c).
Qed.

Lemma match_all_concat fuel : forall s,
  (String.length s <= fuel)%nat ->
  String.concat "" (Lexer.match_all fuel s) = remove_line_terminators s
  /\ Forall (fun tok => tok <> "") (Lexer.match_all fuel s).
Proof.
  induction fuel as [|fuel IH]; intros s L.
  - destruct s; [now split | simpl in L; lia].
  - destruct s as [|c r]; [now split|].
    simpl Lexer.match_all.
    destruct (Lexer.re_token (String c r)) as [[tok rest]|] eqn:E.
    + pose proof (re_token_nonempty _ _ _ E) as Ln.
      destruct (re_token_split _ _ _ E) as [Es N].
      destruct (IH rest) as [C F]; [simpl in *; lia|].
      split; [|now constructor].
      rewrite concat_cons, C, Es, remove_line_terminators_app.
      now rewrite (re_token_no_terminator _ _ _ E).
    + destruct (IH r) as [C F]; [simpl in *; lia|].
      split; [|exact F].
      rewrite C. simpl. now rewrite (re_token_none _ _ E).
Qed.

(** The tokens of a text, put together again, are the text without its
    underscores and line terminators: nothing else is dropped, no token
    is empty, and there is no token at all exactly when nothing is
    left. *)
Theorem tokens_cover_text a :
  let rest := remove_line_terminators (Lexer.remove_underscores a) in
  (forall tokens,
      Lexer.tokenize a = Some tokens ->
      String.concat "" tokens = rest
      /\ Forall (fun tok => tok <> "") tokens
      /\ tokens <> [])
  /\ (Lexer.tokenize a = None <-> rest = "").
Proof.
  intros rest. unfold Lexer.tokenize.
  destruct (match_all_concat (String.length (Lexer.remove_underscores a))
              (Lexer.remove_underscores a) (le_n _)) as [C F].
  fold rest in C.
  destruct (Lexer.match_all _ _) as [|tok l] eqn:E.
  - split; [discriminate|]. split; [intros _; now rewrite <- C | reflexivity].
  - split.
    + intros tokens [= <-]. repeat split; [exact C | exact F | discriminate].
    + split; [discriminate|]. intros R. exfalso.
      rewrite R in C. rewrite concat_cons in C.
      inversion F as [|? ? N _]. destruct tok; [now elim N | discriminate C].
Qed.

End Tokenizer2.

Section Underscores.

Context {host : Platform}.

Local Open Scope string_scope.

Lemma remove_underscores_app x y :
  Lexer.remove_underscores (x ++ y)
  = Lexer.remove_underscores x ++ Lexer.remove_underscores y.
Proof.
  induction x as [|c x IH]; [reflexivity|]. simpl.
  destruct (Ascii.eqb c "_"); [exact IH|]. simpl. now rewrite IH.
Qed.

Lemma Complex_same_tokens a b s :
  Lexer.tokenize a = Lexer.tokenize b ->
  Lib.Complex (VStr a) VUndefined s = Lib.Complex (VStr b) VUndefined s.
Proof.
  intros E. unfold Lib.Complex, Lib.parse. simpl. unfold Lib.parse_string.
  now rewrite E.
Qed.

(** Underscores in a text are ignored: an underscore put anywhere in a
    text changes nothing of what [new Complex] does with it, and a text
    is treated as the text without its underscores. *)
Theorem underscores_are_ignored x y s :
  Lib.Complex (VStr (x ++ "_" ++ y)) VUndefined s
  = Lib.Complex (VStr (x ++ y)) VUndefined s
  /\ Lib.Complex (VStr x) VUndefined s
     = Lib.Complex (VStr (Lexer.remove_underscores x)) VUndefined s.
Proof.
  split; apply Complex_same_tokens.
  - unfold Lexer.tokenize. now rewrite !remove_underscores_app.
  - now rewrite tokenize_underscores.
Qed.

End Underscores.

(* ================================================================= *)
(** ** The shared constants *)

Section Constants.

Context {host : Platform}.

Local Open Scope string_scope.

Lemma perform_keeps n act s :
  (n <= List.length (heap s))%nat -> keeps n s (perform act s).
Proof.
  intros L. destruct act as [name this args|a b]; simpl.
  - exact (proj1 (frame_call n name this args s L)).
  - exact (proj1 (frame_Complex n a b s L)).
Qed.

Lemma run_actions_keeps n acts : forall s,
  (n <= List.length (heap s))%nat -> keeps n s (run_actions acts s).
Proof.
  induction acts as [|act acts IH]; intros s L; [now apply keeps_refl|].
  simpl. pose proof (perform_keeps n act s L) as K.
  eapply keeps_trans; [exact K|]. apply IH. exact (proj1 K).
Qed.

Lemma keeps_field n s s' l k :
  keeps n s s' -> (l < n)%nat -> field s' l k = field s l k.
Proof.
  intros [_ E] L. unfold field.
  rewrite <- (nth_error_firstn_lt (heap s') n l L), E.
  now rewrite nth_error_firstn_lt.
Qed.

(** The constants are never changed: after the module is loaded and
    after any sequence of method calls and constructions, on any
    receivers and arguments and however each ended, [Complex.ZERO] reads
    [(0, 0)], [ONE] [(1, 0)], [I] [(0, 1)], [PI] [(Math.PI, 0)], [E]
    [(Math.E, 0)], [INFINITY] [(Infinity, Infinity)] and [NAN]
    [(NaN, NaN)]. *)
Theorem constants_never_change acts :
  let s := run_actions acts init_store in
  holds s Complex_ZERO (VNum 0) (VNum 0)
  /\ holds s Complex_ONE (VNum 1) (VNum 0)
  /\ holds s Complex_I (VNum 0) (VNum 1)
  /\ holds s Complex_PI (VNum Math_PI) (VNum 0)
  /\ holds s Complex_E (VNum Math_E) (VNum 0)
  /\ holds s Complex_INFINITY (VNum infinity) (VNum infinity)
  /\ holds s Complex_NAN (VNum nan) (VNum nan).
Proof.
  intros s.
  assert (K : keeps 7 init_store s).
  { apply run_actions_keeps. apply Nat.eq_le_incl. reflexivity. }
  unfold holds.
  repeat split;
    (rewrite (keeps_field 7 init_store s _ _ K);
     [reflexivity | unfold Complex_ZERO, Complex_ONE, Complex_I, Complex_PI,
                      Complex_E, Complex_INFINITY, Complex_NAN; lia]).
Qed.

End Constants.

(* ================================================================= *)
(** ** The real axis *)

Section RealAxis.

Context {host : Platform}.

Local Open Scope string_scope.

Local Open Scope float_scope.

Ltac run H := rewrite (bind_Normal _ _ _ _ _ H).

Ltac on_axis Hr Hi E :=
  run (get_num_field _ _ _ _ Hr); run (get_num_field _ _ _ _ Hi);
  rewrite ?E.

(** A receiver on the real axis ([im === 0]) stays on it: [exp], [sqrt]
    of a number that is not negative, [log] of a positive number,
    [asinh], [acosh] above [1], [atanh] strictly between [-1] and [1]
    and [acsch] return a new Complex whose imaginary part is exactly
    [0]; [sqrt] of a negative number (or of NaN) is a new Complex whose
    real part is exactly [0]. *)
Theorem real_axis_is_closed s t re im :
  holds s t (VNum re) (VNum im) ->
  (im =? 0) = true ->
  creates (prototype.exp t) s (Math_exp re) 0
  /\ ((0 <=? re) = true -> creates (prototype.sqrt t) s (Math_sqrt re) 0)
  /\ ((0 <=? re) = false ->
      creates (prototype.sqrt t) s 0 (Math_sqrt (- re)))
  /\ ((0 <? re) = true -> creates (prototype.log t) s (Math_log re) 0)
  /\ (exists x, creates (prototype.asinh t) s x 0)
  /\ ((1 <? re) = true -> exists x, creates (prototype.acosh t) s x 0)
  /\ ((-1 <? re) && (re <? 1) = true ->
      exists x, creates (prototype.atanh t) s x 0)
  /\ (exists x, creates (prototype.acsch t) s x 0).
Proof.
  intros Ht E. pose proof Ht as [Hr Hi].
  repeat split.
  - unfold creates, prototype.exp. on_axis Hr Hi E. apply creates_new.
  - intros P. unfold creates, prototype.sqrt. on_axis Hr Hi E.
    rewrite P. apply creates_new.
  - intros P. unfold creates, prototype.sqrt. on_axis Hr Hi E.
    rewrite P. apply creates_new.
  - intros P. unfold creates, prototype.log. on_axis Hr Hi E.
    rewrite P. apply creates_new.
  - unfold creates, prototype.asinh.
    destruct (re =? 0) eqn:Z.
    + exists 0. on_axis Hr Hi E. rewrite Z. apply creates_new.
    + eexists. on_axis Hr Hi E. rewrite Z. apply creates_new.
  - intros P. eexists. unfold creates, prototype.acosh. on_axis Hr Hi E.
    rewrite P. apply creates_new.
  - intros P. unfold creates, prototype.atanh.
    destruct (re =? 0) eqn:Z.
    + exists 0. on_axis Hr Hi E. rewrite Z. apply creates_new.
    + destruct (re =? 1) eqn:Z1.
      * exists infinity. on_axis Hr Hi E. rewrite Z, Z1. apply creates_new.
      * destruct (re =? -1) eqn:Z2.
        -- exists neg_infinity. on_axis Hr Hi E. rewrite Z, Z1, Z2.
           apply creates_new.
        -- eexists. on_axis Hr Hi E. rewrite Z, Z1, Z2, P.
           apply creates_new.
  - unfold creates, prototype.acsch.
    destruct (re =? 0) eqn:Z.
    + exists infinity. on_axis Hr Hi E. rewrite Z. apply creates_new.
    + eexists. on_axis Hr Hi E. rewrite Z. apply creates_new.
Qed.

End RealAxis.

(* ================================================================= *)
(** ** Subtraction, negation and conjugation *)

Section FloatSigns.

Lemma SFopp_binary_round_aux s m e l :
  SFopp (binary_round_aux prec emax s m e l)
  = binary_round_aux prec emax (negb s) m e l.
Proof.
  unfold binary_round_aux.
  destruct (shr_fexp prec emax m e l) as [mrs' e'].
  destruct (shr_fexp prec emax _ e' loc_Exact) as [mrs'' e''].
  destruct (shr_m mrs''); try reflexivity.
  now destruct (Z.leb e'' (emax - prec)).
Qed.

Lemma SFsub_as_add x y : SF64sub x y = SF64add x (SFopp y).
Proof.
  unfold SF64sub, SF64add, SFsub, SFadd.
  destruct x as [sx|sx| |sx mx ex], y as [sy|sy| |sy my ey];
    try reflexivity; cbn [SFopp].
  - now destruct sx, sy.
  - now destruct sx, sy.
  - f_equal. destruct sy; cbn [negb cond_Zopp]; lia.
Qed.

Lemma sub_as_add (x y : float) : (x - y = x + - y)%float.
Proof.
  apply Prim2SF_inj. rewrite sub_spec, add_spec, opp_spec.
  apply SFsub_as_add.
Qed.

Lemma SFmul_opp_r x y : SF64mul x (SFopp y) = SFopp (SF64mul x y).
Proof.
  unfold SF64mul, SFmul.
  destruct x as [sx|sx| |sx mx ex], y as [sy|sy| |sy my ey];
    try reflexivity; simpl;
    try (now destruct sx, sy).
  rewrite SFopp_binary_round_aux. now destruct sx, sy.
Qed.

Lemma mul_opp_r (x y : float) : (x * - y = - (x * y))%float.
Proof.
  apply Prim2SF_inj. rewrite opp_spec, !mul_spec, opp_spec.
  apply SFmul_opp_r.
Qed.

Lemma is_finite_opp (x : float) : is_finite (- x) = is_finite x.
Proof.
  unfold is_finite, is_infinity. now rewrite is_nan_opp, abs_opp.
Qed.

Lemma finite_pair_opp re im :
  finite_pair (- re) (- im) = finite_pair re im.
Proof. unfold finite_pair. now rewrite !is_finite_opp. Qed.

Lemma infinite_pair_opp re im :
  infinite_pair (- re) (- im) = infinite_pair re im.
Proof. unfold infinite_pair. now rewrite finite_pair_opp. Qed.

Lemma opp_add_self (a : float) :
  is_finite a = true -> (- a + a = 0)%float.
Proof.
  intros F. rewrite add_comm, <- sub_as_add. now apply sub_diag.
Qed.

Lemma eqb_opp_zero (x : float) : (- x =? 0)%float = (x =? 0)%float.
Proof.
  rewrite !eqb_spec, opp_spec.
  change (Prim2SF 0) with (S754_zero false).
  destruct (Prim2SF x) as [s|s| |s m e]; try reflexivity;
    now destruct s.
Qed.

End FloatSigns.

Section Composition.

Context {host : Platform}.

Local Open Scope string_scope.

Local Open Scope float_scope.

(** [t.sub(u)] is [t.add(u.neg())]: the same shared constant when an
    operand is not finite, and otherwise two new objects that read the
    same two Numbers. *)
Theorem sub_is_add_of_neg s t u tre tim ure uim :
  holds s t (VNum tre) (VNum tim) ->
  holds s u (VNum ure) (VNum uim) ->
  exists n s1,
    prototype.neg u s = (Normal n, s1)
    /\ (infinite_pair tre tim || infinite_pair ure uim = true ->
        exists l,
          fst (prototype.sub t (VObj u) VUndefined s) = Normal l
          /\ fst (prototype.add t (VObj n) VUndefined s1) = Normal l
          /\ shared_constant l)
    /\ (infinite_pair tre tim || infinite_pair ure uim = false ->
        exists x y,
          creates (prototype.sub t (VObj u) VUndefined) s x y
          /\ creates (prototype.add t (VObj n) VUndefined) s1 x y).
Proof.
  intros Ht Hu.
  pose proof (holds_last (heap s) (VNum (- ure)) (VNum (- uim))
                         (VNum (- ure)) (VNum (- uim))) as Hn.
  pose proof (holds_grown s t _ _ (VNum (- ure)) (VNum (- uim))
                (complex_object (VNum (- ure)) (VNum (- uim))) Ht) as Ht1.
  eexists _, _. split; [apply (neg_run _ _ _ _ Hu)|].
  unfold creates.
  rewrite (sub_run _ _ _ _ _ _ _ _ _ _ Ht (parse_complex_operand _ _ _ _ Hu)
             (zholds_P _ _ _)).
  rewrite (add_run _ _ _ _ _ _ _ _ _ _ Ht1
             (parse_complex_operand _ _ _ _ Hn) (zholds_P _ _ _)).
  rewrite !infinite_pair_opp.
  split; intros E; rewrite E.
  - destruct (infinite_pair tre tim && infinite_pair ure uim).
    + exists Complex_NAN. repeat split. unfold shared_constant. tauto.
    + exists Complex_INFINITY. repeat split. unfold shared_constant. tauto.
  - exists (tre - ure), (tim - uim). split.
    + rewrite new_Complex_run. eexists.
      split; [reflexivity | apply holds_last].
    + rewrite new_Complex_run, <- !sub_as_add. eexists.
      split; [reflexivity | apply holds_last].
Qed.

(** A finite [t] times its conjugate is exactly real: when the product
    [re * im] of its components does not overflow,
    [t.mul(t.conjugate())] is a new Complex whose imaginary part is
    [0]. *)
Theorem mul_by_conjugate_is_real s t re im :
  holds s t (VNum re) (VNum im) ->
  finite_pair re im = true ->
  is_finite (re * im) = true ->
  exists c s1,
    prototype.conjugate t s = (Normal c, s1)
    /\ exists x, creates (prototype.mul t (VObj c) VUndefined) s1 x 0.
Proof.
  intros Ht F P.
  pose proof (holds_last (heap s) (VNum re) (VNum (- im))
                         (VNum re) (VNum (- im))) as Hc.
  pose proof (holds_grown s t _ _ (VNum re) (VNum (- im))
                (complex_object (VNum re) (VNum (- im))) Ht) as Ht1.
  eexists _, _. split; [apply (conjugate_run _ _ _ _ Ht)|].
  unfold creates.
  rewrite (mul_run _ _ _ _ _ _ _ _ _ _ Ht1
             (parse_complex_operand _ _ _ _ Hc) (zholds_P _ _ _)).
  assert (Fc : infinite_pair re (- im) = false).
  { unfold infinite_pair, finite_pair in *. rewrite is_finite_opp.
    now rewrite F. }
  assert (Ft : infinite_pair re im = false).
  { unfold infinite_pair. now rewrite F. }
  rewrite Fc, Ft. simpl.
  destruct ((- im =? 0) && (im =? 0)); rewrite new_Complex_run.
  - eexists. eexists. split; [reflexivity | apply holds_last].
  - rewrite !mul_opp_r, (mul_comm im re), (opp_add_self _ P).
    eexists. eexists. split; [reflexivity | apply holds_last].
Qed.

End Composition.

(* ================================================================= *)
(** ** White space around a text *)

Section Blanks.

Import Text.
Local Open Scope string_scope.

Lemma starts_nondigit_snoc r : starts_nondigit r -> starts_nondigit (r ++ " ").
Proof. destruct r; simpl; auto. Qed.

Lemma span_digits_snoc s d r :
  span_digits s = (d, r) -> span_digits (s ++ " ") = (d, r ++ " ").
Proof.
  intros E. destruct (span_digits_spec _ _ _ E) as (-> & D & R).
  rewrite append_assoc'. apply span_digits_app; [exact D|].
  now apply starts_nondigit_snoc.
Qed.

Lemma opt_dot_snoc r :
  opt_dot (r ++ " ") = (fst (opt_dot r), snd (opt_dot r) ++ " ").
Proof.
  destruct r as [|c r]; [reflexivity|].
  destruct (opt_dot_spec (String c r)) as [(r' & E & ->) | [-> N]].
  - injection E as -> ->. reflexivity.
  - simpl fst. simpl snd.
    destruct (opt_dot_spec (String c r ++ " ")) as [(r' & E & _) | [-> _]];
      [|reflexivity].
    simpl in E. injection E as -> _. now elim (N r).
Qed.

Lemma opt_sign_snoc r :
  opt_sign (r ++ " ") = (fst (opt_sign r), snd (opt_sign r) ++ " ").
Proof.
  destruct r as [|c r]; [reflexivity|].
  destruct c as [[] [] [] [] [] [] [] []]; reflexivity.
Qed.

Lemma re_exponential_snoc s :
  Lexer.re_exponential (s ++ " ") = snoc_rest (Lexer.re_exponential s).
Proof.
  unfold Lexer.re_exponential.
  destruct (span_digits s) as [d1 r1] eqn:E1.
  rewrite (span_digits_snoc _ _ _ E1).
  destruct (is_empty d1); [reflexivity|].
  rewrite opt_dot_snoc. destruct (opt_dot r1) as [dot r2]. simpl fst.
  simpl snd.
  destruct (span_digits r2) as [d2 r3] eqn:E2.
  rewrite (span_digits_snoc _ _ _ E2).
  destruct r3 as [|c r4]; [reflexivity|].
  change (String c r4 ++ " ") with (String c (r4 ++ " ")).
  destruct (Ascii.eqb_spec c "e") as [->|N];
    [|destruct c as [[] [] [] [] [] [] [] []]; try reflexivity; now elim N].
  rewrite opt_sign_snoc. destruct (opt_sign r4) as [sg r5]. simpl fst.
  simpl snd.
  destruct (span_digits r5) as [d3 r6] eqn:E3.
  rewrite (span_digits_snoc _ _ _ E3).
  now destruct (is_empty d3).
Qed.


Lemma re_decimal_snoc s :
  Lexer.re_decimal (s ++ " ") = snoc_rest (Lexer.re_decimal s).
Proof.
  unfold Lexer.re_decimal.
  destruct (span_digits s) as [d1 r1] eqn:E1.
  rewrite (span_digits_snoc _ _ _ E1).
  destruct (is_empty d1); [reflexivity|].
  rewrite opt_dot_snoc. destruct (opt_dot r1) as [dot r2]. simpl fst.
  simpl snd.
  destruct (span_digits r2) as [d2 r3] eqn:E2.
  now rewrite (span_digits_snoc _ _ _ E2).
Qed.

Lemma re_fraction_snoc s :
  Lexer.re_fraction (s ++ " ") = snoc_rest (Lexer.re_fraction s).
Proof.
  unfold Lexer.re_fraction.
  destruct s as [|c r]; [reflexivity|].
  change (String c r ++ " ") with (String c (r ++ " ")).
  destruct (Ascii.eqb_spec c ".") as [->|N].
  - destruct (span_digits r) as [d r'] eqn:E.
    rewrite (span_digits_snoc _ _ _ E). now destruct (is_empty d).
  - destruct c as [[] [] [] [] [] [] [] []]; try reflexivity. now elim N.
Qed.

Lemma re_token_snoc c r :
  Lexer.re_token (String c r ++ " ")
  = snoc_rest (Lexer.re_token (String c r)).
Proof.
  unfold Lexer.re_token.
  rewrite re_exponential_snoc, re_decimal_snoc, re_fraction_snoc.
  destruct (Lexer.re_exponential (String c r)) as [[t1 r1]|]; [reflexivity|].
  destruct (Lexer.re_decimal (String c r)) as [[t2 r2]|]; [reflexivity|].
  destruct (Lexer.re_fraction (String c r)) as [[t3 r3]|]; [reflexivity|].
  simpl. now destruct (is_line_terminator c).
Qed.

(** The tokens of a text followed by a space: one more token. *)
Lemma match_all_snoc n : forall s,
  (String.length s <= n)%nat ->
  Lexer.match_all (String.length (s ++ " ")) (s ++ " ")
  = (Lexer.match_all (String.length s) s ++ [" "])%list.
Proof.
  induction n as [|n IH]; intros s L.
  - destruct s; [reflexivity | simpl in L; lia].
  - destruct s as [|c r]; [reflexivity|].
    destruct (Lexer.re_token (String c r)) as [[tok rest]|] eqn:E.
    + pose proof (re_token_nonempty _ _ _ E) as Ln.
      rewrite (match_all_step _ _ _ E).
      rewrite (match_all_step (String c r ++ " ") tok (rest ++ " "))
        by (now rewrite re_token_snoc, E).
      simpl. f_equal. apply IH. simpl in *. lia.
    + change (String c r ++ " ") with (String c (r ++ " ")).
      simpl String.length. simpl Lexer.match_all.
      change (String c (r ++ " ")) with (String c r ++ " ").
      rewrite re_token_snoc, E. simpl snoc_rest. cbv iota.
      apply IH. simpl in L. lia.
Qed.

End Blanks.

Section BlankScan.

Context {host : Platform}.

Import Text.
Local Open Scope string_scope.

(** The token loop does not see a space after the last token. *)
Lemma scan_snoc n : forall tokens p m re im,
  (List.length tokens <= n)%nat ->
  Lib.scan (tokens ++ [" "]) p m re im = Lib.scan tokens p m re im.
Proof.
  induction n as [|n IH]; intros tokens p m re im L.
  - destruct tokens; [reflexivity | simpl in L; lia].
  - destruct tokens as [|c rest]; [reflexivity|].
    simpl in L. change ((c :: rest) ++ [" "])%list with (c :: (rest ++ [" "])%list).
    cbn [Lib.scan].
    destruct (Lib.is_blank c); [apply IH; lia|].
    destruct (String.eqb c "+"); [apply IH; lia|].
    destruct (String.eqb c "-"); [apply IH; lia|].
    destruct (Lib.is_i c).
    + destruct (p + m =? 0)%nat; [reflexivity|].
      destruct rest as [|next rest']; [reflexivity|].
      cbn [app].
      destruct (negb (String.eqb next " ")
                && negb (Global.isNaN_string next));
        [apply IH; simpl in L; lia | apply (IH (next :: rest')); lia].
    + destruct ((p + m =? 0)%nat || Global.isNaN_string c); [reflexivity|].
      destruct rest as [|next rest']; [reflexivity|].
      cbn [app].
      destruct (Lib.is_i next);
        [apply IH; simpl in L; lia | apply (IH (next :: rest')); lia].
Qed.

Lemma parse_string_tokens a b s :
  match Lexer.tokenize a, Lexer.tokenize b with
  | Some ta, Some tb => Lib.scan ta 1 0 0 0 = Lib.scan tb 1 0 0 0
  | None, Some tb => Lib.scan tb 1 0 0 0 = Lib.ScanExit 0 0
  | Some ta, None => Lib.scan ta 1 0 0 0 = Lib.ScanExit 0 0
  | None, None => True
  end ->
  Lib.parse_string a s = Lib.parse_string b s.
Proof.
  unfold Lib.parse_string.
  destruct (Lexer.tokenize a) as [ta|], (Lexer.tokenize b) as [tb|];
    intros E; try rewrite E; reflexivity.
Qed.

Lemma Complex_same_parse a b s :
  (forall s0, Lib.parse_string a s0 = Lib.parse_string b s0) ->
  Lib.Complex (VStr a) VUndefined s = Lib.Complex (VStr b) VUndefined s.
Proof.
  intros E. unfold Lib.Complex, Lib.parse. simpl. unfold bind at 1 3.
  simpl. unfold bind at 1 3. now rewrite E.
Qed.

Lemma tokenize_cons c a :
  Lexer.re_token (String c (Lexer.remove_underscores a))
  = Some (str1 c, Lexer.remove_underscores a) ->
  Ascii.eqb c "_" = false ->
  Lexer.tokenize (String c a)
  = Some (str1 c :: match Lexer.tokenize a with
                    | Some l => l
                    | None => []
                    end).
Proof.
  intros E U. unfold Lexer.tokenize. simpl Lexer.remove_underscores.
  rewrite U. rewrite (match_all_step _ _ _ E).
  now destruct (Lexer.match_all _ _).
Qed.

(** White space around a text: a space or a tab before it, or a space
    after it, changes nothing of what [new Complex] does with it. *)
Theorem outer_blanks_are_ignored a s :
  Lib.Complex (VStr (" " ++ a)) VUndefined s
  = Lib.Complex (VStr a) VUndefined s
  /\ Lib.Complex (VStr (String "009" a)) VUndefined s
     = Lib.Complex (VStr a) VUndefined s
  /\ Lib.Complex (VStr (a ++ " ")) VUndefined s
     = Lib.Complex (VStr a) VUndefined s.
Proof.
  split; [|split]; apply Complex_same_parse; intros s0;
    apply parse_string_tokens.
  - change (" " ++ a) with (String " " a).
    rewrite (tokenize_cons " " a) by reflexivity.
    destruct (Lexer.tokenize a); reflexivity.
  - rewrite (tokenize_cons "009" a) by reflexivity.
    destruct (Lexer.tokenize a); reflexivity.
  - unfold Lexer.tokenize. rewrite remove_underscores_app.
    simpl (Lexer.remove_underscores " ").
    rewrite (match_all_snoc _ _ (le_n _)).
    destruct (Lexer.match_all _ (Lexer.remove_underscores a)) as [|t l];
      [reflexivity|].
    simpl app. apply (scan_snoc _ (t :: l) 1 0 _ _ (le_n _)).
Qed.

End BlankScan.

(* ================================================================= *)
(** ** The statements at concrete inputs *)

Section Concrete.

Local Open Scope string_scope.

Ltac ev := vm_compute; reflexivity.
Ltac holds_now := split; ev.

(** [0/0] is NaN, [1/0] is infinity, [0/1] is zero, [1/2] is [0.5]. *)
Lemma div_poles_witness :
  fst (prototype.div (host := bare_host) Complex_ZERO (VNum 0) VUndefined
                     bare_store) = Normal Complex_NAN
  /\ fst (prototype.div (host := bare_host) Complex_ONE (VNum 0) VUndefined
                        bare_store) = Normal Complex_INFINITY
  /\ fst (prototype.div (host := bare_host) Complex_ZERO (VNum 1) VUndefined
                        bare_store) = Normal Complex_ZERO
  /\ exists l s2,
      prototype.div (host := bare_host) Complex_ONE (VNum 2) VUndefined
                    bare_store = (Normal l, s2)
      /\ l = 7 /\ holds s2 l (VNum 0.5) (VNum 0).
Proof.
  split; [|split; [|split]].
  - destruct (@div_poles bare_host bare_store Complex_ZERO (VNum 0) VUndefined
                ZP (mkStore (VNum 0) (VNum 0) (heap bare_store)) 0 0 0 0)
      as (A & _); [holds_now | ev | holds_now |].
    rewrite A; ev.
  - destruct (@div_poles bare_host bare_store Complex_ONE (VNum 0) VUndefined
                ZP (mkStore (VNum 0) (VNum 0) (heap bare_store)) 1 0 0 0)
      as (_ & B & _); [holds_now | ev | holds_now |].
    rewrite B; ev.
  - destruct (@div_poles bare_host bare_store Complex_ZERO (VNum 1) VUndefined
                ZP (mkStore (VNum 1) (VNum 0) (heap bare_store)) 0 0 1 0)
      as (_ & _ & C & _); [holds_now | ev | holds_now |].
    rewrite C; ev.
  - destruct (@div_poles bare_host bare_store Complex_ONE (VNum 2) VUndefined
                ZP (mkStore (VNum 2) (VNum 0) (heap bare_store)) 1 0 2 0)
      as (_ & _ & _ & D); [holds_now | ev | holds_now |].
    destruct D as (l & s2 & E & L & H); [ev | ev | ev | ev |].
    exists l, s2. split; [exact E | split; [exact L | exact H]].
Defined.

(** [1 + NaN] and [1 - NaN] are [Complex.INFINITY]. *)
Lemma add_sub_nan_operand_witness :
  fst (prototype.add (host := bare_host) Complex_ONE (VNum nan) VUndefined
                     bare_store) = Normal Complex_INFINITY
  /\ fst (prototype.sub (host := bare_host) Complex_ONE (VNum nan) VUndefined
                        bare_store) = Normal Complex_INFINITY.
Proof.
  destruct (@add_sub_nan_operand bare_host bare_store Complex_ONE (VNum nan)
              VUndefined ZP (mkStore (VNum nan) (VNum 0) (heap bare_store))
              1 0 nan 0) as (A & B & _);
    [holds_now | ev | ev | holds_now | ev |].
  rewrite A, B. split; ev.
Defined.

(** [0 ^ "0"] is [Complex.ONE]. *)
Lemma pow_zero_exponent_witness :
  fst (prototype.pow (host := bare_host) Complex_ZERO (VStr "0") VUndefined
                     bare_store) = Normal Complex_ONE.
Proof.
  rewrite (@pow_zero_exponent bare_host bare_store Complex_ZERO (VStr "0")
             VUndefined ZP (mkStore (VNum 0) (VNum 0) (heap bare_store))
             (VNum 0) (VNum 0) 0 0);
    [ev | holds_now | ev | holds_now | ev].
Defined.

(** [Complex.NAN] is infinite and not finite. *)
Lemma isInfinite_iff_not_finite_witness :
  exists b,
    prototype.isInfinite Complex_NAN bare_store = (Normal b, bare_store)
    /\ prototype.isFinite Complex_NAN bare_store = (Normal (negb b), bare_store)
    /\ (b = true <->
        is_nan nan || is_infinity nan || (is_nan nan || is_infinity nan) = true).
Proof.
  apply (isInfinite_iff_not_finite bare_store Complex_NAN nan nan).
  holds_now.
Defined.

(** [Complex.I] prints as ["i"]. *)
Lemma toString_layout_witness :
  prototype.toString (host := bare_host) Complex_I bare_store
  = (Normal "i", bare_store).
Proof.
  destruct (@toString_layout bare_host bare_store Complex_I 0 1)
    as (_ & _ & C); [holds_now|].
  destruct C as (_ & _ & _ & _ & E); [ev | ev |].
  rewrite E; ev.
Defined.

(** [Complex.E] equals itself; [Complex.INFINITY] does not. *)
Lemma equals_tolerance_witness :
  fst (prototype.equals (host := bare_host) Complex_E (VObj Complex_E)
                        VUndefined bare_store) = Normal true
  /\ fst (prototype.equals (host := bare_host) Complex_INFINITY
                           (VObj Complex_INFINITY) VUndefined bare_store)
     = Normal false.
Proof.
  destruct (@equals_tolerance bare_host) as (_ & R & _ & I).
  split.
  - apply (R bare_store Complex_E Math_E 0%float); [holds_now | ev].
  - apply I. holds_now.
Defined.

(** [acot] of [Complex.ONE] on the bare host. *)
Lemma acot_real_axis_witness :
  exists l s',
    prototype.acot (host := bare_host) Complex_ONE bare_store = (Normal l, s')
    /\ l = 7
    /\ holds s' l (VNum (@Math_atan2 bare_host 1 1)) (VNum 0).
Proof.
  destruct (@acot_real_axis bare_host) as (A & _).
  apply (A bare_store Complex_ONE 1%float 0%float); [holds_now | ev].
Defined.

(** [new Complex("1", "2")]: the strings are stored; and
    [new Complex(null, 5)] reads [(0, 0)]. *)
Lemma two_arguments_stored_raw_witness :
  (exists l s',
      Lib.Complex (host := bare_host) (VStr "1") (VStr "2") bare_store
      = (Normal l, s')
      /\ l = 7 /\ holds s' l (VStr "1") (VStr "2"))
  /\ (exists l s',
         Lib.Complex (host := bare_host) VNull (VNum 5) bare_store
         = (Normal l, s')
         /\ l = 7 /\ holds s' l (VNum 0) (VNum 0)).
Proof.
  split.
  - destruct (@two_arguments_stored_raw bare_host (VStr "1") (VStr "2")
                bare_store) as [_ B].
    apply B; ev.
  - destruct (@two_arguments_stored_raw bare_host VNull (VNum 5) bare_store)
      as [A _].
    apply A. ev.
Defined.

(** C2, as stated, fails: the value [Complex.NAN], whose components are
    NaN, is classified as infinite. *)
Lemma isInfinite_of_NAN :
  holds bare_store Complex_NAN (VNum nan) (VNum nan)
  /\ fst (prototype.isNaN Complex_NAN bare_store) = Normal true
  /\ fst (prototype.isInfinite Complex_NAN bare_store) = Normal true.
Proof. repeat split; vm_compute; reflexivity. Qed.

(** C7, as stated, fails: [new Complex("1", "2")] holds the two strings,
    not the Numbers [1] and [2]; and [new Complex(null, 5)] holds
    [(0, 0)]. *)
Lemma two_strings_not_coerced :
  (let r := Lib.Complex (host := bare_host) (VStr "1") (VStr "2") bare_store in
   fst r = Normal 7
   /\ field (snd r) 7 "re" = Some (VStr "1")
   /\ field (snd r) 7 "im" = Some (VStr "2")
   /\ field (snd r) 7 "re" <> Some (VNum 1))
  /\ (let r := Lib.Complex (host := bare_host) VNull (VNum 5) bare_store in
      fst r = Normal 7
      /\ field (snd r) 7 "re" = Some (VNum 0)
      /\ field (snd r) 7 "im" = Some (VNum 0)).
Proof. repeat split; try (vm_compute; reflexivity). vm_compute. discriminate. Qed.

(** C9, as stated, fails: [Complex.ONE.add(Infinity)] returns
    [Complex.INFINITY], an object the heap held before the call. *)
Lemma add_returns_shared_constant :
  fst (prototype.call (host := bare_host) "add" Complex_ONE [VNum infinity]
                      bare_store) = Normal (VObj Complex_INFINITY)
  /\ (Complex_INFINITY < List.length (heap bare_store))%nat.
Proof. split; vm_compute; [reflexivity | lia]. Qed.

(** C3 at a form feed: [new Complex("\f")] does not raise; it returns a
    Complex reading [(NaN, 0)], where [new Complex(" ")] and
    [new Complex("foo")] raise. *)
Theorem form_feed_is_not_rejected :
  (let r := Lib.Complex (host := bare_host) (VStr form_feed) VUndefined
                        bare_store in
   fst r = Normal 7
   /\ field (snd r) 7 "re" = Some (VNum nan)
   /\ field (snd r) 7 "im" = Some (VNum 0))
  /\ fst (Lib.Complex (host := bare_host) (VStr " ") VUndefined bare_store)
     = Throw "SyntaxError" "Invalid Param"
  /\ fst (Lib.Complex (host := bare_host) (VStr "foo") VUndefined bare_store)
     = Throw "SyntaxError" "Invalid Param".
Proof. repeat split; vm_compute; reflexivity. Qed.

Lemma Complex_raises_iff_witness :
  plain_argument bare_store (VStr "1+2i") /\
  (raises (fst (Lib.Complex (host := bare_host) (VStr "1+2i") VUndefined
                            bare_store)) <->
   Grammar.recognized bare_store (VStr "1+2i") VUndefined = false).
Proof.
  split; [ev|].
  apply (Complex_raises_iff (host := bare_host)
           (VStr "1+2i") VUndefined bare_store). ev.
Defined.

(** [1 + i] and [i + 1]. *)
Lemma add_commutes_witness :
  fst (prototype.add (host := bare_host) Complex_ONE (VObj Complex_I)
                     VUndefined bare_store)
  = fst (prototype.add (host := bare_host) Complex_I (VObj Complex_ONE)
                       VUndefined bare_store)
  /\ heap (snd (prototype.add (host := bare_host) Complex_ONE
                              (VObj Complex_I) VUndefined bare_store))
     = heap (snd (prototype.add (host := bare_host) Complex_I
                                (VObj Complex_ONE) VUndefined bare_store))
  /\ exists l, fst (prototype.add (host := bare_host) Complex_ONE
                                  (VObj Complex_I) VUndefined bare_store)
               = Normal l.
Proof.
  apply (@add_commutes bare_host bare_store Complex_ONE Complex_I 1 0 0 1);
    holds_now.
Defined.

(** [1 * i] and [i * 1]. *)
Lemma mul_commutes_witness :
  fst (prototype.mul (host := bare_host) Complex_ONE (VObj Complex_I)
                     VUndefined bare_store)
  = fst (prototype.mul (host := bare_host) Complex_I (VObj Complex_ONE)
                       VUndefined bare_store)
  /\ heap (snd (prototype.mul (host := bare_host) Complex_ONE
                              (VObj Complex_I) VUndefined bare_store))
     = heap (snd (prototype.mul (host := bare_host) Complex_I
                                (VObj Complex_ONE) VUndefined bare_store))
  /\ exists l, fst (prototype.mul (host := bare_host) Complex_ONE
                                  (VObj Complex_I) VUndefined bare_store)
               = Normal l.
Proof.
  apply (@mul_commutes bare_host bare_store Complex_ONE Complex_I 1 0 0 1);
    holds_now.
Defined.

(** [1 - 1] is a new zero. *)
Lemma sub_self_witness :
  exists l s',
    prototype.sub (host := bare_host) Complex_ONE (VObj Complex_ONE)
                  VUndefined bare_store = (Normal l, s')
    /\ l = List.length (heap bare_store)
    /\ holds s' l (VNum 0) (VNum 0).
Proof.
  destruct (@sub_self bare_host bare_store Complex_ONE 1 0) as [A _];
    [holds_now|].
  apply A. ev.
Defined.

(** [1 + 2] and [1 - 2]. *)
Lemma add_sub_cases_witness :
  exists l sa ss,
    l = List.length (heap bare_store)
    /\ prototype.add (host := bare_host) Complex_ONE (VNum 2) VUndefined
                     bare_store = (Normal l, sa)
    /\ holds sa l (VNum (1 + 2)) (VNum (0 + 0))
    /\ prototype.sub (host := bare_host) Complex_ONE (VNum 2) VUndefined
                     bare_store = (Normal l, ss)
    /\ holds ss l (VNum (1 - 2)) (VNum (0 - 0)).
Proof.
  destruct (@add_sub_cases bare_host bare_store Complex_ONE (VNum 2)
              VUndefined ZP (mkStore (VNum 2) (VNum 0) (heap bare_store))
              1 0 2 0) as (_ & _ & C); [holds_now | ev | holds_now |].
  apply C. ev.
Defined.

(** [Infinity * 0] is [Complex.NAN]. *)
Lemma mul_cases_witness :
  prototype.mul (host := bare_host) Complex_INFINITY (VNum 0) VUndefined
                bare_store
  = (Normal Complex_NAN, mkStore (VNum 0) (VNum 0) (heap bare_store)).
Proof.
  destruct (@mul_cases bare_host bare_store Complex_INFINITY (VNum 0)
              VUndefined ZP (mkStore (VNum 0) (VNum 0) (heap bare_store))
              infinity infinity 0 0) as (A & _);
    [holds_now | ev | holds_now |].
  apply A. ev.
Defined.

(** A clone of [Complex.I]. *)
Lemma clone_is_a_fresh_copy_witness :
  exists l s',
    prototype.clone (host := bare_host) Complex_I bare_store = (Normal l, s')
    /\ l = List.length (heap bare_store) /\ l <> Complex_I
    /\ holds s' l (VNum 0) (VNum 1)
    /\ holds s' Complex_I (VNum 0) (VNum 1).
Proof.
  destruct (@clone_is_a_fresh_copy bare_host bare_store Complex_I 0 1)
    as [A _]; [holds_now|].
  exact A.
Defined.

(** [new Complex(Complex.I.toVector())]. *)
Lemma toVector_round_trip_witness :
  exists v s1 l s2,
    prototype.toVector Complex_I bare_store
    = (Normal v, s1)
    /\ v = List.length (heap bare_store)
    /\ field s1 v "0" = Some (VNum 0)
    /\ field s1 v "1" = Some (VNum 1)
    /\ field s1 v "length" = Some (VNum 2)
    /\ Lib.Complex (host := bare_host) (VObj v) VUndefined s1 = (Normal l, s2)
    /\ l = S v
    /\ holds s2 l (VNum 0) (VNum 1).
Proof.
  apply (@toVector_round_trip bare_host bare_store Complex_I 0 1).
  holds_now.
Defined.

(** [new Complex({abs: Infinity, arg: 0})] reads what [Complex.INFINITY]
    reads. *)
Lemma polar_construction_witness :
  let o := mkObject Object_prototype
             [("abs", VNum infinity); ("arg", VNum 0)] in
  let s := mkStore (VNum 0) (VNum 0) (heap bare_store ++ [o]) in
  exists c s',
    Lib.Complex (host := bare_host) (VObj 7) VUndefined s = (Normal c, s')
    /\ c = 8
    /\ holds s' c (VNum infinity) (VNum infinity).
Proof.
  intros o s.
  destruct (@polar_construction bare_host s 7 o infinity 0)
    as (c & s' & E & L & A & _);
    [ev | holds_now | ev | left; split; ev |].
  exists c, s'. split; [exact E|]. split; [exact L|]. apply A. ev.
Defined.

(** [-(-i)] and the conjugate of the conjugate of [i]. *)
Lemma neg_conjugate_involutive_witness :
  (exists l1 s1 l2 s2,
      prototype.neg (host := bare_host) Complex_I bare_store = (Normal l1, s1)
      /\ holds s1 l1 (VNum (- 0)) (VNum (- 1))
      /\ prototype.neg (host := bare_host) l1 s1 = (Normal l2, s2)
      /\ holds s2 l2 (VNum 0) (VNum 1))
  /\ (exists l1 s1 l2 s2,
         prototype.conjugate (host := bare_host) Complex_I bare_store
         = (Normal l1, s1)
         /\ holds s1 l1 (VNum 0) (VNum (- 1))
         /\ prototype.conjugate (host := bare_host) l1 s1 = (Normal l2, s2)
         /\ holds s2 l2 (VNum 0) (VNum 1)).
Proof.
  apply (@neg_conjugate_involutive bare_host bare_store Complex_I 0 1).
  holds_now.
Defined.

(** [|i|], [|-i|] and the modulus of the conjugate of [i]. *)
Lemma abs_ignores_signs_witness :
  exists r,
    prototype.abs (host := bare_host) Complex_I bare_store
    = (Normal r, bare_store)
    /\ (exists l s1,
           prototype.neg (host := bare_host) Complex_I bare_store
           = (Normal l, s1)
           /\ prototype.abs (host := bare_host) l s1 = (Normal r, s1))
    /\ (exists l s1,
           prototype.conjugate (host := bare_host) Complex_I bare_store
           = (Normal l, s1)
           /\ prototype.abs (host := bare_host) l s1 = (Normal r, s1)).
Proof.
  apply (@abs_ignores_signs bare_host bare_store Complex_I 0 1).
  holds_now.
Defined.

(** The inverse of [Complex.NAN] is [Complex.ZERO]. *)
Lemma inverse_cases_witness :
  prototype.inverse (host := bare_host) Complex_NAN bare_store
  = (Normal Complex_ZERO, bare_store).
Proof.
  destruct (@inverse_cases bare_host bare_store Complex_NAN nan nan)
    as (_ & _ & C & _); [holds_now|].
  apply C. ev.
Defined.


(** [atan(i)] is [(0, Infinity)]. *)
Lemma inverse_functions_at_singular_points_witness :
  creates (prototype.atan (host := bare_host) Complex_I) bare_store
          0 infinity.
Proof.
  destruct (@inverse_functions_at_singular_points bare_host bare_store
              Complex_I 0 1) as (A & _); [holds_now|].
  apply A. ev.
Defined.

(** [Complex.NAN.equals(Complex.NAN)] is [false]. *)
Lemma equals_only_between_finite_witness :
  prototype.equals (host := bare_host) Complex_NAN (VObj Complex_NAN)
                   VUndefined bare_store
  = (Normal false, mkStore (VNum nan) (VNum nan) (heap bare_store)).
Proof.
  apply (@equals_only_between_finite bare_host bare_store Complex_NAN
           (VObj Complex_NAN) VUndefined ZP
           (mkStore (VNum nan) (VNum nan) (heap bare_store))
           nan nan nan nan);
    [holds_now | ev | holds_now | ev].
Defined.

(** [new Complex("1-2i")]: the terms [1] and [-2i]. *)
Lemma text_of_terms_witness :
  let ts := [TReal "" "1"; TImag "-" "2"] in
  terms_ok ts = true
  /\ terms_text ts = "1-2i"
  /\ exists l s',
      Lib.Complex (host := bare_host) (VStr (terms_text ts)) VUndefined
                  bare_store = (Normal l, s')
      /\ l = List.length (heap bare_store)
      /\ holds s' l (VNum (fst (terms_value ts)))
                    (VNum (snd (terms_value ts))).
Proof.
  intros ts. split; [ev|]. split; [ev|].
  apply (@text_of_terms bare_host ts bare_store). ev.
Defined.

(** [exp(1)] has imaginary part [0]. *)
Lemma real_axis_is_closed_witness :
  creates (prototype.exp (host := bare_host) Complex_ONE) bare_store
          (Math_exp (Platform := bare_host) 1) 0.
Proof.
  destruct (@real_axis_is_closed bare_host bare_store Complex_ONE 1 0)
    as (A & _); [holds_now | ev |].
  exact A.
Defined.

(** [1 - i] and [1 + (-i)]. *)
Lemma sub_is_add_of_neg_witness :
  exists n s1,
    prototype.neg (host := bare_host) Complex_I bare_store = (Normal n, s1)
    /\ exists x y,
        creates (prototype.sub (host := bare_host) Complex_ONE
                               (VObj Complex_I) VUndefined) bare_store x y
        /\ creates (prototype.add (host := bare_host) Complex_ONE (VObj n)
                                  VUndefined) s1 x y.
Proof.
  destruct (@sub_is_add_of_neg bare_host bare_store Complex_ONE Complex_I
              1 0 0 1) as (n & s1 & E & _ & B); [holds_now | holds_now |].
  exists n, s1. split; [exact E|]. apply B. ev.
Defined.

(** [i] times its conjugate. *)
Lemma mul_by_conjugate_is_real_witness :
  exists c s1,
    prototype.conjugate (host := bare_host) Complex_I bare_store
    = (Normal c, s1)
    /\ exists x,
        creates (prototype.mul (host := bare_host) Complex_I (VObj c)
                               VUndefined) s1 x 0.
Proof.
  apply (@mul_by_conjugate_is_real bare_host bare_store Complex_I 0 1);
    [holds_now | ev | ev].
Defined.

End Concrete.
